(** * The multi-agent decision scheduler of [MA_CB_RP_Major.forward]

    A shallow embedding of [Off_CB_model/off_magent_model.py]: the rollout
    loop of [MA_CB_RP_Major.forward] with its decision queues, feasibility
    masks, broadcast of boarding channels and recorded tours, and the
    validation done by [MA_CB_RP_Major.__init__].

    Conventions of the embedding.
    - Tensor entries are integers ([Z]).  The properties below only copy,
      compare and add entries and multiply them by 0/1 flags; rounding,
      infinities and NaN of floating point are outside the embedding.
    - A tensor of rank n is a list nested n times: a [(batch, features,
      stations)] tensor is indexed instance, then row (channel), then column
      (station).
    - The ten hand-written variables [dynamic1] .. [dynamic10] (and likewise
      [mask1] .., [agent_mask1] ..) are one list of ten entries, agent [k]
      at position [k - 1]; the ten copies of each code block, which differ
      only in that number, are one function taking the agent number.
    - Python exceptions are the [Raise] results of the [res] monad.
    - The networks (encoders, pointer, sampling) are an oracle: what they
      return for each tick, agent and instance is a parameter of the rollout.
      The collaborators [update_od], [update_tw], [update_fn], [mask_fn] and
      [mask_start] are parameters too, as they are of the constructor. *)

From stdpp Require Import gmap list sorting.

Open Scope Z_scope.

(** ** Exceptions and results *)

Inductive exn : Set :=
  | IndexError | KeyError | ValueError | RuntimeError
  | SamplingDiverges (* the rejection-sampling loop ran out of fuel *).

Inductive res (A : Type) : Type :=
  | Ok (a : A)
  | Raise (e : exn).
Arguments Ok {A} a.
Arguments Raise {A} e.

Global Instance res_ret : MRet res := λ A, Ok.
Global Instance res_bind : MBind res := λ A B f m,
  match m with Ok a => f a | Raise e => Raise e end.

Fixpoint foldM {A S : Type} (f : S → A → res S) (s : S) (l : list A) : res S :=
  match l with
  | [] => Ok s
  | x :: l' => s' ← f s x; foldM f s' l'
  end.

Fixpoint mapM_res {A B : Type} (f : A → res B) (l : list A) : res (list B) :=
  match l with
  | [] => Ok []
  | x :: l' => y ← f x; ys ← mapM_res f l'; Ok (y :: ys)
  end.

(** ** Python lists, dicts and [range] *)

(** [l[i]] for [0 <= i]. *)
Definition getitem {A : Type} (l : list A) (i : nat) : res A :=
  match l !! i with
  | Some x => Ok x
  | None => Raise IndexError
  end.

(** [l[i] = x] for [0 <= i]. *)
Definition setitem {A : Type} (l : list A) (i : nat) (x : A) : res (list A) :=
  if decide (i < length l)%nat then Ok (<[i:=x]> l) else Raise IndexError.

(** [d[k]] on a dict. *)
Definition dict_get {V : Type} (d : gmap nat V) (k : nat) : res V :=
  match d !! k with
  | Some v => Ok v
  | None => Raise KeyError
  end.

(** [range(lo, hi)] as the list of its numbers; empty when [hi <= lo]. *)
Definition py_range (lo : nat) (hi : Z) : list nat :=
  seq lo (Z.to_nat hi - lo).

(** [l.remove(x)]: drops the first element equal to [x], [ValueError] when
    there is none. *)
Fixpoint list_remove `{EqDecision A} (x : A) (l : list A) : res (list A) :=
  match l with
  | [] => Raise ValueError
  | y :: l' =>
      if decide (y = x) then Ok l'
      else l'' ← list_remove x l'; Ok (y :: l'')
  end.

(** ** Tensors *)

Abbreviation tensor1 := (list Z).
Abbreviation tensor2 := (list (list Z)).
Abbreviation tensor3 := (list (list (list Z))).

(** [t.byte()] on one entry: conversion to an unsigned 8-bit integer. *)
Definition byte (x : Z) : Z := x `mod` 256.

(** [t.byte().any()] and [t.byte().all()] on a rank-2 tensor. *)
Definition byte_any (t : tensor2) : bool :=
  existsb (existsb (λ x, negb (byte x =? 0))) t.
Definition byte_all1 (t : tensor1) : bool :=
  forallb (λ x, negb (byte x =? 0)) t.

(** The lengths of all rows of all instances: two rank-3 tensors have the
    same shape when these agree. *)
Definition dims (t : tensor3) : list (list nat) := map (map length) t.

(** [zeros] and [ones] of a given length. *)
Definition zeros (n : nat) : tensor1 := replicate n 0.
Definition ones (n : nat) : tensor1 := replicate n 1.

(** Row sum, [row.sum()]. *)
Definition row_sum (r : tensor1) : Z := foldr Z.add 0 r.

(** Elementwise sum of two rank-2 tensors of one shape. *)
Definition tensor2_add (a b : tensor2) : tensor2 :=
  zip_with (zip_with Z.add) a b.

(** ** The decision queue *)

(** A queue entry [[scheduled_time, agent_id]]. *)
Abbreviation entry := (Z * nat)%type.

(** [list.sort(q, key=lambda x: [x[0]])]: a stable sort by scheduled time,
    ascending.  A stable sort has one result only, so insertion sort stands
    for Python's. *)
Fixpoint sort_insert (x : entry) (q : list entry) : list entry :=
  match q with
  | [] => [x]
  | y :: q' => if decide (x.1 ≤ y.1) then x :: y :: q' else y :: sort_insert x q'
  end.

Definition sort_queue (q : list entry) : list entry :=
  foldr sort_insert [] q.

(** ** Indexed reads and writes on tensors *)

(** [l[a - 1]] for an agent number [a]; Python reads [l[-1]], the last
    element, when [a] is 0. *)
Definition getitem_pred {A : Type} (l : list A) (a : nat) : res A :=
  match a with
  | O => match last l with Some x => Ok x | None => Raise IndexError end
  | S k => getitem l k
  end.

(** Broadcasting along one dimension: a source of the target's length is
    taken as it is, a source of length 1 is repeated, anything else is a
    shape error. *)
Definition expand_list {A : Type} (n : nat) (l : list A) : res (list A) :=
  if decide (length l = n) then Ok l
  else match l with
       | [x] => Ok (replicate n x)
       | _ => Raise RuntimeError
       end.

(** Broadcasting a rank-3 source to the shape of a rank-3 target. *)
Definition expand3 (tgt src : tensor3) : res tensor3 :=
  s1 ← expand_list (length tgt) src;
  mapM_res (λ p : list (list Z) * list (list Z),
      s2 ← expand_list (length p.1) p.2;
      mapM_res (λ q : list Z * list Z, expand_list (length q.1) q.2) (zip p.1 s2))
    (zip tgt s1).

(** [t[ns0][r] = row]. *)
Definition set_row (t : tensor3) (ns0 r : nat) (row : tensor1) : res tensor3 :=
  inst ← getitem t ns0;
  old ← getitem inst r;
  row' ← expand_list (length old) row;
  inst' ← setitem inst r row';
  setitem t ns0 inst'.

(** [t[:, 1:4, 0:L]]: rows 1 to 3 and the first [L] columns of every
    instance; a slice is cut short where the tensor ends. *)
Definition slice_1_4 (L : nat) (t : tensor3) : tensor3 :=
  map (λ inst, map (take L) (take 3 (drop 1 inst))) t.

(** Writing [v], of the shape of [slice_1_4 L dst], over that slice. *)
Definition write_slice_1_4 (L : nat) (dst v : tensor3) : tensor3 :=
  zip_with (λ di vi,
      take 1 di
      ++ zip_with (λ dr vr, vr ++ drop L dr) (take 3 (drop 1 di)) vi
      ++ drop 4 di)
    dst v.

(** [dst[:, 1:4, 0:L] = src[:, 1:4, 0:L].clone()]. *)
Definition slice_assign (L : nat) (dst src : tensor3) : res tensor3 :=
  v ← expand3 (slice_1_4 L dst) (slice_1_4 L src);
  Ok (write_slice_1_4 L dst v).

(** ** The state of a rollout *)

(** The local variables of [forward] that live across ticks. *)
Record state : Type := State {
  dyn : list tensor3;                  (* dynamic1 .. dynamic10 *)
  dynamic : list tensor3;              (* the list [dynamic] *)
  records : tensor3 * tensor3 * tensor3;  (* record1, record2, record3 *)
  tw_mask : tensor3;
  mask : list tensor2;                 (* mask1 .. mask10 *)
  agent_mask : list tensor2;           (* agent_mask1 .. agent_mask10 *)
  decision_list : list (list entry);
  decision_mask_dict : gmap nat (list Z);
  tour_idx : gmap nat (list tensor1);
  tour_logp : gmap nat (list tensor1);
  tour_idx_dict : gmap nat (list (list Z));
}.

Definition set_dyn (s : state) (x : list tensor3) : state :=
  State x (dynamic s) (records s) (tw_mask s) (mask s) (agent_mask s)
    (decision_list s) (decision_mask_dict s) (tour_idx s) (tour_logp s)
    (tour_idx_dict s).
Definition set_dynamic (s : state) (x : list tensor3) : state :=
  State (dyn s) x (records s) (tw_mask s) (mask s) (agent_mask s)
    (decision_list s) (decision_mask_dict s) (tour_idx s) (tour_logp s)
    (tour_idx_dict s).
Definition set_records (s : state) (x : tensor3 * tensor3 * tensor3) : state :=
  State (dyn s) (dynamic s) x (tw_mask s) (mask s) (agent_mask s)
    (decision_list s) (decision_mask_dict s) (tour_idx s) (tour_logp s)
    (tour_idx_dict s).
Definition set_tw_mask (s : state) (x : tensor3) : state :=
  State (dyn s) (dynamic s) (records s) x (mask s) (agent_mask s)
    (decision_list s) (decision_mask_dict s) (tour_idx s) (tour_logp s)
    (tour_idx_dict s).
Definition set_mask (s : state) (x : list tensor2) : state :=
  State (dyn s) (dynamic s) (records s) (tw_mask s) x (agent_mask s)
    (decision_list s) (decision_mask_dict s) (tour_idx s) (tour_logp s)
    (tour_idx_dict s).
Definition set_agent_mask (s : state) (x : list tensor2) : state :=
  State (dyn s) (dynamic s) (records s) (tw_mask s) (mask s) x
    (decision_list s) (decision_mask_dict s) (tour_idx s) (tour_logp s)
    (tour_idx_dict s).
Definition set_decision_list (s : state) (x : list (list entry)) : state :=
  State (dyn s) (dynamic s) (records s) (tw_mask s) (mask s) (agent_mask s)
    x (decision_mask_dict s) (tour_idx s) (tour_logp s) (tour_idx_dict s).
Definition set_decision_mask_dict (s : state) (x : gmap nat (list Z)) : state :=
  State (dyn s) (dynamic s) (records s) (tw_mask s) (mask s) (agent_mask s)
    (decision_list s) x (tour_idx s) (tour_logp s) (tour_idx_dict s).
Definition set_tour_idx (s : state) (x : gmap nat (list tensor1)) : state :=
  State (dyn s) (dynamic s) (records s) (tw_mask s) (mask s) (agent_mask s)
    (decision_list s) (decision_mask_dict s) x (tour_logp s) (tour_idx_dict s).
Definition set_tour_logp (s : state) (x : gmap nat (list tensor1)) : state :=
  State (dyn s) (dynamic s) (records s) (tw_mask s) (mask s) (agent_mask s)
    (decision_list s) (decision_mask_dict s) (tour_idx s) x (tour_idx_dict s).
Definition set_tour_idx_dict (s : state) (x : gmap nat (list (list Z))) : state :=
  State (dyn s) (dynamic s) (records s) (tw_mask s) (mask s) (agent_mask s)
    (decision_list s) (decision_mask_dict s) (tour_idx s) (tour_logp s) x.

(** ** Cohort extraction (the head of a tick) *)

(** [decision_mask_dict[a][ns0] = 1]. *)
Definition flag_agent (a ns0 : nat) (d : gmap nat (list Z)) : res (gmap nat (list Z)) :=
  fl ← dict_get d a;
  fl' ← setitem fl ns0 1;
  Ok (<[a:=fl']> d).

(** [decision_mask_dict[e[1]][ns0] = 1; decision_list[ns0].remove(e)]. *)
Definition flag_and_remove (ns0 : nat) (e : entry) (s : state) : res state :=
  d ← flag_agent e.2 ns0 (decision_mask_dict s);
  q ← getitem (decision_list s) ns0;
  q' ← list_remove e q;
  dl ← setitem (decision_list s) ns0 q';
  Ok (set_decision_list (set_decision_mask_dict s d) dl).

(** The body of [for ns0, ns0a in enumerate(cy_decision_list)]: [ns0a] is
    the copy of instance [ns0]'s queue taken before the loop. *)
Definition extract_instance (ns0 : nat) (ns0a : list entry) (s : state) : res state :=
  match ns0a with
  | [] => Ok s
  | hd :: tl =>
      s1 ← flag_and_remove ns0 hd s;
      src ← getitem_pred (dynamic s1) hd.2;
      inst ← getitem src ns0;
      row ← getitem inst 10;
      dyn' ← mapM_res (λ t, set_row t ns0 5 row) (dyn s1);
      foldM (λ s' e, if decide (e.1 = hd.1) then flag_and_remove ns0 e s' else Ok s')
        (set_dyn s1 dyn') tl
  end.

(** Lines 317 to 355: the loop over the copied queues. *)
Definition cohort_extraction (s : state) : res state :=
  foldM (λ s' p, extract_instance p.1 p.2 s') s
    (zip (seq 0 (length (decision_list s))) (decision_list s)).

(** ** The model object, the networks and the inputs *)

Abbreviation records_t := (tensor3 * tensor3 * tensor3)%type.

(** The static tensor with its shape, [static.size()]. *)
Record static_tensor : Type := {
  batch_size : nat;
  input_size : nat;
  sequence_size : nat;
  static_data : tensor3;
}.

Section Model.
(** What [update_tw] hands to [update_fn] ([line_stop_tw]) and the travel
    time graph are opaque to the rollout. *)
Context {stop_info graph : Type}.

(** The fields of [self] that [forward] reads.  [update_fn] and [mask_fn]
    may be [None]: the code tests them; the other three collaborators are
    called without a test. *)
Record MA_CB_RP_Major : Type := {
  agent_number : Z;
  update_fn : option (tensor3 → tensor1 → records_t → static_tensor → list Z
                      → graph → list Z → list (list Z) → stop_info
                      → tensor3 * records_t);
  mask_fn : option (tensor2 → tensor3 → tensor2 → tensor1 → tensor2 * tensor2);
  mask_start : tensor2 → tensor3 → list Z → tensor3 → tensor2
               → tensor2 * tensor2;
  update_tw : tensor3 → tensor1 → records_t → nat → tensor3
              → records_t * stop_info * tensor3;
  update_od : list tensor3 → records_t → static_tensor → list Z → tensor3
              → list tensor3 * records_t;
  training : bool;
}.

(** What the networks of an agent return on a tick, per instance:
    [greedy t a i] is the index of the largest probability
    ([torch.max(probs, 1)]), [sample t a k i] the index given by the
    [k]-th call of [m.sample()], [log_prob t a i p] the logarithm of the
    probability of index [p]; [draws] bounds the calls of [m.sample()]
    that the embedding follows. *)
Record oracle : Type := {
  greedy : nat → nat → nat → Z;
  sample : nat → nat → nat → nat → Z;
  log_prob : nat → nat → nat → Z → Z;
  draws : nat;
}.

(** [MA_CB_RP_Major.__init__]: the check of [dynamic_size], then the
    layers.  [layers] stands for the constructors of the torch layers
    ([nn.Conv1d], [nn.GRU], [nn.Dropout], [nn.Parameter]), which are not
    code of this repository: it says whether they accept the sizes. *)
Definition __init__ (layers : Z → Z → Z → Z → res unit)
    (static_size dynamic_size hidden_size Agent_n : Z)
    (update_fn : option _) (mask_fn : option _) mask_start update_tw update_od
    (num_layers : Z) : res MA_CB_RP_Major :=
  if decide (dynamic_size < 1) then Raise ValueError
  else
    _ ← layers static_size dynamic_size hidden_size num_layers;
    Ok {| agent_number := Agent_n;
          update_fn := update_fn; mask_fn := mask_fn;
          mask_start := mask_start; update_tw := update_tw;
          update_od := update_od;
          training := true |}.

Variable self : MA_CB_RP_Major.
Variable net : oracle.
Variable static : static_tensor.
Variable travel_time_G : graph.
Variables up_station all_station : list Z.

(** ** Action selection (lines 508 to 523) *)

(** [torch.gather(mask, 1, ptr.unsqueeze(1))]: the mask entry of each
    instance at its chosen index. *)
Definition gather (m : tensor2) (ptr : tensor1) : res tensor1 :=
  mapM_res (λ p : list Z * Z,
      if decide (0 ≤ p.2) then
        match p.1 !! Z.to_nat p.2 with
        | Some x => Ok x
        | None => Raise RuntimeError
        end
      else Raise RuntimeError)
    (zip m ptr).

(** [ptr = m.sample()], then again while some instance's index is masked
    out; [k] counts the draws made. *)
Fixpoint sample_valid (fuel : nat) (draw : nat → tensor1) (m : tensor2)
    (k : nat) : res tensor1 :=
  match fuel with
  | O => Raise SamplingDiverges
  | S fuel' =>
      g ← gather m (draw k);
      if byte_all1 g then Ok (draw k) else sample_valid fuel' draw m (S k)
  end.

(** The chosen indices and their log-probabilities as recorded: in
    training mode both are multiplied by the scheduling flags, in
    evaluation mode the indices are and [logp = prob.log()] is taken as it
    is. *)
Definition select_action (t a_n : nat) (m : tensor2) (flags : list Z)
    : res (tensor1 * tensor1) :=
  let B := batch_size static in
  if training self then
    ptr ← sample_valid (draws net) (λ k, sample net t a_n k <$> seq 0 B) m 0;
    let logp := imap (log_prob net t a_n) ptr in
    Ok (zip_with Z.mul ptr flags, zip_with Z.mul logp flags)
  else
    let ptr := greedy net t a_n <$> seq 0 B in
    let logp := imap (log_prob net t a_n) ptr in
    Ok (zip_with Z.mul ptr flags, logp).

(** ** Mask refresh and depot fallback (lines 397 to 406, 1305 to 1312) *)

(** A row that sums to zero becomes depot-only: [mask[idx, 0] = 1] and
    [mask[idx, 1:] = 0]. *)
Definition depot_fallback_row (row : tensor1) : res tensor1 :=
  if decide (row_sum row = 0) then
    match row with
    | [] => Raise IndexError
    | _ :: tl => Ok (1 :: zeros (length tl))
    end
  else Ok row.

Definition depot_fallback (m : tensor2) : res tensor2 :=
  mapM_res depot_fallback_row m.

(** The block [if ag_id == k] of a refresh loop: [mask_start], then the
    depot fallback.  The boolean is [mask_k.byte().any()] on what
    [mask_start] returned, before the fallback.  No block exists for an
    [ag_id] outside 1 .. 10. *)
Definition refresh_mask (ag_id : nat) (s : state) : res (state * bool) :=
  if decide (1 ≤ ag_id ≤ 10)%nat then
    m ← getitem (mask s) (ag_id - 1);
    d ← getitem (dyn s) (ag_id - 1);
    am ← getitem (agent_mask s) (ag_id - 1);
    let r := mask_start self m d up_station (tw_mask s) am in
    m' ← depot_fallback r.1;
    Ok (set_agent_mask (set_mask s (<[(ag_id - 1)%nat := m']> (mask s)))
          (<[(ag_id - 1)%nat := r.2]> (agent_mask s)),
        byte_any r.1)
  else Ok (s, true).

(** ** One agent's action (the block [if a_n == k], lines 507 to 589) *)

(** Lines 548 to 574: every other agent's [dynamic[:, 1:4, 0:len(up_station)]]
    takes the acting agent's. *)
Definition broadcast (a_n : nat) (src : tensor3) (ds : list tensor3)
    : res (list tensor3) :=
  mapM_res (λ p : nat * tensor3,
      if decide (p.1 = (a_n - 1)%nat) then Ok src
      else slice_assign (length up_station) p.2 src)
    (zip (seq 0 (length ds)) ds).

(** Lines 575 to 577: [decision_list[ns0].append([dynamic_k[ns0][10][0], a_n])]
    where the chosen index is not 0. *)
Definition push_decisions (a_n : nat) (ptr : tensor1) (d : tensor3)
    (dl : list (list entry)) : res (list (list entry)) :=
  foldM (λ dl' ns0,
      p ← getitem ptr ns0;
      if decide (p ≠ 0) then
        inst ← getitem d ns0;
        row ← getitem inst 10;
        next_time ← getitem row 0;
        q ← getitem dl' ns0;
        setitem dl' ns0 (q ++ [(next_time, a_n)])
      else Ok dl')
    dl (seq 0 (length dl)).

(** Lines 580 to 582: [tour_idx_dict[a_n][ns1].append(ptr[ns1])] where
    the chosen index is not 0. *)
Definition push_tour (ptr : tensor1) (n : nat) (tours : list (list Z))
    : res (list (list Z)) :=
  foldM (λ ts ns1,
      p ← getitem ptr ns1;
      if decide (p ≠ 0) then
        tr ← getitem ts ns1;
        setitem ts ns1 (tr ++ [p])
      else Ok ts)
    tours (seq 0 n).

Definition agent_block (t a_n : nat) (s : state) : res state :=
  flags ← dict_get (decision_mask_dict s) a_n;
  m ← getitem (mask s) (a_n - 1);
  '(ptr, logp) ← select_action t a_n m flags;
  d ← getitem (dyn s) (a_n - 1);
  let '(constraint1, line_stop_tw, tw_mask') :=
    update_tw self d ptr (records s) a_n (tw_mask s) in
  '(d', constraint2) ←
    match update_fn self with
    | Some f =>
        tours ← dict_get (tour_idx_dict s) a_n;
        Ok (f d ptr constraint1 static up_station travel_time_G all_station
              tours line_stop_tw)
    | None => Ok (d, constraint1)
    end;
  ds ← broadcast a_n d' (<[(a_n - 1)%nat := d']> (dyn s));
  dl ← push_decisions a_n ptr d' (decision_list s);
  logps ← dict_get (tour_logp s) a_n;
  idxs ← dict_get (tour_idx s) a_n;
  tours ← dict_get (tour_idx_dict s) a_n;
  tours' ← push_tour ptr (length dl) tours;
  am ← getitem (agent_mask s) (a_n - 1);
  let '(m', am') :=
    match mask_fn self with
    | Some f => f m d' am ptr
    | None => (m, am)
    end in
  Ok {| dyn := ds; dynamic := dynamic s; records := constraint2;
        tw_mask := tw_mask';
        mask := <[(a_n - 1)%nat := m']> (mask s);
        agent_mask := <[(a_n - 1)%nat := am']> (agent_mask s);
        decision_list := dl;
        decision_mask_dict := decision_mask_dict s;
        tour_idx := <[a_n := idxs ++ [ptr]]> (tour_idx s);
        tour_logp := <[a_n := logps ++ [logp]]> (tour_logp s);
        tour_idx_dict := <[a_n := tours']> (tour_idx_dict s) |}.

(** [for a_n in decision_agent_id]: the agent's block when there is one,
    then the refresh of the agents after it (lines 1303 to 1398). *)
Definition agent_turn (t : nat) (s : state) (a_n : nat) : res state :=
  s1 ← (if decide (1 ≤ a_n ≤ 10)%nat then agent_block t a_n s else Ok s);
  foldM (λ s' ag_id, r ← refresh_mask ag_id s'; Ok r.1) s1
    (py_range (a_n + 1) (agent_number self)).

(** ** One tick (the body of [for _ in range(max_steps)]) *)

(** Lines 315 and 316: every agent's flags are reset to 0. *)
Definition reset_flags (d : gmap nat (list Z)) : gmap nat (list Z) :=
  foldl (λ d' a_id, <[a_id := replicate (batch_size static) 0]> d') d
    (py_range 1 (agent_number self)).

(** Lines 356 to 385: [update_od] on clones of the ten tensors and the
    records; its first result becomes the list [dynamic], whose first ten
    entries become [dynamic1] .. [dynamic10]. *)
Definition world_update (s : state) : res state :=
  let r := update_od self (dyn s) (records s) static up_station (tw_mask s) in
  ds ← mapM_res (getitem r.1) (seq 0 10);
  Ok (set_records (set_dyn (set_dynamic s r.1) ds) r.2).

(** Lines 389 to 392: [agent_mask1 + ... + agent_mask10]. *)
Definition mask_judge (s : state) : tensor2 :=
  match agent_mask s with
  | [] => []
  | am :: ams => foldl tensor2_add am ams
  end.

(** Lines 395 to 505: the refresh of every agent; an agent whose mask
    from [mask_start] has no non-zero entry leaves [decision_agent_id]. *)
Definition refresh_all (s : state) : res (state * list nat) :=
  foldM (λ (acc : state * list nat) ag_id,
      r ← refresh_mask ag_id acc.1;
      ids ← (if (r.2 : bool) then Ok acc.2 else list_remove ag_id acc.2);
      Ok (r.1, ids))
    (s, py_range 1 (agent_number self))
    (py_range 1 (agent_number self)).

(** Lines 1399 and 1400. *)
Definition sort_all (s : state) : state :=
  set_decision_list s (sort_queue <$> decision_list s).

(** How a tick ends: by [break], or with the agents that acted
    ([decision_agent_id]). *)
Inductive tick_result : Type :=
  | Break (s : state)
  | Next (s : state) (decision_agent_id : list nat).

Definition tick (t : nat) (s : state) : res tick_result :=
  let s0 := set_decision_mask_dict s (reset_flags (decision_mask_dict s)) in
  s1 ← cohort_extraction s0;
  s2 ← world_update s1;
  if negb (byte_any (mask_judge s2)) then Ok (Break s2)
  else
    r ← refresh_all s2;
    s3 ← foldM (agent_turn t) r.1 r.2;
    Ok (Next (sort_all s3) r.2).

(** ** The rollout *)

(** [for _ in range(max_steps)], from tick number [t].  Besides the final
    state the loop gives the log of the ticks that ran to their end: the
    agents that acted and the state the tick left. *)
Fixpoint run (n t : nat) (s : state) : res (list (list nat * state) * state) :=
  match n with
  | O => Ok ([], s)
  | S n' =>
      r ← tick t s;
      match r with
      | Break s' => Ok ([], s')
      | Next s' ids =>
          r' ← run n' (S t) s';
          Ok ((ids, s') :: r'.1, r'.2)
      end
  end.

(** The initial rows of [mask_k] ([0] and the columns from
    [len(up_station)] on closed) and of [agent_mask_k] (column [0]
    closed), for [n] columns. *)
Definition mask_row0 (n : nat) : tensor1 :=
  (λ j, if decide (j = 0 ∨ length up_station ≤ j)%nat then 0 else 1) <$> seq 0 n.
Definition agent_mask_row0 (n : nat) : tensor1 :=
  (λ j, if decide (j = 0)%nat then 0 else 1) <$> seq 0 n.

(** Lines 199 to 203: every agent in [range(1, agent_number)] enters
    every instance's queue at the time in row 7, column 0 of its tensor;
    the queues are sorted. *)
Definition initial_queue (ds : list tensor3) (ns : nat) : res (list entry) :=
  q ← mapM_res (λ a_idx,
         d ← getitem ds (a_idx - 1);
         inst ← getitem d ns;
         row ← getitem inst 7;
         time ← getitem row 0;
         Ok (time, a_idx))
       (py_range 1 (agent_number self));
  Ok (sort_queue q).

(** Lines 185 to 312: the state before the first tick.  Writing column 0
    of a mask fails on a tensor with no column. *)
Definition initial_state (ds : list tensor3) (rs : records_t) : res state :=
  let B := batch_size static in
  let S := sequence_size static in
  dl ← mapM_res (initial_queue ds) (seq 0 B);
  _ ← (if decide (S = 0)%nat then Raise IndexError else Ok ());
  _ ← (if decide (length all_station = 0)%nat then Raise IndexError else Ok ());
  let ids := py_range 1 (agent_number self) in
  Ok {| dyn := ds; dynamic := ds; records := rs;
        tw_mask := replicate B (replicate 3 (mask_row0 (length all_station)));
        mask := replicate 10 (replicate B (mask_row0 S));
        agent_mask := replicate 10 (replicate B (agent_mask_row0 S));
        decision_list := dl;
        decision_mask_dict := foldl (λ d a_id, <[a_id := replicate B 0]> d) ∅ ids;
        tour_idx := foldl (λ d a_id, <[a_id := []]> d) ∅ ids;
        tour_logp := foldl (λ d a_id, <[a_id := []]> d) ∅ ids;
        tour_idx_dict := foldl (λ d a_id, <[a_id := replicate B []]> d) ∅ ids |}.

(** Line 310. *)
Definition max_steps : nat :=
  match mask_fn self with
  | None => sequence_size static
  | Some _ => 1000%nat
  end.

(** [torch.cat(cols, dim=1)] of columns of [B] entries: row [i] collects
    entry [i] of every column; an empty list is refused. *)
Definition cat_dim1 (cols : list tensor1) : res tensor2 :=
  match cols with
  | [] => Raise RuntimeError
  | c :: _ =>
      mapM_res (λ i, mapM_res (λ col : tensor1, getitem col i) cols)
        (seq 0 (length c))
  end.

(** What [forward] returns. *)
Record rollout : Type := {
  r_tour_idx : gmap nat tensor2;
  r_tour_logp : gmap nat tensor2;
  r_records : records_t;
  r_dynamic : list tensor3;
}.

(** Lines 1401 to 1406; the dicts hold no key outside
    [range(1, agent_number)]. *)
Definition finish (s : state) : res rollout :=
  idx ← foldM (λ (d : gmap nat tensor2 * gmap nat tensor2) a_id0,
           cols ← dict_get (tour_idx s) a_id0;
           seqs ← cat_dim1 cols;
           cols' ← dict_get (tour_logp s) a_id0;
           seqs' ← cat_dim1 cols';
           Ok (<[a_id0 := seqs]> d.1, <[a_id0 := seqs']> d.2))
         (∅, ∅) (py_range 1 (agent_number self));
  Ok {| r_tour_idx := idx.1; r_tour_logp := idx.2;
        r_records := records s; r_dynamic := dyn s |}.

(** [forward] with the log of its ticks. *)
Definition forward_log (ds : list tensor3) (rs : records_t)
    : res (list (list nat * state) * rollout) :=
  s0 ← initial_state ds rs;
  r ← run max_steps 0 s0;
  out ← finish r.2;
  Ok (r.1, out).

(** [MA_CB_RP_Major.forward]; [ds] are [dynamic1] .. [dynamic10]. *)
Definition forward (ds : list tensor3) (rs : records_t) : res rollout :=
  r ← forward_log ds rs; Ok r.2.
End Model.


(** * Notions used in the statements *)

(** The entries of a queue that are scheduled at time [t], and the others. *)
Definition due (t : Z) (q : list entry) : list entry := filter (λ e, e.1 = t) q.
Definition not_due (t : Z) (q : list entry) : list entry := filter (λ e, e.1 ≠ t) q.

(** A queue in ascending order of scheduled time. *)
Definition queue_sorted (q : list entry) : Prop := Sorted (λ x y, x.1 ≤ y.1) q.

(** The scheduling flag of agent [a] for instance [i],
    [decision_mask_dict[a][i]]. *)
Definition flag_of (d : gmap nat (list Z)) (a i : nat) : option Z :=
  d !! a ≫= (λ fl, fl !! i).

(** What a state holds for instance [i]: its queue, every agent's flag for
    it and its part of every dynamic tensor, with the list [dynamic]. *)
Definition view (i : nat) (s : state)
    : option (list entry) * gmap nat (option Z) * list (option (list (list Z)))
      * list tensor3 :=
  (decision_list s !! i,
   (λ fl : list Z, fl !! i) <$> decision_mask_dict s,
   (λ d : tensor3, d !! i) <$> dyn s,
   dynamic s).

(** The number of ticks of a log in which agent [a] acted, that is, was in
    the tick's [decision_agent_id]. *)
Definition acted_ticks (a : nat) (lg : list (list nat * state)) : nat :=
  length (filter (λ e, a ∈ e.1) lg).

(** The number of ticks of a log in which the scheduling flag of agent [a]
    for instance [i] was 1. *)
Definition flagged_ticks (a i : nat) (lg : list (list nat * state)) : nat :=
  length (filter (λ e, flag_of (decision_mask_dict e.2) a i = Some 1) lg).

(** The lengths of the two recorded sequences of agent [a]. *)
Definition tour_lengths (s : state) (a : nat) : option nat * option nat :=
  (length <$> tour_idx s !! a, length <$> tour_logp s !! a).

(** The number of ticks of a log in which agent [a] acted and has a block
    of its own in the code (agents 1 to 10). *)
Definition block_ticks (a : nat) (lg : list (list nat * state)) : nat :=
  length (filter (λ e, a ∈ e.1 ∧ (1 ≤ a ≤ 10)%nat) lg).

(** Both lengths grown by [k]. *)
Definition grow (k : nat) (p : option nat * option nat) : option nat * option nat :=
  ((λ n, n + k)%nat <$> p.1, (λ n, n + k)%nat <$> p.2).

(** Row [r] of instance [i] in entry [k] of a list of rank-3 tensors. *)
Definition row_of (ds : list tensor3) (k i r : nat) : option (list Z) :=
  match ds !! k with
  | Some d => match d !! i with Some inst => inst !! r | None => None end
  | None => None
  end.

(** The two dictionaries of recorded sequences; they change in an agent's
    block only. *)
Definition tours (s : state) : gmap nat (list tensor1) * gmap nat (list tensor1) :=
  (tour_idx s, tour_logp s).

(** What neither the cohort extraction nor [update_od] touches. *)
Definition steady (s : state)
    : gmap nat (list tensor1) * gmap nat (list tensor1) * list tensor2
      * list tensor2 * tensor3 * gmap nat (list (list Z)) :=
  (tour_idx s, tour_logp s, mask s, agent_mask s, tw_mask s, tour_idx_dict s).

(** A mask whose entries are 0 or 1, and a mask that is all zero. *)
Definition is_01 (t : tensor2) : Prop := Forall (Forall (λ x, x = 0 ∨ x = 1)) t.
Definition all_zero (t : tensor2) : Prop := Forall (Forall (λ x, x = 0)) t.

(** Two rank-2 tensors of one shape. *)
Definition same_shape2 (a b : tensor2) : Prop :=
  Forall2 (λ r r' : list Z, length r = length r') a b.

(** What the cohort extraction needs of instance [i] with queue [q]: every
    queued agent has a flag for the instance; the entry of the list
    [dynamic] of the agent at the head has row 10 for the instance, and
    every dynamic tensor has a row 5 of that length for it. *)
Definition extraction_ready (i : nat) (q : list entry) (s : state) : Prop :=
  decision_list s !! i = Some q
  ∧ (∀ e, e ∈ q → ∃ fl, decision_mask_dict s !! e.2 = Some fl ∧ (i < length fl)%nat)
  ∧ match q with
    | [] => True
    | hd :: _ =>
        ∃ src inst row,
          getitem_pred (dynamic s) hd.2 = Ok src
          ∧ src !! i = Some inst ∧ inst !! 10%nat = Some row
          ∧ Forall (λ d : tensor3,
                ∃ di old, d !! i = Some di ∧ di !! 5%nat = Some old
                          ∧ length row = length old)
              (dyn s)
    end.

(** What holds of the state at the start of every tick of a rollout for
    [Agent_n]: the queues are sorted and the flags are those of the agents
    of [range(1, Agent_n)]. *)
Definition tick_invariant (Agent_n : Z) (s : state) : Prop :=
  Forall queue_sorted (decision_list s)
  ∧ ∀ a, is_Some (decision_mask_dict s !! a) → a ∈ py_range 1 Agent_n.

(** * Further notions *)

(** The entries that the recorded columns hold for instance [i], oldest
    first: row [i] of their concatenation along dimension 1. *)
Definition entries_of (i : nat) (cols : list tensor1) : list Z :=
  omap (λ c : tensor1, c !! i) cols.

(** Entry [c] of row [r] of instance [i] of a rank-3 tensor. *)
Definition entry_at (d : tensor3) (i r c : nat) : option Z :=
  match d !! i with
  | Some inst => match inst !! r with Some row => row !! c | None => None end
  | None => None
  end.

(** The time at which agent [a] enters the queue of instance [i]:
    [dynamic_a[i][7][0]]. *)
Definition start_time (ds : list tensor3) (a i : nat) : option Z :=
  match ds !! (a - 1)%nat with
  | Some d => entry_at d i 7 0
  | None => None
  end.

(** No agent is queued twice in any instance, and every queued agent is
    one of [range(1, Agent_n)]. *)
Definition agents_once (Agent_n : Z) (s : state) : Prop :=
  Forall (λ q : list entry,
      NoDup q.*2 ∧ ∀ a, a ∈ q.*2 → a ∈ py_range 1 Agent_n)
    (decision_list s).

(** Agent [a] is scheduled in instance [i]: its flag is there and is not 0. *)
Definition flagged (d : gmap nat (list Z)) (a i : nat) : Prop :=
  ∃ x, flag_of d a i = Some x ∧ x ≠ 0.

(** Every agent's route for every instance ([tour_idx_dict[a][i]]) is the
    sequence of the non-zero indices recorded for the instance so far. *)
Definition routes_follow (s : state) : Prop :=
  ∀ a cols routes i,
    tour_idx s !! a = Some cols → tour_idx_dict s !! a = Some routes →
    (i < length (decision_list s))%nat →
    routes !! i = Some (filter (λ p, p ≠ 0) (entries_of i cols)).

(** A mask in which every instance has a row with a first entry and a
    non-zero sum. *)
Definition rows_open (m : tensor2) : Prop :=
  Forall (λ row : tensor1, row ≠ [] ∧ row_sum row ≠ 0) m.

Section Notions.
Context {stop_info graph : Type}.
Variable self : @MA_CB_RP_Major stop_info graph.
Variable up_station : list Z.

(** What [mask_start] returns for agent [a] in state [s]. *)
Definition mask_start_of (s : state) (a : nat) : option (tensor2 * tensor2) :=
  m ← mask s !! (a - 1)%nat;
  d ← dyn s !! (a - 1)%nat;
  am ← agent_mask s !! (a - 1)%nat;
  Some (mask_start self m d up_station (tw_mask s) am).

(** Whether agent [a] stays in [decision_agent_id] on a tick whose refresh
    starts in state [s]: an agent with a block of its own stays when the
    mask that [mask_start] returns for it has a non-zero byte. *)
Definition stays (s : state) (a : nat) : bool :=
  if decide (1 ≤ a ≤ 10)%nat then
    match mask_start_of s a with
    | Some r => byte_any r.1
    | None => true
    end
  else true.
End Notions.

(** * A small scenario

    One or two instances, three stations (the depot and two boarding
    stations), tensors of eleven rows.  Agent [k] starts at time [k] in
    instance 0 and at time [10 - k] in instance 1; row 3 of its tensor
    holds [k], every other row its own number.  The networks always
    choose station 1, with log-probability -7.  [update_fn] moves the next
    decision time (row 10, column 0) on by 5 and adds 100 to row 2 where
    the chosen index is not 0; the other collaborators change nothing. *)

Definition demo_instance (k t7 t10 : Z) : list (list Z) :=
  (λ r, if decide (r = 7)%nat then [t7; 0; 0]
        else if decide (r = 10)%nat then [t10; 0; 0]
        else if decide (r = 3)%nat then [k; k; k]
        else replicate 3 (Z.of_nat r)) <$> seq 0 11.

Definition demo_dyns : list tensor3 :=
  (λ k, [demo_instance (Z.of_nat k) (Z.of_nat k) (Z.of_nat k);
         demo_instance (Z.of_nat k) (10 - Z.of_nat k) 0]) <$> seq 1 10.

Definition demo_update_fn (d : tensor3) (ptr : tensor1) : tensor3 :=
  zip_with (λ inst p,
      if decide (p = 0) then inst
      else imap (λ r row,
                   if decide (r = 10)%nat then
                     match row with x :: tl => (x + 5) :: tl | [] => [] end
                   else if decide (r = 2)%nat then (λ x, x + 100) <$> row
                   else row)
             inst)
    d ptr.

Definition keep_masks (m : tensor2) (d : tensor3) (up : list Z) (tw : tensor3)
    (am : tensor2) : tensor2 * tensor2 := (m, am).

(** A [mask_start] that retires the agent: its activity mask becomes zero. *)
Definition retire_agent (m : tensor2) (d : tensor3) (up : list Z) (tw : tensor3)
    (am : tensor2) : tensor2 * tensor2 := (m, map (map (λ _, 0)) am).

(** A [mask_start] that closes every station of instance 0. *)
Definition close_instance_0 (m : tensor2) (d : tensor3) (up : list Z) (tw : tensor3)
    (am : tensor2) : tensor2 * tensor2 :=
  (imap (λ i row, if decide (i = 0)%nat then map (λ _, 0) row else row) m, am).

Definition demo_self (Agent_n : Z) (train : bool)
    (ms : tensor2 → tensor3 → list Z → tensor3 → tensor2 → tensor2 * tensor2)
    : @MA_CB_RP_Major unit unit :=
  {| agent_number := Agent_n;
     update_fn := Some (λ d ptr c _ _ _ _ _ _, (demo_update_fn d ptr, c));
     mask_fn := None;
     mask_start := ms;
     update_tw := λ d ptr c a tw, (c, (), tw);
     update_od := λ ds c _ _ _, (ds, c);
     training := train |}.

Definition demo_net : oracle :=
  {| greedy := λ t a i, 1;
     sample := λ t a k i, 1;
     log_prob := λ t a i p, -7;
     draws := 3 |}.

Definition demo_static (B : nat) : static_tensor :=
  {| batch_size := B; input_size := 2; sequence_size := 3; static_data := [] |}.

Definition demo_up_station : list Z := [0; 1; 2].
Definition demo_all_station : list Z := [0; 1; 2].
Definition demo_records : records_t := ([], [], []).

(** The rollout of the scenario with its log. *)
Definition demo_forward_log (Agent_n : Z) (train : bool) ms (B : nat)
    : res (list (list nat * state) * rollout) :=
  forward_log (demo_self Agent_n train ms) demo_net (demo_static B) ()
    demo_up_station demo_all_station ((take B) <$> demo_dyns) demo_records.

(** A queue: agents 1 and 3 due at time 2 and agent 2 at time 5. *)
Definition demo_queue : list entry := [(2, 1%nat); (2, 3%nat); (5, 2%nat)].

(** A state at the head of a tick: one instance with that queue, all flags
    reset. *)
Definition demo_state : state :=
  {| dyn := (take 1) <$> demo_dyns;
     dynamic := (take 1) <$> demo_dyns;
     records := demo_records;
     tw_mask := [replicate 3 [0; 1; 1]];
     mask := replicate 10 [[0; 1; 1]];
     agent_mask := replicate 10 [[0; 1; 1]];
     decision_list := [demo_queue];
     decision_mask_dict := list_to_map [(1%nat, [0]); (2%nat, [0]); (3%nat, [0])];
     tour_idx := list_to_map [(1%nat, []); (2%nat, []); (3%nat, [])];
     tour_logp := list_to_map [(1%nat, []); (2%nat, []); (3%nat, [])];
     tour_idx_dict := list_to_map [(1%nat, [[]]); (2%nat, [[]]); (3%nat, [[]])] |}.

(** The same state after the cohort extraction: agents 1 and 3 flagged. *)
Definition demo_state_flagged : state :=
  set_decision_mask_dict
    (set_decision_list demo_state [[(5, 2%nat)]])
    (list_to_map [(1%nat, [1]); (2%nat, [0]); (3%nat, [1])]).

(** Torch layers that refuse every size that is not positive. *)
Definition strict_layers (static_size dynamic_size hidden_size num_layers : Z)
    : res unit :=
  if decide (0 < static_size ∧ 0 < dynamic_size ∧ 0 < hidden_size ∧ 0 < num_layers)
  then Ok () else Raise RuntimeError.

(** ** More of the scenario *)

(** The state of [demo_state] with every activity mask at zero. *)
Definition demo_state_idle : state :=
  set_agent_mask demo_state (replicate 10 [[0; 0; 0]]).

(** The state of [demo_state_flagged] with every station closed to
    agent 2. *)
Definition demo_state_closed_2 : state :=
  set_mask demo_state_flagged (<[1%nat := [[0; 0; 0]]]> (mask demo_state_flagged)).

(** Networks whose first draw is the depot, which the masks of the
    scenario close, and whose later draws are station 2. *)
Definition demo_net_retry : oracle :=
  {| greedy := λ t a i, 1;
     sample := λ t a k i, if decide (k = 0)%nat then 0 else 2;
     log_prob := λ t a i p, - p;
     draws := 3 |}.

(** The scenario in evaluation mode with [keep_masks]: its state before
    the first tick and its loop. *)
Definition demo_initial_state (Agent_n : Z) (B : nat) : res state :=
  initial_state (demo_self Agent_n false keep_masks) (demo_static B)
    demo_up_station demo_all_station ((take B) <$> demo_dyns) demo_records.

Definition demo_run (Agent_n : Z) (B n : nat) (s : state)
    : res (list (list nat * state) * state) :=
  run (demo_self Agent_n false keep_masks) demo_net (demo_static B) ()
    demo_up_station demo_all_station n 0 s.

(** A batch of one instance without a station column. *)
Definition demo_static_empty : static_tensor :=
  {| batch_size := 1; input_size := 2; sequence_size := 0; static_data := [] |}.
(** * Properties *)

(** ** The result monad *)

Lemma bind_Ok {A B : Type} (m : res A) (f : A → res B) (b : B) :
  (m ≫= f) = Ok b → ∃ a, m = Ok a ∧ f a = Ok b.
Proof. destruct m as [a|e]; simpl; [eauto|discriminate]. Qed.

(** Splits the hypotheses of the shape [x ← m; k = Ok b]. *)
Ltac inv_res :=
  repeat match goal with
    | H : Ok ?x = Ok ?y |- _ =>
        assert (x = y) by congruence; clear H; simplify_eq
    | H : Raise _ = Ok _ |- _ => discriminate H
    | H : (_ ≫= _) = Ok _ |- _ =>
        let a := fresh "a" in
        let Ha := fresh "Ha" in
        apply bind_Ok in H as (a & Ha & H); simpl in H
    end.

Lemma mapM_res_Forall2 {A B : Type} (f : A → res B) (l : list A) (l' : list B) :
  mapM_res f l = Ok l' ↔ Forall2 (λ x y, f x = Ok y) l l'.
Proof.
  revert l'. induction l as [|x l IH]; intros l'; simpl.
  - split; [intros [= <-]; constructor|by inversion 1].
  - split.
    + intros H. inv_res. constructor; [done|]. by apply IH.
    + inversion 1 as [|? y ? ys Hy Hys]; subst. rewrite Hy. simpl.
      apply IH in Hys. by rewrite Hys.
Qed.

Lemma mapM_res_length {A B : Type} (f : A → res B) l l' :
  mapM_res f l = Ok l' → length l' = length l.
Proof. rewrite mapM_res_Forall2. intros H. symmetry. eapply Forall2_length, H. Qed.

Lemma mapM_res_lookup {A B : Type} (f : A → res B) l l' i x :
  mapM_res f l = Ok l' → l !! i = Some x → ∃ y, l' !! i = Some y ∧ f x = Ok y.
Proof.
  rewrite mapM_res_Forall2. intros H Hx.
  destruct (Forall2_lookup_l _ _ _ _ _ H Hx) as (y & ? & ?). eauto.
Qed.

Lemma mapM_res_total {A B : Type} (f : A → res B) l :
  (∀ x, x ∈ l → ∃ y, f x = Ok y) → ∃ l', mapM_res f l = Ok l'.
Proof.
  induction l as [|x l IH]; intros H; simpl; [eauto|].
  destruct (H x) as [y Hy]; [left|]. rewrite Hy. simpl.
  destruct IH as [l' Hl']. { intros z Hz. apply H. by right. }
  rewrite Hl'. simpl. eauto.
Qed.

Lemma getitem_Ok {A : Type} (l : list A) i x : getitem l i = Ok x ↔ l !! i = Some x.
Proof. unfold getitem. destruct (l !! i); split; congruence. Qed.

Lemma dict_get_Ok {V : Type} (d : gmap nat V) k v : dict_get d k = Ok v ↔ d !! k = Some v.
Proof. unfold dict_get. destruct (d !! k); split; congruence. Qed.

Lemma setitem_Ok {A : Type} (l : list A) i x l' :
  setitem l i x = Ok l' ↔ (i < length l)%nat ∧ l' = <[i:=x]> l.
Proof. unfold setitem. case_decide; split; intros; destruct_and?; try congruence; try lia; split; congruence. Qed.

(** Turns the successful reads and writes among the hypotheses into lookups
    and inserts. *)
Ltac inv_items :=
  repeat match goal with
    | H : dict_get _ _ = Ok _ |- _ => apply dict_get_Ok in H
    | H : getitem _ _ = Ok _ |- _ => apply getitem_Ok in H
    | H : setitem _ _ _ = Ok _ |- _ =>
        let Hlt := fresh "Hlt" in apply setitem_Ok in H as [Hlt ->]
    end.

Lemma elem_of_py_range lo hi a : a ∈ py_range lo hi ↔ (lo ≤ a)%nat ∧ Z.of_nat a < hi.
Proof. unfold py_range. rewrite elem_of_seq. lia. Qed.

(** ** Depot fallback *)

Lemma depot_fallback_row_Ok row row' :
  depot_fallback_row row = Ok row' →
  row' = (if decide (row_sum row = 0) then 1 :: zeros (length row - 1) else row)
  ∧ length row' = length row.
Proof.
  unfold depot_fallback_row. case_decide as Hs.
  - destruct row as [|x tl]; [discriminate|]. intros [= <-]. simpl.
    rewrite Nat.sub_0_r. unfold zeros. by rewrite length_replicate.
  - by intros [= <-].
Qed.

Lemma depot_fallback_row_total row : row ≠ [] → ∃ row', depot_fallback_row row = Ok row'.
Proof.
  intros Hne. unfold depot_fallback_row. case_decide; [|eauto].
  destruct row; [done|eauto].
Qed.

Lemma depot_fallback_total (m : tensor2) :
  (∀ row, row ∈ m → row ≠ []) → ∃ m', depot_fallback m = Ok m'.
Proof.
  intros H. apply mapM_res_total. intros row Hrow.
  by apply depot_fallback_row_total, H.
Qed.

Lemma depot_fallback_lookup (m m' : tensor2) i row :
  depot_fallback m = Ok m' → m !! i = Some row →
  m' !! i = Some (if decide (row_sum row = 0) then 1 :: zeros (length row - 1) else row).
Proof.
  intros Hm Hrow.
  destruct (mapM_res_lookup _ _ _ _ _ Hm Hrow) as (row' & Hrow' & Hf).
  apply depot_fallback_row_Ok in Hf as [-> _]. done.
Qed.

Section Selection.
Context {stop_info graph : Type}.
Variable self : @MA_CB_RP_Major stop_info graph.
Variable net : oracle.
Variable static : static_tensor.
Variable up_station : list Z.

(** C1. In evaluation mode the recorded indices are the greedy indices
    multiplied by the scheduling flags, but the recorded log-probabilities
    are those of the greedy indices as they are: the flags do not enter
    them, so an instance whose flag is 0 keeps a log-probability that need
    not be zero. *)
Theorem select_action_eval_keeps_logp (t a_n : nat) (m : tensor2) (flags : list Z) :
  training self = false →
  select_action self net static t a_n m flags
  = Ok (zip_with Z.mul (greedy net t a_n <$> seq 0 (batch_size static)) flags,
        imap (log_prob net t a_n) (greedy net t a_n <$> seq 0 (batch_size static))).
Proof. intros Hev. unfold select_action. by rewrite Hev. Qed.

(** In training mode both are multiplied by the flags. *)
Lemma select_action_training_masked (t a_n : nat) (m : tensor2) (flags ptr logp : list Z) :
  training self = true →
  select_action self net static t a_n m flags = Ok (ptr, logp) →
  ∀ i, flags !! i = Some 0 → (i < batch_size static)%nat →
    ptr !! i = Some 0 ∧ logp !! i = Some 0.
Proof.
  intros Htr. unfold select_action. rewrite Htr. intros H. inv_res.
  intros i Hi Hlt.
  assert (Hlen : length a = batch_size static).
  { clear -Ha. revert Ha. generalize 0%nat at 2. induction (draws net) as [|n IH];
      intros k; simpl; [discriminate|]. intros H. inv_res.
    destruct (byte_all1 a0); [|eauto]. inv_res.
    by rewrite length_fmap, length_seq. }
  destruct (lookup_lt_is_Some_2 a i) as [p Hpi]; [lia|].
  rewrite !lookup_zip_with, Hi, Hpi. simpl.
  rewrite list_lookup_imap, Hpi. simpl. split; f_equal; lia.
Qed.

(** In both modes the recorded index of an instance whose flag is 0 is 0. *)
Lemma select_action_index_masked (t a_n : nat) (m : tensor2) (flags ptr logp : list Z) :
  select_action self net static t a_n m flags = Ok (ptr, logp) →
  ∀ i p, flags !! i = Some 0 → ptr !! i = Some p → p = 0.
Proof.
  unfold select_action. intros H i p Hi.
  destruct (training self); inv_res;
    rewrite lookup_zip_with, Hi; intros Hp;
    apply bind_Some in Hp as (x & _ & Hp); simpl in Hp; injection Hp; lia.
Qed.

(** C7. The refresh of an agent's mask returns, and every row of what
    [mask_start] gave that sums to zero is [1] at index 0 and [0]
    elsewhere afterwards, every other row is as [mask_start] gave it.
    (A mask without columns has no index 0 to set: its rows are not
    empty.) *)
Theorem refresh_mask_depot_fallback (ag_id : nat) (s : state)
    (m : tensor2) (d : tensor3) (am : tensor2) :
  (1 ≤ ag_id ≤ 10)%nat →
  mask s !! (ag_id - 1)%nat = Some m →
  dyn s !! (ag_id - 1)%nat = Some d →
  agent_mask s !! (ag_id - 1)%nat = Some am →
  Forall (λ row, row ≠ []) (mask_start self m d up_station (tw_mask s) am).1 →
  ∃ s' alive m',
    refresh_mask self up_station ag_id s = Ok (s', alive)
    ∧ mask s' !! (ag_id - 1)%nat = Some m'
    ∧ length m' = length (mask_start self m d up_station (tw_mask s) am).1
    ∧ ∀ i row, (mask_start self m d up_station (tw_mask s) am).1 !! i = Some row →
        m' !! i = Some (if decide (row_sum row = 0)
                        then 1 :: zeros (length row - 1) else row).
Proof.
  intros Hid Hm Hd Ham Hne. rewrite Forall_forall in Hne.
  destruct (depot_fallback_total _ Hne) as [m' Hm'].
  unfold refresh_mask. rewrite decide_True by done.
  apply getitem_Ok in Hm as Hgm. apply getitem_Ok in Hd as Hgd.
  apply getitem_Ok in Ham as Hga. rewrite Hgm, Hgd, Hga. simpl.
  rewrite Hm'. simpl. eexists _, _, m'. split; [done|]. simpl.
  split; [|split].
  - apply list_lookup_insert_eq. by eapply lookup_lt_Some.
  - by eapply mapM_res_length.
  - intros i row Hrow. by eapply depot_fallback_lookup.
Qed.
End Selection.

(** ** Construction *)

Section Construction.
Context {stop_info graph : Type}.
Variable layers : Z → Z → Z → Z → res unit.

(** C9 as the constructor has it. A [dynamic_size] below 1 raises
    [ValueError] before anything else is initialised.  [Agent_n] is not
    checked: when [dynamic_size] is positive and the torch layers accept
    the sizes, construction returns the object with [agent_number] set to
    [Agent_n], whatever its sign. *)
Theorem init_validation (static_size dynamic_size hidden_size Agent_n num_layers : Z)
    update_fn mask_fn mask_start update_tw update_od :
  (dynamic_size < 1 →
     @__init__ stop_info graph layers static_size dynamic_size hidden_size Agent_n
       update_fn mask_fn mask_start update_tw update_od num_layers
     = Raise ValueError)
  ∧ (1 ≤ dynamic_size →
     layers static_size dynamic_size hidden_size num_layers = Ok () →
     ∃ self, @__init__ stop_info graph layers static_size dynamic_size hidden_size Agent_n
               update_fn mask_fn mask_start update_tw update_od num_layers
             = Ok self
             ∧ agent_number self = Agent_n).
Proof.
  unfold __init__. split.
  - intros H. by rewrite decide_True.
  - intros H Hl. rewrite decide_False by lia. rewrite Hl. simpl. eauto.
Qed.
End Construction.

(** ** Cohort extraction *)

Lemma list_remove_first `{EqDecision A} (x : A) (pre post : list A) :
  x ∉ pre → list_remove x (pre ++ x :: post) = Ok (pre ++ post).
Proof.
  induction pre as [|y pre IH]; intros Hn; simpl.
  - by rewrite decide_True.
  - rewrite decide_False. 2:{ intros ->. apply Hn. left. }
    rewrite IH; [done|]. intros ?. apply Hn. by right.
Qed.

Lemma flag_and_remove_Ok ns0 e s s' :
  flag_and_remove ns0 e s = Ok s' →
  ∃ fl q q',
    decision_mask_dict s !! e.2 = Some fl ∧ (ns0 < length fl)%nat
    ∧ decision_list s !! ns0 = Some q ∧ list_remove e q = Ok q'
    ∧ s' = set_decision_list
             (set_decision_mask_dict s (<[e.2 := <[ns0:=1]> fl]> (decision_mask_dict s)))
             (<[ns0 := q']> (decision_list s)).
Proof.
  unfold flag_and_remove, flag_agent. intros H. inv_res. inv_items.
  eauto 10.
Qed.

Lemma due_cons_eq t e q : e.1 = t → due t (e :: q) = e :: due t q.
Proof. intros. unfold due. by rewrite filter_cons_True. Qed.
Lemma due_cons_ne t e q : e.1 ≠ t → due t (e :: q) = due t q.
Proof. intros. unfold due. by rewrite filter_cons_False. Qed.
Lemma not_due_cons_eq t e q : e.1 = t → not_due t (e :: q) = not_due t q.
Proof. intros. unfold not_due. rewrite filter_cons_False; [done|]. by intros []. Qed.
Lemma not_due_cons_ne t e q : e.1 ≠ t → not_due t (e :: q) = e :: not_due t q.
Proof. intros. unfold not_due. by rewrite filter_cons_True. Qed.

Lemma flag_step (a a0 i : nat) (A : list nat) (fl : list Z) (d : gmap nat (list Z)) :
  d !! a0 = Some fl →
  (λ fl, if decide (a ∈ A) then <[i:=1]> fl else fl) <$> (<[a0 := <[i:=1]> fl]> d !! a)
  = (λ fl, if decide (a ∈ a0 :: A) then <[i:=1]> fl else fl) <$> (d !! a).
Proof.
  intros Hfl. destruct (decide (a = a0)) as [->|Hne].
  - rewrite lookup_insert_eq, Hfl. simpl. f_equal.
    rewrite (decide_True (P := a0 ∈ a0 :: A)) by left.
    destruct (decide (a0 ∈ A)); [by rewrite list_insert_insert_eq|done].
  - rewrite lookup_insert_ne by done. destruct (d !! a); [|done]. simpl. f_equal.
    destruct (decide (a ∈ A)) as [Hin|Hin], (decide (a ∈ a0 :: A)) as [Hin'|Hin'];
      try done.
    + exfalso. apply Hin'. by right.
    + exfalso. apply elem_of_cons in Hin' as [?|?]; done.
Qed.

Lemma flag_step_length (a a0 i : nat) (fl fl' : list Z) (d : gmap nat (list Z)) :
  d !! a0 = Some fl → (i < length fl)%nat →
  <[a0 := <[i:=1]> fl]> d !! a = Some fl' → (i < length fl')%nat →
  ∃ fl0, d !! a = Some fl0 ∧ (i < length fl0)%nat.
Proof.
  intros Hfl Hlt. destruct (decide (a = a0)) as [->|Hne].
  - rewrite lookup_insert_eq. intros [= <-]. rewrite length_insert. eauto.
  - rewrite lookup_insert_ne by done. eauto.
Qed.

(** The loop over the ties: with [pre] the entries already passed, none of
    them due at [t]. *)
Lemma tie_loop ns0 t tl : ∀ pre s s',
  foldM (λ s' e, if decide (e.1 = t) then flag_and_remove ns0 e s' else Ok s') s tl = Ok s' →
  decision_list s !! ns0 = Some (pre ++ tl) →
  (∀ e, e ∈ pre → e.1 ≠ t) →
  decision_list s' = <[ns0 := pre ++ not_due t tl]> (decision_list s)
  ∧ (∀ a, decision_mask_dict s' !! a
          = (λ fl, if decide (a ∈ (due t tl).*2) then <[ns0:=1]> fl else fl)
              <$> decision_mask_dict s !! a)
  ∧ (∀ a, a ∈ (due t tl).*2 →
          ∃ fl, decision_mask_dict s !! a = Some fl ∧ (ns0 < length fl)%nat)
  ∧ dyn s' = dyn s ∧ dynamic s' = dynamic s.
Proof.
  induction tl as [|e tl IH]; intros pre s s' Hf Hq Hpre; simpl in Hf.
  - inv_res. rewrite app_nil_r in *. split; [by rewrite list_insert_id|].
    split; [|split; [|done]].
    + intros a. unfold due. simpl. by destruct (decision_mask_dict s' !! a).
    + intros a. unfold due. simpl. by intros ?%elem_of_nil.
  - inv_res. case_decide as Het.
    + apply flag_and_remove_Ok in Ha as (fl & q & q' & Hfl & Hlt & Hq' & Hrm & ->).
      rewrite Hq in Hq'. injection Hq' as <-.
      rewrite list_remove_first in Hrm. 2:{ intros Hin. by apply Hpre in Hin. }
      injection Hrm as <-.
      apply IH with (pre := pre) in Hf as (Hdl & Hfl' & Hlen & Hd & Hdy); simpl.
      2:{ apply list_lookup_insert_eq. by eapply lookup_lt_Some. }
      2:{ done. }
      simpl in *. rewrite list_insert_insert_eq in Hdl.
      rewrite not_due_cons_eq, due_cons_eq by done.
      split; [done|]. split; [|split; [|done]].
      * intros a. rewrite Hfl', fmap_cons. by apply flag_step.
      * intros a. rewrite fmap_cons. intros [->|Hin]%elem_of_cons; [eauto|].
        destruct (Hlen a Hin) as (fl' & Hfl'' & Hlt').
        by eapply flag_step_length.
    + inv_res.
      apply IH with (pre := pre ++ [e]) in Hf as (Hdl & Hfl' & Hlen & Hd & Hdy).
      2:{ by rewrite <-app_assoc. }
      2:{ intros e' [Hin| ->%list_elem_of_singleton]%elem_of_app; [by apply Hpre|done]. }
      rewrite <-app_assoc in Hdl. simpl in Hdl.
      rewrite not_due_cons_ne, due_cons_ne by done. done.
Qed.

Lemma extract_instance_Ok i hd tl s s' :
  extract_instance i (hd :: tl) s = Ok s' →
  decision_list s !! i = Some (hd :: tl) →
  decision_list s' = <[i := not_due hd.1 (hd :: tl)]> (decision_list s)
  ∧ (∀ a, decision_mask_dict s' !! a
          = (λ fl, if decide (a ∈ (due hd.1 (hd :: tl)).*2) then <[i:=1]> fl else fl)
              <$> decision_mask_dict s !! a)
  ∧ (∀ a, a ∈ (due hd.1 (hd :: tl)).*2 →
          ∃ fl, decision_mask_dict s !! a = Some fl ∧ (i < length fl)%nat)
  ∧ (∃ src inst row,
        getitem_pred (dynamic s) hd.2 = Ok src ∧ src !! i = Some inst
        ∧ inst !! 10%nat = Some row
        ∧ mapM_res (λ t, set_row t i 5 row) (dyn s) = Ok (dyn s'))
  ∧ dynamic s' = dynamic s.
Proof.
  unfold extract_instance. intros H Hq. inv_res.
  apply flag_and_remove_Ok in Ha as (fl & q & q' & Hfl & Hlt & Hq' & Hrm & ->).
  rewrite Hq in Hq'. injection Hq' as <-. simpl in Hrm.
  rewrite decide_True in Hrm by done. injection Hrm as <-. simpl in *.
  apply tie_loop with (pre := []) in H as (Hdl & Hfl' & Hlen & Hd & Hdy); simpl.
  2:{ apply list_lookup_insert_eq. by eapply lookup_lt_Some. }
  2:{ by intros ? ?%elem_of_nil. }
  simpl in *. rewrite list_insert_insert_eq in Hdl.
  rewrite not_due_cons_eq, due_cons_eq by done.
  split; [done|]. split; [|split; [|split; [|done]]].
  - intros a. rewrite Hfl', fmap_cons. by apply flag_step.
  - intros a. rewrite fmap_cons. intros [->|Hin]%elem_of_cons; [eauto|].
    destruct (Hlen a Hin) as (fl' & Hfl'' & Hlt').
    by eapply flag_step_length.
  - inv_items. rewrite Hd. eauto 10.
Qed.

(** *** Instances do not interfere *)

Lemma foldM_zip_seq_at {A St V : Type} (f : nat → A → St → res St) (v : St → V) (i : nat) :
  (∀ j x s s', j ≠ i → f j x s = Ok s' → v s' = v s) →
  ∀ l k s s',
    foldM (λ s p, f p.1 p.2 s) s (zip (seq k (length l)) l) = Ok s' →
    ((k ≤ i)%nat → ∀ x, l !! (i - k)%nat = Some x →
       ∃ sa sb, v sa = v s ∧ f i x sa = Ok sb ∧ v s' = v sb)
    ∧ ((i < k ∨ k + length l ≤ i)%nat → v s' = v s).
Proof.
  intros Hframe. induction l as [|y l IH]; intros k s s' Hf; simpl in Hf.
  - inv_res. split; [by intros _ x ?|done].
  - inv_res. destruct (IH _ _ _ Hf) as [IH1 IH2]. split.
    + intros Hk x Hx. destruct (decide (i = k)) as [->|Hne].
      * rewrite Nat.sub_diag in Hx. injection Hx as ->.
        exists s, a. split; [done|]. split; [done|]. apply IH2. lia.
      * replace (i - k)%nat with (S (i - S k))%nat in Hx by lia. simpl in Hx.
        destruct IH1 with (x := x) as (sa & sb & Hsa & Hstep & Hsb); [lia|done|].
        exists sa, sb. split; [|done]. rewrite Hsa. eapply Hframe; [|done]. lia.
    + intros Hout. simpl in Hout. rewrite IH2 by lia. eapply Hframe; [|done]. lia.
Qed.

Lemma view_dynamic i s s' : view i s = view i s' → dynamic s = dynamic s'.
Proof. unfold view. by intros [= _ _ _ ?]. Qed.

Lemma view_queue i s s' :
  view i s = view i s' → decision_list s !! i = decision_list s' !! i.
Proof. unfold view. by intros [= ? _ _ _]. Qed.

Lemma view_flag_of i s s' a :
  view i s = view i s' →
  flag_of (decision_mask_dict s) a i = flag_of (decision_mask_dict s') a i.
Proof.
  unfold view, flag_of. intros [= _ Hfl _ _].
  apply (f_equal (λ m, m !! a)) in Hfl. rewrite !lookup_fmap in Hfl.
  destruct (decision_mask_dict s !! a), (decision_mask_dict s' !! a);
    simpl in *; congruence.
Qed.

Lemma view_dyn i s s' k dk inst :
  view i s = view i s' → dyn s !! k = Some dk → dk !! i = Some inst →
  ∃ dk', dyn s' !! k = Some dk' ∧ dk' !! i = Some inst.
Proof.
  unfold view. intros [= _ _ Hd _] Hk Hi.
  apply (f_equal (λ l, l !! k)) in Hd. rewrite !list_lookup_fmap, Hk in Hd.
  destruct (dyn s' !! k) as [dk'|]; [|done]. simpl in Hd. exists dk'.
  split; [done|]. congruence.
Qed.

Lemma flag_and_remove_view i j e s s' :
  j ≠ i → flag_and_remove j e s = Ok s' → view i s' = view i s.
Proof.
  intros Hne (fl & q & q' & Hfl & Hlt & Hq & Hrm & ->)%flag_and_remove_Ok.
  unfold view. simpl. rewrite list_lookup_insert_ne by done.
  rewrite fmap_insert, list_lookup_insert_ne by done.
  rewrite insert_id; [done|]. by rewrite lookup_fmap, Hfl.
Qed.

Lemma tie_loop_view i j t tl : ∀ s s',
  j ≠ i →
  foldM (λ s' e, if decide (e.1 = t) then flag_and_remove j e s' else Ok s') s tl = Ok s' →
  view i s' = view i s.
Proof.
  induction tl as [|e tl IH]; intros s s' Hne Hf; simpl in Hf; inv_res; [done|].
  rewrite (IH _ _ Hne Hf). case_decide; inv_res; [|done].
  by eapply flag_and_remove_view.
Qed.

Lemma set_row_Ok t j r row t' :
  set_row t j r row = Ok t' →
  ∃ inst old row',
    t !! j = Some inst ∧ inst !! r = Some old
    ∧ expand_list (length old) row = Ok row'
    ∧ t' = <[j := <[r := row']> inst]> t.
Proof. unfold set_row. intros H. inv_res. inv_items. eauto 10. Qed.

Lemma set_rows_view i j r row (ds ds' : list tensor3) :
  j ≠ i → mapM_res (λ t, set_row t j r row) ds = Ok ds' →
  (λ d : tensor3, d !! i) <$> ds' = (λ d : tensor3, d !! i) <$> ds.
Proof.
  intros Hne. rewrite mapM_res_Forall2. induction 1 as [|t t' ds ds' Ht _ IH]; [done|].
  rewrite !fmap_cons, IH. f_equal.
  apply set_row_Ok in Ht as (inst & old & row' & _ & _ & _ & ->).
  by rewrite list_lookup_insert_ne.
Qed.

Lemma extract_instance_view i j q s s' :
  j ≠ i → extract_instance j q s = Ok s' → view i s' = view i s.
Proof.
  intros Hne. unfold extract_instance. destruct q as [|hd tl]; intros H; inv_res; [done|].
  erewrite tie_loop_view by done.
  apply flag_and_remove_view with (i := i) in Ha; [|done].
  rewrite <-Ha. unfold view. simpl. by erewrite set_rows_view.
Qed.

Lemma cohort_extraction_at i s s' q :
  cohort_extraction s = Ok s' → decision_list s !! i = Some q →
  ∃ sa sb, view i sa = view i s ∧ extract_instance i q sa = Ok sb
           ∧ view i s' = view i sb.
Proof.
  unfold cohort_extraction. intros H Hq.
  eapply (foldM_zip_seq_at (λ j x s, extract_instance j x s) (view i) i) in H as [H _].
  - apply H; [lia|]. by rewrite Nat.sub_0_r.
  - intros j x s0 s0' Hne Hx. by eapply extract_instance_view.
Qed.

Lemma cohort_extraction_not_at i s s' :
  cohort_extraction s = Ok s' → decision_list s !! i = None → view i s' = view i s.
Proof.
  unfold cohort_extraction. intros H Hq.
  eapply (foldM_zip_seq_at (λ j x s, extract_instance j x s) (view i) i) in H as [_ H].
  - apply H. apply lookup_ge_None in Hq. lia.
  - intros j x s0 s0' Hne Hx. by eapply extract_instance_view.
Qed.

Lemma cohort_extraction_dynamic s s' :
  cohort_extraction s = Ok s' → dynamic s' = dynamic s.
Proof.
  intros H. destruct (decision_list s !! 0%nat) as [q|] eqn:Hq.
  - destruct (cohort_extraction_at 0 _ _ _ H Hq) as (sa & sb & Ha & Hstep & Hb).
    rewrite (view_dynamic _ _ _ Hb), <-(view_dynamic _ _ _ Ha).
    destruct q as [|hd tl]; simpl in Hstep; [by injection Hstep as ->|].
    apply extract_instance_Ok in Hstep as (_ & _ & _ & _ & ?); [done|].
    by rewrite (view_queue _ _ _ Ha).
  - apply (cohort_extraction_not_at 0) in H; [|done]. by apply view_dynamic in H.
Qed.

(** *** The cohort extraction returns *)

Lemma flag_and_remove_total ns0 e s fl pre post :
  decision_mask_dict s !! e.2 = Some fl → (ns0 < length fl)%nat →
  decision_list s !! ns0 = Some (pre ++ e :: post) → e ∉ pre →
  flag_and_remove ns0 e s
  = Ok (set_decision_list
          (set_decision_mask_dict s (<[e.2 := <[ns0:=1]> fl]> (decision_mask_dict s)))
          (<[ns0 := pre ++ post]> (decision_list s))).
Proof.
  intros Hfl Hlt Hq Hpre. unfold flag_and_remove, flag_agent, dict_get, getitem, setitem.
  rewrite Hfl. simpl. rewrite decide_True by done. simpl. rewrite Hq. simpl.
  rewrite list_remove_first by done. simpl.
  rewrite decide_True; [done|]. by eapply lookup_lt_Some.
Qed.

Lemma tie_loop_total ns0 t tl : ∀ pre s,
  decision_list s !! ns0 = Some (pre ++ tl) →
  (∀ e, e ∈ pre → e.1 ≠ t) →
  (∀ e, e ∈ tl → ∃ fl, decision_mask_dict s !! e.2 = Some fl ∧ (ns0 < length fl)%nat) →
  ∃ s', foldM (λ s' e, if decide (e.1 = t) then flag_and_remove ns0 e s' else Ok s')
          s tl = Ok s'.
Proof.
  induction tl as [|e tl IH]; intros pre s Hq Hpre Hfl; simpl; [eauto|].
  case_decide as Het.
  - destruct (Hfl e) as (fl & Hf & Hlt); [left|].
    rewrite (flag_and_remove_total _ _ _ fl pre tl) by (try done; intros ?%Hpre; done).
    simpl. apply (IH pre).
    + simpl. apply list_lookup_insert_eq. by eapply lookup_lt_Some.
    + done.
    + intros e' He'. simpl. destruct (Hfl e') as (fl' & Hf' & Hlt'); [by right|].
      destruct (decide (e'.2 = e.2)) as [Heq|Hne].
      * rewrite Heq, lookup_insert_eq. eexists. split; [done|].
        rewrite length_insert. congruence.
      * rewrite lookup_insert_ne by done. eauto.
  - simpl. apply (IH (pre ++ [e])).
    + by rewrite <-app_assoc.
    + intros e' [?| ->%list_elem_of_singleton]%elem_of_app; [by apply Hpre|done].
    + intros e' He'. apply Hfl. by right.
Qed.

Lemma extract_instance_total i q s :
  extraction_ready i q s → ∃ s', extract_instance i q s = Ok s'.
Proof.
  intros (Hq & Hfl & Hhd). unfold extract_instance. destruct q as [|hd tl]; [eauto|].
  destruct (Hfl hd) as (fl & Hf & Hlt); [left|].
  rewrite (flag_and_remove_total _ _ _ fl [] tl) by (try done; by intros ?%elem_of_nil).
  simpl. destruct Hhd as (src & inst & row & Hsrc & Hinst & Hrow & Hall).
  apply getitem_Ok in Hinst as Hginst. apply getitem_Ok in Hrow as Hgrow.
  rewrite Hsrc. simpl. rewrite Hginst. simpl. rewrite Hgrow. simpl.
  destruct (mapM_res_total (λ t, set_row t i 5 row) (dyn s)) as [ds Hds].
  { intros d Hd. rewrite Forall_forall in Hall.
    destruct (Hall d Hd) as (di & old & Hdi & Hold & Hlen).
    unfold set_row, getitem, setitem, expand_list. rewrite Hdi. simpl. rewrite Hold. simpl.
    rewrite decide_True by done. simpl.
    rewrite decide_True by (by eapply lookup_lt_Some). simpl.
    rewrite decide_True by (by eapply lookup_lt_Some). eauto. }
  rewrite Hds. simpl. apply (tie_loop_total _ _ _ []).
  - simpl. apply list_lookup_insert_eq. by eapply lookup_lt_Some.
  - by intros ? ?%elem_of_nil.
  - intros e He. simpl. destruct (Hfl e) as (fl' & Hf' & Hlt'); [by right|].
    destruct (decide (e.2 = hd.2)) as [Heq|Hne].
    + rewrite Heq, lookup_insert_eq. eexists. split; [done|].
      rewrite length_insert. congruence.
    + rewrite lookup_insert_ne by done. eauto.
Qed.

Lemma extraction_ready_view i q s s' :
  view i s' = view i s → extraction_ready i q s → extraction_ready i q s'.
Proof.
  intros Hv (Hq & Hfl & Hhd). split; [|split].
  - by rewrite (view_queue _ _ _ Hv).
  - intros e He. destruct (Hfl e He) as (fl & Hf & Hlt).
    pose proof (view_flag_of _ _ _ e.2 Hv) as Hsame. unfold flag_of in Hsame.
    rewrite Hf in Hsame. simpl in Hsame.
    destruct (lookup_lt_is_Some_2 fl i Hlt) as [x Hx]. rewrite Hx in Hsame.
    destruct (decision_mask_dict s' !! e.2) as [fl'|]; [|done].
    exists fl'. split; [done|]. simpl in Hsame. by eapply lookup_lt_Some.
  - destruct q as [|hd tl]; [done|].
    destruct Hhd as (src & inst & row & Hsrc & Hinst & Hrow & Hall).
    exists src, inst, row. rewrite (view_dynamic _ _ _ Hv). repeat split; try done.
    apply Forall_forall. intros d' Hd'.
    apply list_elem_of_lookup in Hd' as [k Hk].
    assert (∃ d, dyn s !! k = Some d ∧ d !! i = d' !! i) as (d & Hd & Hsame).
    { unfold view in Hv. injection Hv as _ _ Hv _.
      apply (f_equal (λ l, l !! k)) in Hv. rewrite !list_lookup_fmap, Hk in Hv.
      destruct (dyn s !! k) as [d|]; [|done]. exists d. simpl in Hv. split; congruence. }
    rewrite Forall_forall in Hall.
    destruct (Hall d) as (di & old & Hdi & Hold & Hlen).
    { apply list_elem_of_lookup. eauto. }
    exists di, old. repeat split; try done. congruence.
Qed.

Lemma foldM_zip_seq_total {A St : Type} (f : nat → A → St → res St)
    (ready : nat → A → St → Prop) :
  (∀ j x s, ready j x s → ∃ s', f j x s = Ok s') →
  (∀ i j x y s s', i ≠ j → f j x s = Ok s' → ready i y s → ready i y s') →
  ∀ l k s,
    (∀ i x, l !! i = Some x → ready (k + i)%nat x s) →
    ∃ s', foldM (λ s p, f p.1 p.2 s) s (zip (seq k (length l)) l) = Ok s'.
Proof.
  intros Hstep Hkeep. induction l as [|y l IH]; intros k s Hready; simpl; [eauto|].
  destruct (Hstep k y s) as [s1 Hs1].
  { specialize (Hready 0%nat y eq_refl). by rewrite Nat.add_0_r in Hready. }
  rewrite Hs1. simpl. apply IH. intros i x Hx.
  replace (S k + i)%nat with (k + S i)%nat by lia.
  eapply Hkeep; [|exact Hs1|by apply Hready]. lia.
Qed.

(** The cohort extraction returns when every instance is ready for it. *)
Lemma cohort_extraction_total s :
  (∀ i q, decision_list s !! i = Some q → extraction_ready i q s) →
  ∃ s', cohort_extraction s = Ok s'.
Proof.
  intros Hready. unfold cohort_extraction.
  apply (foldM_zip_seq_total (λ j x s, extract_instance j x s) extraction_ready).
  - intros j x s0. apply extract_instance_total.
  - intros i j x y s0 s0' Hne Hx. apply extraction_ready_view.
    by eapply extract_instance_view.
  - intros i x Hx. simpl. by apply Hready.
Qed.

Lemma sorted_head_minimum (hd : entry) (tl : list entry) :
  queue_sorted (hd :: tl) → ∀ e, e ∈ hd :: tl → hd.1 ≤ e.1.
Proof.
  intros Hs. apply Sorted_StronglySorted in Hs.
  2:{ intros x y z ? ?. lia. }
  apply StronglySorted_cons in Hs as [Hall _].
  rewrite Forall_forall in Hall.
  intros e [->|Hin]%elem_of_cons; [lia|by apply Hall].
Qed.

Lemma due_not_due_length t q :
  length (due t q) = (length q - length (not_due t q))%nat.
Proof.
  pose proof (filter_app_complement (λ e : entry, e.1 = t) q) as Hp.
  apply Permutation_length in Hp. rewrite length_app in Hp.
  unfold due, not_due. lia.
Qed.

(** C5. For an instance whose queue is not empty and is in ascending order
    of scheduled time, and whose flags are reset: the cohort extraction
    returns when every instance is ready for it, and whenever it returns it
    leaves in the instance's live queue the entries not scheduled at the
    minimum time and has flagged the agents of the entries scheduled at it,
    and those only; the number of entries taken out is the number of
    entries scheduled at the minimum, one per agent when no agent is queued
    twice. *)
Theorem cohort_is_due_at_minimum (s : state) (i : nat) (q : list entry) :
  decision_list s !! i = Some q →
  q ≠ [] →
  queue_sorted q →
  map_Forall (λ _ fl, fl !! i ≠ Some 1) (decision_mask_dict s) →
  ((∀ j qj, decision_list s !! j = Some qj → extraction_ready j qj s) →
   ∃ s', cohort_extraction s = Ok s')
  ∧ ∀ s', cohort_extraction s = Ok s' →
      ∃ tmin,
        tmin ∈ q.*1 ∧ (∀ e, e ∈ q → tmin ≤ e.1)
        ∧ decision_list s' !! i = Some (not_due tmin q)
        ∧ (∀ a, flag_of (decision_mask_dict s') a i = Some 1 ↔ a ∈ (due tmin q).*2)
        ∧ (length q - length (not_due tmin q))%nat = length (due tmin q)
        ∧ (NoDup q.*2 → NoDup (due tmin q).*2).
Proof.
  intros Hq Hne Hsorted Hreset. split; [apply cohort_extraction_total|].
  intros s' Hx.
  destruct q as [|hd tl]; [done|]. exists hd.1.
  destruct (cohort_extraction_at _ _ _ _ Hx Hq) as (sa & sb & Ha & Hstep & Hb).
  apply extract_instance_Ok in Hstep as (Hdl & Hfl & Hlen & _ & _).
  2:{ by rewrite (view_queue _ _ _ Ha). }
  split; [rewrite fmap_cons; left|].
  split; [by apply sorted_head_minimum|].
  split; [|split; [|split]].
  - rewrite (view_queue _ _ _ Hb), Hdl. apply list_lookup_insert_eq.
    eapply lookup_lt_Some. by rewrite (view_queue _ _ _ Ha).
  - intros a. rewrite (view_flag_of _ _ _ a Hb). unfold flag_of at 1. rewrite Hfl.
    split.
    + destruct (decide (a ∈ (due hd.1 (hd :: tl)).*2)) as [|Hnin]; [done|].
      intros Hone. exfalso.
      pose proof (view_flag_of _ _ _ a Ha) as Hsame. unfold flag_of in Hsame.
      destruct (decision_mask_dict sa !! a) as [fl|] eqn:Hfa; [|done].
      destruct (decision_mask_dict s !! a) as [fl0|] eqn:Hf0; simpl in *.
      * apply (Hreset a fl0 Hf0). congruence.
      * congruence.
    + intros Hin. destruct (Hlen a Hin) as (fl & Hfa & Hlt). rewrite Hfa. simpl.
      rewrite decide_True by done. by apply list_lookup_insert_eq.
  - symmetry. apply due_not_due_length.
  - intros Hnd. eapply sublist_NoDup; [exact Hnd|].
    apply fmap_sublist, sublist_filter.
Qed.

Lemma expand_list_same {A : Type} (n : nat) (l l' : list A) :
  expand_list n l = Ok l' → length l = n → l' = l.
Proof. unfold expand_list. intros H Hn. rewrite decide_True in H by done. congruence. Qed.

Lemma expand_list_length {A : Type} (n : nat) (l l' : list A) :
  expand_list n l = Ok l' → length l' = n.
Proof.
  unfold expand_list. case_decide; [congruence|].
  destruct l as [|x [|]]; try discriminate. intros [= <-]. apply length_replicate.
Qed.

(** C10 as the code has it. The cohort extraction returns when every
    instance is ready for it.  Whenever it returns, the list [dynamic] is
    as it was; for an instance with a non-empty queue, row 5 of that
    instance in each of [dynamic1] .. [dynamic10] holds row 10 of the same
    instance in the entry of the list [dynamic] that belongs to the agent at
    the head of the queue, and nothing else of the instance has changed; for
    an instance with an empty queue, or without a queue, the tensors are
    unchanged.  The list [dynamic] holds the initial tensors on the first
    tick and what [update_od] returned on the tick before afterwards, not
    the agents' current tensors. *)
Theorem cohort_extraction_row5 (s : state) (i k : nat)
    (dk : tensor3) (inst : list (list Z)) :
  dyn s !! k = Some dk →
  dk !! i = Some inst →
  ((∀ j qj, decision_list s !! j = Some qj → extraction_ready j qj s) →
   ∃ s', cohort_extraction s = Ok s')
  ∧ ∀ s', cohort_extraction s = Ok s' →
      dynamic s' = dynamic s
      ∧ (∀ hd tl, decision_list s !! i = Some (hd :: tl) →
           ∃ src sinst row old row' dk',
             getitem_pred (dynamic s) hd.2 = Ok src
             ∧ src !! i = Some sinst ∧ sinst !! 10%nat = Some row
             ∧ inst !! 5%nat = Some old
             ∧ expand_list (length old) row = Ok row'
             ∧ (length row = length old → row' = row)
             ∧ dyn s' !! k = Some dk'
             ∧ dk' !! i = Some (<[5%nat := row']> inst))
      ∧ (decision_list s !! i = Some [] ∨ decision_list s !! i = None →
           ∃ dk', dyn s' !! k = Some dk' ∧ dk' !! i = Some inst).
Proof.
  intros Hk Hi. split; [apply cohort_extraction_total|]. intros s' Hx.
  split; [by apply cohort_extraction_dynamic|]. split.
  - intros hd tl Hq.
    destruct (cohort_extraction_at _ _ _ _ Hx Hq) as (sa & sb & Ha & Hstep & Hb).
    apply extract_instance_Ok in Hstep
      as (_ & _ & _ & (src & sinst & row & Hsrc & Hsi & Hrow & Hrows) & _).
    2:{ by rewrite (view_queue _ _ _ Ha). }
    rewrite (view_dynamic _ _ _ Ha) in Hsrc.
    symmetry in Ha. destruct (view_dyn _ _ _ _ _ _ Ha Hk Hi) as (dka & Hka & Hia).
    destruct (mapM_res_lookup _ _ _ _ _ Hrows Hka) as (dkb & Hkb & Hset).
    apply set_row_Ok in Hset as (inst' & old & row' & Hi' & Hold & Hex & ->).
    rewrite Hia in Hi'. injection Hi' as <-.
    symmetry in Hb.
    destruct (view_dyn _ _ _ k _ (<[5%nat:=row']> inst) Hb Hkb) as (dk' & Hk' & Hi').
    { apply list_lookup_insert_eq. by eapply lookup_lt_Some. }
    exists src, sinst, row, old, row', dk'.
    repeat split; try done. intros Hlen. by eapply expand_list_same.
  - intros [Hq|Hq].
    + destruct (cohort_extraction_at _ _ _ _ Hx Hq) as (sa & sb & Ha & Hstep & Hb).
      simpl in Hstep. injection Hstep as ->. rewrite <-Hb in Ha. symmetry in Ha.
      by eapply view_dyn.
    + apply (cohort_extraction_not_at i) in Hx; [|done]. symmetry in Hx.
      by eapply view_dyn.
Qed.

(** ** Sorting the queues *)

Lemma sort_insert_sorted (x : entry) (q : list entry) :
  queue_sorted q → queue_sorted (sort_insert x q).
Proof.
  unfold queue_sorted. induction q as [|y q IH]; intros Hs; simpl.
  - repeat constructor.
  - case_decide as Hxy.
    + constructor; [done|]. by constructor.
    + apply Sorted_inv in Hs as [Hq Hy]. constructor; [by apply IH|].
      destruct q as [|z q]; simpl.
      * constructor. lia.
      * case_decide; constructor; [lia|]. by inversion Hy.
Qed.

Lemma sort_queue_sorted (q : list entry) : queue_sorted (sort_queue q).
Proof.
  unfold sort_queue. induction q as [|x q IH]; simpl.
  - constructor.
  - by apply sort_insert_sorted.
Qed.

Lemma sort_insert_perm (x : entry) (q : list entry) : sort_insert x q ≡ₚ x :: q.
Proof.
  induction q as [|y q IH]; simpl; [done|].
  case_decide; [done|]. rewrite IH. apply Permutation_swap.
Qed.

Lemma sort_queue_perm (q : list entry) : sort_queue q ≡ₚ q.
Proof.
  unfold sort_queue. induction q as [|x q IH]; simpl; [done|].
  by rewrite sort_insert_perm, IH.
Qed.

(** The sort is stable: the entries scheduled at one time keep their order. *)
Lemma sort_insert_due (t : Z) (x : entry) (q : list entry) :
  due t (sort_insert x q) = due t (x :: q).
Proof.
  induction q as [|y q IH]; simpl; [done|].
  case_decide as Hxy; [done|].
  destruct (decide (y.1 = t)) as [Hy|Hy].
  - rewrite (due_cons_eq t y) by done. rewrite IH.
    rewrite !(due_cons_ne t x) by lia. by rewrite (due_cons_eq t y).
  - rewrite (due_cons_ne t y) by done. rewrite IH.
    destruct (decide (x.1 = t)).
    + rewrite !(due_cons_eq t x) by done. by rewrite (due_cons_ne t y).
    + rewrite !(due_cons_ne t x) by done. by rewrite (due_cons_ne t y).
Qed.

Lemma sort_queue_stable (t : Z) (q : list entry) : due t (sort_queue q) = due t q.
Proof.
  unfold sort_queue. induction q as [|x q IH]; simpl; [done|].
  rewrite sort_insert_due. destruct (decide (x.1 = t)).
  - rewrite !(due_cons_eq t x) by done. by rewrite IH.
  - rewrite !(due_cons_ne t x) by done. by rewrite IH.
Qed.

(** ** The test of the activity masks *)

Lemma byte_any_false_iff (t : tensor2) :
  Forall (Forall (λ x, 0 ≤ x < 256)) t → byte_any t = false ↔ all_zero t.
Proof.
  unfold byte_any, all_zero, byte. induction 1 as [|r t Hr _ IH]; simpl.
  - split; [constructor|done].
  - rewrite orb_false_iff, IH, Forall_cons. apply and_iff_compat_r.
    clear IH. induction Hr as [|x r Hx _ IHr]; simpl.
    + split; [constructor|done].
    + rewrite orb_false_iff, IHr, Forall_cons. apply and_iff_compat_r.
      rewrite Z.mod_small by done. rewrite negb_false_iff, Z.eqb_eq. done.
Qed.

Lemma tensor2_add_bounded (n : Z) (a b : tensor2) :
  same_shape2 a b →
  Forall (Forall (λ x, 0 ≤ x ≤ n)) a → is_01 b →
  Forall (Forall (λ x, 0 ≤ x ≤ n + 1)) (tensor2_add a b)
  ∧ same_shape2 (tensor2_add a b) b
  ∧ (all_zero (tensor2_add a b) ↔ all_zero a ∧ all_zero b).
Proof.
  unfold same_shape2, is_01, all_zero, tensor2_add.
  induction 1 as [|r r' a b Hlen _ IH]; intros Ha Hb; simpl.
  - repeat split; try constructor.
  - apply Forall_cons in Ha as [Hr Ha]. apply Forall_cons in Hb as [Hr' Hb].
    destruct (IH Ha Hb) as (IH1 & IH2 & IH3).
    assert (Forall (λ x, 0 ≤ x ≤ n + 1) (zip_with Z.add r r')
            ∧ length (zip_with Z.add r r') = length r'
            ∧ (Forall (λ x, x = 0) (zip_with Z.add r r')
               ↔ Forall (λ x, x = 0) r ∧ Forall (λ x, x = 0) r')) as (R1 & R2 & R3).
    { clear -Hlen Hr Hr'. revert r' Hlen Hr'.
      induction Hr as [|x r Hx _ IHr]; intros [|y r'] Hlen Hr'; simpl in *; try done.
      apply Forall_cons in Hr' as [Hy Hr']. injection Hlen as Hlen.
      destruct (IHr r' Hlen Hr') as (I1 & I2 & I3).
      split; [constructor; [lia|done]|]. split; [lia|].
      rewrite !Forall_cons, I3. split; [intros [? [? ?]]|intros [[? ?] [? ?]]];
        repeat split; try done; lia. }
    split; [by constructor|]. split; [by constructor|].
    rewrite !Forall_cons, IH3, R3. tauto.
Qed.

Lemma same_shape2_sym (a b : tensor2) : same_shape2 a b → same_shape2 b a.
Proof. unfold same_shape2. induction 1; constructor; done. Qed.

Lemma same_shape2_trans (a b c : tensor2) :
  same_shape2 a b → same_shape2 b c → same_shape2 a c.
Proof.
  unfold same_shape2. intros Hab. revert c.
  induction Hab; inversion 1; subst; constructor; [congruence|auto].
Qed.

Lemma sum_masks_bounded (ams : list tensor2) : ∀ (n : Z) (acc : tensor2),
  Forall (Forall (λ x, 0 ≤ x ≤ n)) acc →
  Forall is_01 ams → Forall (same_shape2 acc) ams →
  Forall (Forall (λ x, 0 ≤ x ≤ n + Z.of_nat (length ams))) (foldl tensor2_add acc ams)
  ∧ (all_zero (foldl tensor2_add acc ams) ↔ all_zero acc ∧ Forall all_zero ams).
Proof.
  induction ams as [|b ams IH]; intros n acc Hacc H01 Hshape; simpl.
  - split.
    + eapply Forall_impl; [exact Hacc|]. intros r Hr. eapply Forall_impl; [exact Hr|].
      simpl. intros; lia.
    + split; [by split|by intros [? _]].
  - apply Forall_cons in H01 as [Hb H01]. apply Forall_cons in Hshape as [Hsb Hshape].
    destruct (tensor2_add_bounded n acc b Hsb Hacc Hb) as (B1 & B2 & B3).
    destruct (IH (n + 1) (tensor2_add acc b) B1 H01) as [I1 I2].
    { eapply Forall_impl; [exact Hshape|]. intros c Hc. simpl in Hc.
      eapply same_shape2_trans; [exact B2|].
      eapply same_shape2_trans; [apply same_shape2_sym, Hsb|exact Hc]. }
    split.
    + eapply Forall_impl; [exact I1|]. intros r Hr. eapply Forall_impl; [exact Hr|].
      simpl. intros; lia.
    + rewrite I2, B3, Forall_cons. tauto.
Qed.

(** For at most 255 masks of one shape with entries 0 or 1, the sum tested
    by the loop has no non-zero byte exactly when every mask is all zero. *)
Lemma mask_judge_zero_iff (s : state) (am : tensor2) (ams : list tensor2) :
  agent_mask s = am :: ams →
  Forall is_01 (am :: ams) → Forall (same_shape2 am) ams →
  (length ams < 255)%nat →
  byte_any (mask_judge s) = false ↔ Forall all_zero (agent_mask s).
Proof.
  intros Hs H01 Hshape Hlen. unfold mask_judge. rewrite Hs.
  apply Forall_cons in H01 as [Ham H01].
  destruct (sum_masks_bounded ams 1 am) as [Hb Hz]; try done.
  { eapply Forall_impl; [exact Ham|]. intros r Hr. eapply Forall_impl; [exact Hr|].
    simpl. intros; lia. }
  rewrite byte_any_false_iff, Hz, Forall_cons; [done|].
  eapply Forall_impl; [exact Hb|]. intros r Hr. eapply Forall_impl; [exact Hr|].
  simpl. intros; lia.
Qed.

(** ** Slices and broadcasting *)

Lemma fmap_eq_Forall2 {A B : Type} (f : A → B) (l1 l2 : list A) :
  f <$> l1 = f <$> l2 ↔ Forall2 (λ x y, f x = f y) l1 l2.
Proof.
  revert l2. induction l1 as [|x l1 IH]; intros [|y l2]; simpl; split;
    try done; try by inversion 1.
  - intros [= Hxy Hl]. constructor; [done|]. by apply IH.
  - inversion 1; subst. f_equal; [done|]. by apply IH.
Qed.

Lemma mapM_zip_same {A B : Type} (f : A * B → res B) (P : A → B → Prop) :
  (∀ a b y, P a b → f (a, b) = Ok y → y = b) →
  ∀ l1 l2 w, Forall2 P l1 l2 → mapM_res f (zip l1 l2) = Ok w → w = l2.
Proof.
  intros Hf l1 l2 w HP. revert w. induction HP as [|a b l1 l2 Hab _ IH]; intros w H;
    simpl in H; inv_res; try done.
  f_equal; [by eapply Hf|by apply IH].
Qed.

Lemma mapM_zip_shape {A B C : Type} (f : A * B → res B) (g : A → C) (h : B → C) :
  (∀ a b y, f (a, b) = Ok y → h y = g a) →
  ∀ l1 l2 w, length l2 = length l1 → mapM_res f (zip l1 l2) = Ok w →
             h <$> w = g <$> l1.
Proof.
  intros Hf l1. induction l1 as [|a l1 IH]; intros [|b l2] w Hlen H;
    simpl in *; inv_res; try done.
  rewrite fmap_cons. f_equal; [by eapply Hf|]. apply IH with (l2 := l2); [lia|done].
Qed.

Lemma expand3_shape (tgt src v : tensor3) :
  expand3 tgt src = Ok v → dims v = dims tgt.
Proof.
  unfold expand3, dims. intros H. inv_res.
  eapply mapM_zip_shape in H; [exact H| |by eapply expand_list_length].
  intros ti si y Hy. simpl in Hy. inv_res.
  eapply mapM_zip_shape in Hy; [exact Hy| |by eapply expand_list_length].
  intros tr sr z Hz. simpl in Hz. by eapply expand_list_length.
Qed.

Lemma expand3_same (tgt src v : tensor3) :
  expand3 tgt src = Ok v → dims tgt = dims src → v = src.
Proof.
  unfold expand3, dims. intros H Hd. inv_res.
  assert (a = src) as ->.
  { eapply expand_list_same; [done|]. apply (f_equal length) in Hd.
    by rewrite !length_map in Hd. }
  apply fmap_eq_Forall2 in Hd.
  eapply mapM_zip_same in H; [done| |exact Hd].
  intros ti si y Hts Hy. simpl in *. inv_res.
  assert (a = si) as ->.
  { eapply expand_list_same; [done|]. apply (f_equal length) in Hts.
    by rewrite !length_map in Hts. }
  apply fmap_eq_Forall2 in Hts.
  eapply mapM_zip_same in Hy; [done| |exact Hts].
  intros tr sr z Hl Hz. simpl in *. by eapply expand_list_same.
Qed.

Lemma take_app_drop {A : Type} (n : nat) (v d : list A) :
  length v = length (take n d) → take n (v ++ drop n d) = v.
Proof.
  rewrite length_take. intros Hlen. destruct (decide (length d ≤ n)%nat).
  - rewrite drop_ge, app_nil_r by done. apply take_ge. lia.
  - rewrite take_app_length' by lia. done.
Qed.

Lemma zip_with_take_app_drop (L : nat) (ds vs : list (list Z)) :
  length <$> vs = length <$> (take L <$> ds) →
  take L <$> zip_with (λ dr vr, vr ++ drop L dr) ds vs = vs.
Proof.
  revert vs. induction ds as [|d ds IH]; intros [|v vs]; simpl; try done.
  intros [= Hv Hvs]. f_equal; [by apply take_app_drop|by apply IH].
Qed.

Lemma slice_write_slice (L : nat) (dst v : tensor3) :
  dims v = dims (slice_1_4 L dst) →
  slice_1_4 L (write_slice_1_4 L dst v) = v.
Proof.
  unfold dims, slice_1_4, write_slice_1_4. revert v.
  induction dst as [|di dst IH]; intros [|vi v]; simpl; try done.
  intros [= Hvi Hv]. f_equal; [|by apply IH].
  assert (length vi = length (take 3 (drop 1 di))) as Hlen.
  { apply (f_equal length) in Hvi. by rewrite !length_map in Hvi. }
  set (X := zip_with (λ dr vr, vr ++ drop L dr) (take 3 (drop 1 di)) vi).
  assert (length X = length (take 3 (drop 1 di))) as HX.
  { unfold X. rewrite length_zip_with. lia. }
  assert (take 3 (drop 1 (take 1 di ++ X ++ drop 4 di)) = X) as ->.
  { destruct di as [|r0 rest]; simpl in *.
    - done.
    - rewrite drop_0. change (drop 4 (r0 :: rest)) with (drop 3 rest).
      apply take_app_drop. done. }
  unfold X. by apply zip_with_take_app_drop.
Qed.

Lemma dims_slice (L : nat) (t : tensor3) :
  dims (slice_1_4 L t) = (λ ls, (λ n, n `min` L)%nat <$> take 3 (drop 1 ls)) <$> dims t.
Proof.
  unfold dims, slice_1_4. rewrite !map_map. apply map_ext. intros inst.
  rewrite !map_map. rewrite <-fmap_drop, <-fmap_take.
  change (map length) with (fmap (M := list) (length (A := Z))).
  rewrite <-list_fmap_compose. apply list_fmap_ext. intros _ r _. simpl.
  rewrite length_take. lia.
Qed.

Lemma slice_assign_same (L : nat) (dst src y : tensor3) :
  slice_assign L dst src = Ok y → dims y = dims src →
  slice_1_4 L y = slice_1_4 L src.
Proof.
  unfold slice_assign. intros H Hd. inv_res.
  pose proof (expand3_shape _ _ _ Ha) as Hshape.
  rewrite slice_write_slice by done.
  apply (f_equal (fmap (λ ls, (λ n, n `min` L)%nat <$> take 3 (drop 1 ls)))) in Hd.
  rewrite <-!dims_slice in Hd. rewrite slice_write_slice in Hd by done.
  eapply expand3_same; [done|]. congruence.
Qed.

(** ** One agent's action *)

Section AgentBlock.
Context {stop_info graph : Type}.
Variable self : @MA_CB_RP_Major stop_info graph.
Variable net : oracle.
Variable static : static_tensor.
Variable travel_time_G : graph.
Variables up_station all_station : list Z.

Abbreviation agent_block' :=
  (agent_block self net static travel_time_G up_station all_station).

Lemma agent_block_Ok (t a_n : nat) (s s' : state) :
  agent_block' t a_n s = Ok s' →
  ∃ flags m ptr logp d d' idxs logps,
    decision_mask_dict s !! a_n = Some flags
    ∧ mask s !! (a_n - 1)%nat = Some m
    ∧ select_action self net static t a_n m flags = Ok (ptr, logp)
    ∧ dyn s !! (a_n - 1)%nat = Some d
    ∧ broadcast up_station a_n d' (<[(a_n - 1)%nat := d']> (dyn s)) = Ok (dyn s')
    ∧ push_decisions a_n ptr d' (decision_list s) = Ok (decision_list s')
    ∧ tour_idx s !! a_n = Some idxs
    ∧ tour_logp s !! a_n = Some logps
    ∧ tour_idx s' = <[a_n := idxs ++ [ptr]]> (tour_idx s)
    ∧ tour_logp s' = <[a_n := logps ++ [logp]]> (tour_logp s)
    ∧ decision_mask_dict s' = decision_mask_dict s
    ∧ dynamic s' = dynamic s.
Proof.
  unfold agent_block. intros H.
  apply bind_Ok in H as (flags & Hflags & H).
  apply bind_Ok in H as (m & Hm & H).
  apply bind_Ok in H as ([ptr logp] & Hsel & H).
  apply bind_Ok in H as (d & Hd & H).
  destruct (update_tw self d ptr (records s) a_n (tw_mask s)) as [[c1 stop] tw'].
  apply bind_Ok in H as ([d' c2] & Hfn & H).
  apply bind_Ok in H as (ds & Hds & H).
  apply bind_Ok in H as (dl & Hdl & H).
  apply bind_Ok in H as (logps & Hlogps & H).
  apply bind_Ok in H as (idxs & Hidxs & H).
  apply bind_Ok in H as (tours & Htours & H).
  apply bind_Ok in H as (tours' & Htours' & H).
  apply bind_Ok in H as (am & Ham & H).
  destruct (match mask_fn self with Some f => f m d' am ptr | None => (m, am) end)
    as [m' am'].
  injection H as <-. simpl. inv_items.
  exists flags, m, ptr, logp, d, d', idxs, logps. done.
Qed.

Lemma broadcast_lookup (a_n : nat) (src : tensor3) (l ds : list tensor3) p y :
  broadcast up_station a_n src l = Ok ds → ds !! p = Some y →
  (p = (a_n - 1)%nat → y = src)
  ∧ (p ≠ (a_n - 1)%nat →
     ∃ x, l !! p = Some x ∧ slice_assign (length up_station) x src = Ok y).
Proof.
  unfold broadcast. intros H Hy.
  apply mapM_res_Forall2 in H.
  destruct (Forall2_lookup_r _ _ _ _ _ H Hy) as ([p' x] & Hx & Hf).
  apply lookup_zip_with_Some in Hx as (p'' & x' & [= <- <-] & Hp & Hx).
  apply lookup_seq in Hp as [-> _]. simpl in Hf. case_decide; inv_res.
  - done.
  - split; [done|]. eauto.
Qed.

Lemma broadcast_length (a_n : nat) (src : tensor3) (l ds : list tensor3) :
  broadcast up_station a_n src l = Ok ds → length ds = length l.
Proof.
  unfold broadcast. intros H%mapM_res_length.
  rewrite length_zip_with, length_seq in H. lia.
Qed.

(** C6. After an agent's action, in every other agent's dynamic tensor
    (of the acting agent's shape), rows 1 to 3 cut to the first
    [len(up_station)] columns equal the same slice of the acting agent's
    tensor, for all instances alike: the scheduling flags play no part. *)
Theorem broadcast_peers_equal (t a_n : nat) (s s' : state)
    (j : nat) (da dj : tensor3) :
  (1 ≤ a_n ≤ 10)%nat →
  agent_block' t a_n s = Ok s' →
  dyn s' !! (a_n - 1)%nat = Some da →
  dyn s' !! j = Some dj →
  dims dj = dims da →
  slice_1_4 (length up_station) dj = slice_1_4 (length up_station) da.
Proof.
  intros Ha Hblock Hda Hdj Hshape.
  apply agent_block_Ok in Hblock
    as (flags & m & ptr & logp & d & d' & idxs & logps & _ & _ & _ & _ & Hb & _).
  destruct (broadcast_lookup _ _ _ _ _ _ Hb Hda) as [Hsrc _].
  rewrite Hsrc in * by done.
  destruct (decide (j = (a_n - 1)%nat)) as [->|Hne]; [congruence|].
  destruct (broadcast_lookup _ _ _ _ _ _ Hb Hdj) as [_ (x & _ & Hx)]; [done|].
  by eapply slice_assign_same.
Qed.

(** The loop of [push_decisions] from instance [k] on. *)
Lemma push_decisions_loop (a_n : nat) (ptr : tensor1) (d : tensor3) (n : nat) :
  ∀ k dl dl',
    foldM (λ dl' ns0,
        p ← getitem ptr ns0;
        if decide (p ≠ 0) then
          inst ← getitem d ns0;
          row ← getitem inst 10;
          next_time ← getitem row 0;
          q ← getitem dl' ns0;
          setitem dl' ns0 (q ++ [(next_time, a_n)])
        else Ok dl')
      dl (seq k n) = Ok dl' →
    length dl' = length dl
    ∧ ∀ i, ((i < k ∨ k + n ≤ i)%nat → dl' !! i = dl !! i)
         ∧ ((k ≤ i < k + n)%nat →
            ∃ p, ptr !! i = Some p
              ∧ (p = 0 → dl' !! i = dl !! i)
              ∧ (p ≠ 0 →
                 ∃ inst row next_time q,
                   d !! i = Some inst ∧ inst !! 10%nat = Some row
                   ∧ row !! 0%nat = Some next_time ∧ dl !! i = Some q
                   ∧ dl' !! i = Some (q ++ [(next_time, a_n)]))).
Proof.
  induction n as [|n IH]; intros k dl dl' H; simpl in H.
  - inv_res. split; [done|]. intros i. split; [done|lia].
  - apply bind_Ok in H as (dl1 & Hstep & H).
    apply IH in H as [Hlen Hrest].
    apply bind_Ok in Hstep as (p & Hp & Hstep). apply getitem_Ok in Hp.
    case_decide as Hp0.
    + inv_res. inv_items. rewrite length_insert in Hlen. split; [done|].
      intros i. destruct (Hrest i) as [Hout Hin]. split.
      * intros Hi. rewrite Hout by lia. apply list_lookup_insert_ne. lia.
      * intros Hi. destruct (decide (i = k)) as [->|Hne].
        -- exists p. split; [done|]. split; [done|]. intros _.
           eexists _, _, _, _. repeat split; try done.
           rewrite Hout by lia. by apply list_lookup_insert_eq.
        -- destruct Hin as (p' & Hp' & Hz & Hnz); [lia|].
           rewrite list_lookup_insert_ne in Hz, Hnz by lia. eauto.
    + injection Hstep as ->. split; [done|].
      intros i. destruct (Hrest i) as [Hout Hin]. split.
      * intros Hi. apply Hout. lia.
      * intros Hi. destruct (decide (i = k)) as [->|Hne].
        -- exists p. split; [done|]. split; [|done]. intros _. apply Hout. lia.
        -- apply Hin. lia.
Qed.

(** C8. After an agent's action, with [ptr] the indices it recorded: an
    instance whose index is not 0 has one entry more at the end of its
    queue, the agent with the time in row 10, column 0 of the agent's
    tensor after the action; an instance whose index is 0 has its queue
    unchanged. *)
Theorem decision_pushed_unless_idle (t a_n : nat) (s s' : state) :
  (1 ≤ a_n ≤ 10)%nat →
  agent_block' t a_n s = Ok s' →
  ∃ idxs ptr da,
    tour_idx s' !! a_n = Some (idxs ++ [ptr])
    ∧ dyn s' !! (a_n - 1)%nat = Some da
    ∧ length (decision_list s') = length (decision_list s)
    ∧ ∀ i q, decision_list s !! i = Some q →
        ∃ p, ptr !! i = Some p
          ∧ (p = 0 → decision_list s' !! i = Some q)
          ∧ (p ≠ 0 →
             ∃ inst row next_time,
               da !! i = Some inst ∧ inst !! 10%nat = Some row
               ∧ row !! 0%nat = Some next_time
               ∧ decision_list s' !! i = Some (q ++ [(next_time, a_n)])).
Proof.
  intros Ha Hblock.
  apply agent_block_Ok in Hblock
    as (flags & m & ptr & logp & d & d' & idxs & logps
        & _ & _ & _ & Hd & Hb & Hpush & Hidx & _ & Hidx' & _).
  assert (dyn s' !! (a_n - 1)%nat = Some d') as Hda.
  { destruct (lookup_lt_is_Some_2 (dyn s') (a_n - 1)%nat) as [y Hy].
    - rewrite (broadcast_length _ _ _ _ Hb), length_insert.
      by eapply lookup_lt_Some.
    - destruct (broadcast_lookup _ _ _ _ _ _ Hb Hy) as [Hsrc _].
      by rewrite Hy, Hsrc. }
  exists idxs, ptr, d'. split; [by rewrite Hidx', lookup_insert_eq|].
  split; [done|].
  unfold push_decisions in Hpush. apply push_decisions_loop in Hpush as [Hlen Hall].
  split; [done|]. intros i q Hq.
  destruct (Hall i) as [_ Hin].
  destruct Hin as (p & Hp & Hz & Hnz).
  { apply lookup_lt_Some in Hq. lia. }
  exists p. split; [done|]. split.
  - intros Hp0. rewrite Hz by done. done.
  - intros Hp0. destruct (Hnz Hp0) as (inst & row & nt & q' & ? & ? & ? & Hq' & ?).
    rewrite Hq in Hq'. injection Hq' as <-. eauto 10.
Qed.
End AgentBlock.

(** *** An agent's block returns *)








Lemma push_decisions_length (a_n : nat) (ptr : tensor1) (d : tensor3)
    (dl dl' : list (list entry)) :
  push_decisions a_n ptr d dl = Ok dl' → length dl' = length dl.
Proof.
  unfold push_decisions. intros H.
  (* the loop keeps the number of queues *)
  assert (∀ l (x x' : list (list entry)),
    foldM (λ dl' ns0,
        p ← getitem ptr ns0;
        if decide (p ≠ 0) then
          inst ← getitem d ns0;
          row ← getitem inst 10;
          next_time ← getitem row 0;
          q ← getitem dl' ns0;
          setitem dl' ns0 (q ++ [(next_time, a_n)])
        else Ok dl')
      x l = Ok x' → length x' = length x) as Hloop.
  { induction l as [|ns0 l IH]; intros x x' Hx; simpl in Hx.
    - by injection Hx as ->.
    - apply bind_Ok in Hx as (x1 & H1 & Hx). rewrite (IH _ _ Hx).
      apply bind_Ok in H1 as (p & _ & H1). case_decide.
      + inv_res. inv_items. by rewrite length_insert.
      + by injection H1 as ->. }
  by eapply Hloop.
Qed.

Section AgentBlockTotal.
Context {stop_info graph : Type}.
Variable self : @MA_CB_RP_Major stop_info graph.
Variable net : oracle.
Variable static : static_tensor.
Variable travel_time_G : graph.
Variables up_station all_station : list Z.


(** In training mode it returns when one of the draws that the embedding
    follows is valid and the draws before it can be looked up in the mask. *)
Lemma sample_valid_total (draw : nat → tensor1) (m : tensor2) (fuel : nat) :
  ∀ k j,
    (j < fuel)%nat →
    (∃ g, gather m (draw (k + j)%nat) = Ok g ∧ byte_all1 g = true) →
    (∀ j', (j' < j)%nat → ∃ g, gather m (draw (k + j')%nat) = Ok g) →
    ∃ ptr, sample_valid fuel draw m k = Ok ptr.
Proof.
  induction fuel as [|fuel IH]; intros k j Hj Hvalid Hbefore; [lia|]. simpl.
  destruct j as [|j].
  - destruct Hvalid as (g & Hg & Hall). rewrite Nat.add_0_r in Hg.
    rewrite Hg. simpl. rewrite Hall. eauto.
  - destruct (Hbefore 0%nat) as [g Hg]; [lia|]. rewrite Nat.add_0_r in Hg.
    rewrite Hg. simpl. destruct (byte_all1 g); [eauto|].
    apply (IH (S k) j); [lia| |].
    + by replace (S k + j)%nat with (k + S j)%nat by lia.
    + intros j' Hj'. replace (S k + j')%nat with (k + S j')%nat by lia.
      apply Hbefore. lia.
Qed.

End AgentBlockTotal.

(** ** The rollout *)

Lemma foldM_preserve {A St V : Type} (f : St → A → res St) (v : St → V) :
  (∀ s x s', f s x = Ok s' → v s' = v s) →
  ∀ l s s', foldM f s l = Ok s' → v s' = v s.
Proof.
  intros Hf. induction l as [|x l IH]; intros s s' H; simpl in H.
  - by injection H as ->.
  - apply bind_Ok in H as (s1 & H1 & H). rewrite (IH _ _ H). by eapply Hf.
Qed.

Lemma foldM_preserve_iff {A St : Type} (f : St → A → res St) (P : St → Prop) :
  (∀ s x s', f s x = Ok s' → P s' ↔ P s) →
  ∀ l s s', foldM f s l = Ok s' → P s' ↔ P s.
Proof.
  intros Hf. induction l as [|x l IH]; intros s s' H; simpl in H.
  - by injection H as ->.
  - apply bind_Ok in H as (s1 & H1 & H). rewrite (IH _ _ H). by eapply Hf.
Qed.

Lemma list_remove_sublist `{EqDecision A} (x : A) (l l' : list A) :
  list_remove x l = Ok l' → l' `sublist_of` l.
Proof.
  revert l'. induction l as [|y l IH]; intros l' H; simpl in H; [done|].
  case_decide.
  - injection H as ->. by apply sublist_cons.
  - apply bind_Ok in H as (l'' & Hl & H). injection H as <-.
    apply sublist_skip. by apply IH.
Qed.


Lemma steady_tours s s' : steady s' = steady s → tours s' = tours s.
Proof. unfold steady, tours. intros [= ? ? _ _ _ _]. congruence. Qed.

Lemma flag_and_remove_steady ns0 e s s' :
  flag_and_remove ns0 e s = Ok s' → steady s' = steady s.
Proof. by intros (? & ? & ? & _ & _ & _ & _ & ->)%flag_and_remove_Ok. Qed.

Lemma extract_instance_steady ns0 q s s' :
  extract_instance ns0 q s = Ok s' → steady s' = steady s.
Proof.
  unfold extract_instance. destruct q as [|hd tl]; intros H.
  - by injection H as ->.
  - apply bind_Ok in H as (s1 & H1 & H).
    apply bind_Ok in H as (src & _ & H). apply bind_Ok in H as (inst & _ & H).
    apply bind_Ok in H as (row & _ & H). apply bind_Ok in H as (ds & _ & H).
    apply (foldM_preserve _ steady) in H.
    + rewrite H. unfold steady. simpl. by apply flag_and_remove_steady in H1.
    + intros s0 x s0' Hx. case_decide; [by eapply flag_and_remove_steady|].
      by injection Hx as ->.
Qed.

Lemma cohort_extraction_steady s s' :
  cohort_extraction s = Ok s' → steady s' = steady s.
Proof.
  unfold cohort_extraction. apply foldM_preserve.
  intros s0 x s0'. apply extract_instance_steady.
Qed.

Lemma cohort_extraction_tours s s' :
  cohort_extraction s = Ok s' → tours s' = tours s.
Proof. intros H. by apply steady_tours, cohort_extraction_steady. Qed.

Section Rollout.
Context {stop_info graph : Type}.
Variable self : @MA_CB_RP_Major stop_info graph.
Variable net : oracle.
Variable static : static_tensor.
Variable travel_time_G : graph.
Variables up_station all_station : list Z.

Lemma world_update_steady s s' :
  world_update self static up_station s = Ok s' → steady s' = steady s.
Proof.
  unfold world_update. intros H. apply bind_Ok in H as (ds & _ & H).
  by injection H as <-.
Qed.

Lemma world_update_tours s s' :
  world_update self static up_station s = Ok s' → tours s' = tours s.
Proof. intros H. by apply steady_tours, world_update_steady. Qed.

Lemma refresh_mask_frame ag_id s s' alive :
  refresh_mask self up_station ag_id s = Ok (s', alive) →
  ∃ ms ams, s' = set_agent_mask (set_mask s ms) ams.
Proof.
  unfold refresh_mask. case_decide as Hid; intros H.
  - apply bind_Ok in H as (m & _ & H). apply bind_Ok in H as (d & _ & H).
    apply bind_Ok in H as (am & _ & H). apply bind_Ok in H as (m' & _ & H).
    injection H as <- _. eauto.
  - injection H as <- _. exists (mask s), (agent_mask s). by destruct s.
Qed.

Lemma refresh_mask_tours ag_id s s' alive :
  refresh_mask self up_station ag_id s = Ok (s', alive) → tours s' = tours s.
Proof. by intros (ms & ams & ->)%refresh_mask_frame. Qed.

Lemma refresh_loop l : ∀ s ids0 s' ids,
  foldM (λ (acc : state * list nat) ag_id,
      r ← refresh_mask self up_station ag_id acc.1;
      ids ← (if (r.2 : bool) then Ok acc.2 else list_remove ag_id acc.2);
      Ok (r.1, ids))
    (s, ids0) l = Ok (s', ids) →
  (∃ ms ams, s' = set_agent_mask (set_mask s ms) ams) ∧ ids `sublist_of` ids0.
Proof.
  induction l as [|x l IH]; intros s ids0 s' ids H; simpl in H.
  - injection H as -> ->. split; [|done].
    exists (mask s'), (agent_mask s'). by destruct s'.
  - apply bind_Ok in H as ([s1 ids1] & H1 & H).
    apply IH in H as [(ms & ams & ->) Hsub].
    apply bind_Ok in H1 as ([s1' alive] & Hr & H1). simpl in H1.
    apply bind_Ok in H1 as (ids1' & Hrm & H1). injection H1 as -> ->.
    apply refresh_mask_frame in Hr as (ms' & ams' & ->). split; [by eauto|].
    destruct alive.
    + by injection Hrm as ->.
    + apply list_remove_sublist in Hrm. by etrans.
Qed.

Lemma refresh_all_frame s s' ids :
  refresh_all self up_station s = Ok (s', ids) →
  (∃ ms ams, s' = set_agent_mask (set_mask s ms) ams)
  ∧ ids `sublist_of` py_range 1 (agent_number self).
Proof. apply refresh_loop. Qed.

Lemma refresh_all_Ok s s' ids :
  refresh_all self up_station s = Ok (s', ids) →
  tours s' = tours s ∧ ids `sublist_of` py_range 1 (agent_number self).
Proof. intros [(ms & ams & ->) ?]%refresh_all_frame. done. Qed.

Lemma tour_lengths_tours s s' a :
  tours s' = tours s → tour_lengths s' a = tour_lengths s a.
Proof. unfold tours, tour_lengths. by intros [= -> ->]. Qed.

Lemma agent_block_tour_lengths t a_n s s' a :
  agent_block self net static travel_time_G up_station all_station t a_n s = Ok s' →
  tour_lengths s' a
  = if decide (a = a_n)
    then (S <$> (tour_lengths s a).1, S <$> (tour_lengths s a).2)
    else tour_lengths s a.
Proof.
  intros H. apply agent_block_Ok in H
    as (flags & m & ptr & logp & d & d' & idxs & logps
        & _ & _ & _ & _ & _ & _ & Hi & Hl & Hi' & Hl' & _).
  unfold tour_lengths. rewrite Hi', Hl'. case_decide as Ha.
  - subst a. rewrite !lookup_insert_eq, Hi, Hl. simpl.
    rewrite !length_app. simpl. do 2 f_equal; f_equal; lia.
  - by rewrite !lookup_insert_ne.
Qed.

Lemma agent_turn_tour_lengths t a_n s s' a :
  agent_turn self net static travel_time_G up_station all_station t s a_n = Ok s' →
  tour_lengths s' a
  = if decide (a = a_n ∧ (1 ≤ a ≤ 10)%nat)
    then (S <$> (tour_lengths s a).1, S <$> (tour_lengths s a).2)
    else tour_lengths s a.
Proof.
  unfold agent_turn. intros H. apply bind_Ok in H as (s1 & H1 & H).
  apply (foldM_preserve _ tours) in H.
  2:{ intros s0 x s0' Hx. apply bind_Ok in Hx as ([s2 alive] & Hr & Hx).
      injection Hx as <-. by eapply refresh_mask_tours. }
  rewrite (tour_lengths_tours _ _ _ H).
  case_decide as Hb.
  - apply agent_block_tour_lengths with (a := a) in H1. rewrite H1.
    destruct (decide (a = a_n)) as [->|Hne].
    + by rewrite decide_True.
    + rewrite decide_False; [done|]. by intros [? _].
  - injection H1 as <-. rewrite decide_False; [done|]. by intros [-> ?].
Qed.

Lemma agent_turns_tour_lengths t ids : ∀ s s' a,
  NoDup ids →
  foldM (agent_turn self net static travel_time_G up_station all_station t) s ids = Ok s' →
  tour_lengths s' a
  = if decide (a ∈ ids ∧ (1 ≤ a ≤ 10)%nat)
    then (S <$> (tour_lengths s a).1, S <$> (tour_lengths s a).2)
    else tour_lengths s a.
Proof.
  induction ids as [|x ids IH]; intros s s' a Hnd H; simpl in H.
  - injection H as ->. rewrite decide_False; [done|]. intros [[]%elem_of_nil _].
  - apply bind_Ok in H as (s1 & H1 & H).
    apply NoDup_cons in Hnd as [Hx Hnd].
    rewrite (IH _ _ a Hnd H).
    rewrite (agent_turn_tour_lengths _ _ _ _ a H1).
    destruct (decide (a = x)) as [->|Hne].
    + rewrite (decide_False (P := x ∈ ids ∧ _)) by (by intros [? _]).
      destruct (decide (1 ≤ x ≤ 10)%nat) as [Hb|Hb].
      * rewrite !decide_True; [done| |done]. split; [left|done].
      * rewrite !decide_False; [done| |]; by intros [_ ?].
    + rewrite (decide_False (P := a = x ∧ _)) by (by intros [? _]).
      destruct (decide (a ∈ ids ∧ (1 ≤ a ≤ 10)%nat)) as [[Hin Hb]|Hno].
      * rewrite decide_True; [done|]. split; [by right|done].
      * rewrite decide_False; [done|]. intros [[?|?]%elem_of_cons ?]; [done|].
        by apply Hno.
Qed.

Abbreviation tick' := (tick self net static travel_time_G up_station all_station).
Abbreviation run' := (run self net static travel_time_G up_station all_station).

Lemma tick_tour_lengths t s r :
  tick' t s = Ok r →
  match r with
  | Break s' => tours s' = tours s
  | Next s' ids =>
      NoDup ids
      ∧ ∀ a, tour_lengths s' a
             = if decide (a ∈ ids ∧ (1 ≤ a ≤ 10)%nat)
               then (S <$> (tour_lengths s a).1, S <$> (tour_lengths s a).2)
               else tour_lengths s a
  end.
Proof.
  unfold tick. intros H.
  apply bind_Ok in H as (s1 & H1 & H). apply bind_Ok in H as (s2 & H2 & H).
  apply cohort_extraction_tours in H1. apply world_update_tours in H2.
  assert (tours s2 = tours s) as Hs2 by (rewrite H2, H1; done).
  destruct (negb (byte_any (mask_judge s2))).
  - by injection H as <-.
  - apply bind_Ok in H as ([s2' ids] & Hr & H). simpl in H.
    apply bind_Ok in H as (s3 & H3 & H). injection H as <-.
    apply refresh_all_Ok in Hr as [Hr Hsub]. split.
    + eapply sublist_NoDup; [|exact Hsub]. apply NoDup_seq.
    + intros a. change (tour_lengths (sort_all s3) a) with (tour_lengths s3 a).
      rewrite (agent_turns_tour_lengths _ _ _ _ a (sublist_NoDup _ _ (NoDup_seq _ _) Hsub) H3).
      rewrite (tour_lengths_tours s2' s a) by congruence. done.
Qed.

(** The loop stops on the test of line 393 and on nothing else: a tick that
    returns ends by [break] exactly when the sum of the ten activity masks,
    as they are when the tick starts, has no non-zero byte. *)
Lemma tick_break_iff t s r :
  tick' t s = Ok r →
  (∃ s', r = Break s') ↔ byte_any (mask_judge s) = false.
Proof.
  unfold tick. intros H.
  apply bind_Ok in H as (s1 & H1 & H). apply bind_Ok in H as (s2 & H2 & H).
  apply cohort_extraction_steady in H1. apply world_update_steady in H2.
  assert (mask_judge s2 = mask_judge s) as Hj.
  { unfold mask_judge.
    apply (f_equal (λ p, p.1.1.2)) in H1, H2. simpl in H1, H2. by rewrite H2, H1. }
  rewrite Hj in H. destruct (byte_any (mask_judge s)); simpl in H.
  - apply bind_Ok in H as (r' & _ & H). apply bind_Ok in H as (s3 & _ & H).
    injection H as <-. split; [by intros [? ?]|done].
  - injection H as <-. split; [done|eauto].
Qed.

(** Every queue is sorted when a tick has run to its end. *)
Lemma tick_queues_sorted t s s' ids :
  tick' t s = Ok (Next s' ids) → Forall queue_sorted (decision_list s').
Proof.
  unfold tick. intros H.
  apply bind_Ok in H as (s1 & H1 & H). apply bind_Ok in H as (s2 & H2 & H).
  destruct (negb (byte_any (mask_judge s2))); [discriminate|].
  apply bind_Ok in H as (r' & _ & H). apply bind_Ok in H as (s3 & _ & H).
  injection H as <- _. simpl. apply Forall_fmap, Forall_true.
  intros q. apply sort_queue_sorted.
Qed.

(** So is every queue before the first tick. *)
Lemma initial_queues_sorted ds rs s0 :
  initial_state self static up_station all_station ds rs = Ok s0 →
  Forall queue_sorted (decision_list s0).
Proof.
  unfold initial_state. intros H. apply bind_Ok in H as (dl & Hdl & H).
  apply bind_Ok in H as (? & _ & H). apply bind_Ok in H as (? & _ & H).
  injection H as <-. simpl. apply mapM_res_Forall2 in Hdl.
  apply Forall_forall. intros q Hq.
  apply list_elem_of_lookup in Hq as [i Hq].
  destruct (Forall2_lookup_r _ _ _ _ _ Hdl Hq) as (ns & _ & Hns).
  unfold initial_queue in Hns. apply bind_Ok in Hns as (q0 & _ & Hns).
  injection Hns as <-. apply sort_queue_sorted.
Qed.

Lemma reset_flags_lookup (d : gmap nat (list Z)) (a : nat) :
  reset_flags self static d !! a
  = if decide (a ∈ py_range 1 (agent_number self))
    then Some (replicate (batch_size static) 0) else d !! a.
Proof.
  unfold reset_flags. generalize (py_range 1 (agent_number self)) as l.
  intros l. revert d. induction l as [|y l IH]; intros d; simpl; [done|].
  rewrite IH. destruct (decide (a = y)) as [->|Hne].
  - rewrite lookup_insert_eq. rewrite (decide_True (P := y ∈ y :: l)) by left.
    by case_decide.
  - rewrite lookup_insert_ne by done.
    destruct (decide (a ∈ l)), (decide (a ∈ y :: l)); try done.
    + exfalso. apply n. by right.
    + exfalso. apply elem_of_cons in e as [?|?]; done.
Qed.

(** The flags are reset at the head of a tick: no flag of a dictionary
    whose keys are agents of [range(1, agent_number)] is 1 afterwards. *)
Lemma reset_flags_reset (d : gmap nat (list Z)) (i : nat) :
  (∀ a, is_Some (d !! a) → a ∈ py_range 1 (agent_number self)) →
  map_Forall (λ _ fl, fl !! i ≠ Some 1) (reset_flags self static d).
Proof.
  intros Hdom a fl. rewrite reset_flags_lookup. case_decide as Ha.
  - intros [= <-]. intros Hone. apply lookup_replicate in Hone as [? _]. done.
  - intros Hfl. exfalso. apply Ha, Hdom. eauto.
Qed.

Lemma flag_and_remove_keys ns0 e s s' a :
  flag_and_remove ns0 e s = Ok s' →
  is_Some (decision_mask_dict s' !! a) ↔ is_Some (decision_mask_dict s !! a).
Proof.
  intros (fl & q & q' & Hfl & _ & _ & _ & ->)%flag_and_remove_Ok. simpl.
  destruct (decide (a = e.2)) as [->|Hne].
  - rewrite lookup_insert_eq, Hfl. split; eauto.
  - by rewrite lookup_insert_ne.
Qed.

Lemma cohort_extraction_keys s s' a :
  cohort_extraction s = Ok s' →
  is_Some (decision_mask_dict s' !! a) ↔ is_Some (decision_mask_dict s !! a).
Proof.
  apply (foldM_preserve_iff _ (λ s, is_Some (decision_mask_dict s !! a))).
  clear. intros s [ns0 q] s' H. simpl in H.
  unfold extract_instance in H. destruct q as [|hd tl].
  - by injection H as ->.
  - apply bind_Ok in H as (s1 & H1 & H).
    apply bind_Ok in H as (src & _ & H). apply bind_Ok in H as (inst & _ & H).
    apply bind_Ok in H as (row & _ & H). apply bind_Ok in H as (ds & _ & H).
    apply (foldM_preserve_iff _ (λ s, is_Some (decision_mask_dict s !! a))) in H.
    + rewrite H. simpl. by eapply flag_and_remove_keys.
    + intros s0 e s0' He. case_decide.
      * by eapply flag_and_remove_keys.
      * by injection He as ->.
Qed.

Lemma agent_turn_flags t a_n s s' :
  agent_turn self net static travel_time_G up_station all_station t s a_n = Ok s' →
  decision_mask_dict s' = decision_mask_dict s.
Proof.
  unfold agent_turn. intros H. apply bind_Ok in H as (s1 & H1 & H).
  apply (foldM_preserve _ decision_mask_dict) in H.
  2:{ intros s0 x s0' Hx. apply bind_Ok in Hx as ([s2 alive] & Hr & Hx).
      injection Hx as <-. by apply refresh_mask_frame in Hr as (? & ? & ->). }
  rewrite H. case_decide.
  - by apply agent_block_Ok in H1
      as (? & ? & ? & ? & ? & ? & ? & ? & _ & _ & _ & _ & _ & _ & _ & _ & _ & _ & ? & _).
  - by injection H1 as ->.
Qed.

(** The invariant holds before the first tick and every tick that runs to
    its end keeps it. *)
Lemma initial_state_invariant ds rs s0 :
  initial_state self static up_station all_station ds rs = Ok s0 →
  tick_invariant (agent_number self) s0.
Proof.
  intros H. split; [by eapply initial_queues_sorted|].
  unfold initial_state in H. apply bind_Ok in H as (dl & _ & H).
  apply bind_Ok in H as (? & _ & H). apply bind_Ok in H as (? & _ & H).
  injection H as <-. simpl. intros a.
  generalize (py_range 1 (agent_number self)) as l. intros l.
  assert (∀ (d : gmap nat (list Z)),
    is_Some (foldl (λ d a_id, <[a_id := replicate (batch_size static) 0]> d) d l !! a)
    → a ∈ l ∨ is_Some (d !! a)) as Hfold.
  { induction l as [|y l IH]; intros d; simpl; [by right|].
    intros [Hin|Hd]%IH; [left; by right|].
    destruct (decide (a = y)) as [->|Hne]; [left; left|].
    rewrite lookup_insert_ne in Hd by done. by right. }
  intros [?|Hd]%Hfold; [done|]. rewrite lookup_empty in Hd. by destruct Hd.
Qed.

Lemma tick_invariant_next t s s' ids :
  tick' t s = Ok (Next s' ids) →
  tick_invariant (agent_number self) s → tick_invariant (agent_number self) s'.
Proof.
  intros H [_ Hkeys]. split; [by eapply tick_queues_sorted|].
  unfold tick in H. apply bind_Ok in H as (s1 & H1 & H).
  apply bind_Ok in H as (s2 & H2 & H).
  destruct (negb (byte_any (mask_judge s2))); [discriminate|].
  apply bind_Ok in H as ([s2' ids'] & Hr & H). simpl in H.
  apply bind_Ok in H as (s3 & H3 & H). injection H as <- _. simpl.
  apply refresh_all_frame in Hr as [(ms & ams & ->) _].
  apply (foldM_preserve _ decision_mask_dict) in H3.
  2:{ intros s0 x s0'. apply agent_turn_flags. }
  rewrite H3. simpl.
  unfold world_update in H2. apply bind_Ok in H2 as (ds & _ & H2). injection H2 as <-.
  simpl. intros a Ha. rewrite (cohort_extraction_keys _ _ a H1) in Ha. simpl in Ha.
  rewrite reset_flags_lookup in Ha. case_decide; [done|]. by apply Hkeys.
Qed.

(** So at the head of every tick the hypotheses of the cohort extraction
    hold: after the reset of lines 315 and 316 every queue is sorted and no
    flag is 1. *)
Lemma tick_head_sorted_and_reset s i q :
  tick_invariant (agent_number self) s →
  decision_list s !! i = Some q →
  queue_sorted q
  ∧ map_Forall (λ _ fl, fl !! i ≠ Some 1)
      (reset_flags self static (decision_mask_dict s)).
Proof.
  intros [Hsorted Hkeys] Hq. split.
  - rewrite Forall_forall in Hsorted. apply Hsorted. apply list_elem_of_lookup. eauto.
  - by apply reset_flags_reset.
Qed.

Lemma run_invariant n : ∀ t s lg s',
  run' n t s = Ok (lg, s') →
  tick_invariant (agent_number self) s →
  Forall (λ e, tick_invariant (agent_number self) e.2) lg.
Proof.
  induction n as [|n IH]; intros t s lg s' H Hinv; simpl in H.
  - injection H as <- _. constructor.
  - apply bind_Ok in H as (r & Ht & H). destruct r as [s1|s1 ids].
    + injection H as <- _. constructor.
    + apply bind_Ok in H as ([lg1 s1'] & Hrun & H). injection H as <- _.
      pose proof (tick_invariant_next _ _ _ _ Ht Hinv) as Hinv1.
      constructor; [done|]. by eapply IH.
Qed.

Lemma grow_0 p : grow 0 p = p.
Proof.
  destruct p as [[x|] [y|]]; unfold grow; simpl; repeat f_equal; lia.
Qed.

Lemma grow_S k p : grow (S k) p = grow k (S <$> p.1, S <$> p.2).
Proof.
  destruct p as [[x|] [y|]]; unfold grow; simpl; repeat f_equal; lia.
Qed.

Lemma run_tour_lengths n : ∀ t s lg s' a,
  run' n t s = Ok (lg, s') →
  tour_lengths s' a = grow (block_ticks a lg) (tour_lengths s a).
Proof.
  induction n as [|n IH]; intros t s lg s' a H; simpl in H.
  - injection H as <- <-. by rewrite grow_0.
  - apply bind_Ok in H as (r & Ht & H). apply tick_tour_lengths in Ht.
    destruct r as [s1|s1 ids].
    + injection H as <- <-. rewrite grow_0. by apply tour_lengths_tours.
    + apply bind_Ok in H as ([lg1 s1'] & Hrun & H). injection H as <- <-.
      destruct Ht as [_ Ht]. rewrite (IH _ _ _ _ a Hrun), Ht.
      unfold block_ticks. rewrite filter_cons. simpl.
      case_decide; [|done]. simpl. by rewrite grow_S.
Qed.

Lemma cat_dim1_Ok (cols : list tensor1) (seqs : tensor2) :
  cat_dim1 cols = Ok seqs →
  cols ≠ [] ∧ ∀ i row, seqs !! i = Some row → length row = length cols.
Proof.
  unfold cat_dim1. destruct cols as [|c cols]; [done|]. intros H.
  split; [done|]. intros i row Hrow.
  apply mapM_res_Forall2 in H.
  destruct (Forall2_lookup_r _ _ _ _ _ H Hrow) as (k & _ & Hk).
  by apply mapM_res_length in Hk.
Qed.

Lemma finish_loop (s : state) (l : list nat) : ∀ d0 d,
  foldM (λ (d : gmap nat tensor2 * gmap nat tensor2) a_id0,
      cols ← dict_get (tour_idx s) a_id0;
      seqs ← cat_dim1 cols;
      cols' ← dict_get (tour_logp s) a_id0;
      seqs' ← cat_dim1 cols';
      Ok (<[a_id0 := seqs]> d.1, <[a_id0 := seqs']> d.2))
    d0 l = Ok d →
  ∀ a,
    (a ∈ l →
       ∃ cols seqs cols' seqs',
         tour_idx s !! a = Some cols ∧ cat_dim1 cols = Ok seqs
         ∧ tour_logp s !! a = Some cols' ∧ cat_dim1 cols' = Ok seqs'
         ∧ d.1 !! a = Some seqs ∧ d.2 !! a = Some seqs')
    ∧ (a ∉ l → d.1 !! a = d0.1 !! a ∧ d.2 !! a = d0.2 !! a).
Proof.
  induction l as [|x l IH]; intros d0 d H a; simpl in H.
  - injection H as ->. split; [by intros ?%elem_of_nil|done].
  - apply bind_Ok in H as (d1 & H1 & H).
    destruct (IH _ _ H a) as [IHin IHout].
    apply bind_Ok in H1 as (cols & Hc & H1). apply bind_Ok in H1 as (seqs & Hs & H1).
    apply bind_Ok in H1 as (cols' & Hc' & H1). apply bind_Ok in H1 as (seqs' & Hs' & H1).
    injection H1 as <-. apply dict_get_Ok in Hc, Hc'. simpl in *. split.
    + intros Hin. destruct (decide (a ∈ l)) as [|Hnl]; [by apply IHin|].
      apply elem_of_cons in Hin as [->|]; [|done].
      destruct (IHout Hnl) as [-> ->]. rewrite !lookup_insert_eq.
      eexists _, _, _, _. repeat split; done.
    + intros Hnin. apply not_elem_of_cons in Hnin as [Hne Hnl].
      destruct (IHout Hnl) as [-> ->]. by rewrite !lookup_insert_ne.
Qed.

Lemma initial_state_tours ds rs s0 a :
  initial_state self static up_station all_station ds rs = Ok s0 →
  tour_lengths s0 a
  = if decide (a ∈ py_range 1 (agent_number self)) then (Some 0, Some 0)%nat
    else (None, None).
Proof.
  unfold initial_state. intros H. apply bind_Ok in H as (dl & _ & H).
  apply bind_Ok in H as (? & _ & H). apply bind_Ok in H as (? & _ & H).
  injection H as <-. unfold tour_lengths. simpl.
  assert (∀ l (d : gmap nat (list tensor1)),
    foldl (λ d a_id, <[a_id := []]> d) d l !! a
    = if decide (a ∈ l) then Some [] else d !! a) as Hfold.
  { induction l as [|y l IH]; intros d; simpl; [done|].
    rewrite IH. destruct (decide (a = y)) as [->|Hne].
    - rewrite lookup_insert_eq. rewrite (decide_True (P := y ∈ y :: l)) by left.
      by case_decide.
    - rewrite lookup_insert_ne by done.
      destruct (decide (a ∈ l)) as [Hin|Hin], (decide (a ∈ y :: l)) as [Hin'|Hin'];
        try done.
      + exfalso. apply Hin'. by right.
      + exfalso. apply elem_of_cons in Hin' as [?|?]; done. }
  rewrite !Hfold. case_decide; done.
Qed.

(** C2 as the code has it. For every agent and every instance, the
    concatenated index sequence and the concatenated log-probability
    sequence that the rollout returns have one entry for each tick in
    which the agent acted, whatever the scheduling flag of that instance
    was in the tick. *)
Theorem tour_length_is_acted_ticks (ds : list tensor3) (rs : records_t)
    (lg : list (list nat * state)) (out : rollout) (a : nat) (seqs : tensor2) :
  forward_log self net static travel_time_G up_station all_station ds rs
  = Ok (lg, out) →
  r_tour_idx out !! a = Some seqs →
  (∀ i row, seqs !! i = Some row → length row = acted_ticks a lg)
  ∧ ∃ logps, r_tour_logp out !! a = Some logps
      ∧ ∀ i row, logps !! i = Some row → length row = acted_ticks a lg.
Proof.
  unfold forward_log. intros H Hseqs.
  apply bind_Ok in H as (s0 & H0 & H). apply bind_Ok in H as ([lg' s1] & Hrun & H).
  simpl in H. apply bind_Ok in H as (out' & Hfin & H). injection H as -> ->.
  unfold finish in Hfin. apply bind_Ok in Hfin as (d & Hloop & Hfin).
  injection Hfin as <-. simpl in Hseqs.
  destruct (finish_loop _ _ _ _ Hloop a) as [Hin Hout].
  destruct (decide (a ∈ py_range 1 (agent_number self))) as [Ha|Ha].
  2:{ destruct (Hout Ha) as [Hnone _]. simpl in Hnone.
      rewrite lookup_empty in Hnone. congruence. }
  destruct (Hin Ha) as (cols & seqs0 & cols' & logps & Hc & Hcat & Hc' & Hcat' & Hd & Hd').
  rewrite Hseqs in Hd. injection Hd as <-.
  pose proof (run_tour_lengths _ _ _ _ _ a Hrun) as Hlen.
  rewrite (initial_state_tours _ _ _ a H0), decide_True in Hlen by done.
  unfold tour_lengths, grow in Hlen. rewrite Hc, Hc' in Hlen. simpl in Hlen.
  injection Hlen as Hl Hl'.
  apply cat_dim1_Ok in Hcat as [Hne Hrows]. apply cat_dim1_Ok in Hcat' as [_ Hrows'].
  assert (block_ticks a lg = acted_ticks a lg) as Hticks.
  { assert (1 ≤ a ≤ 10)%nat as Hblock.
    { destruct (decide (1 ≤ a ≤ 10)%nat) as [|Hno]; [done|]. exfalso.
      assert (block_ticks a lg = 0%nat) as Hz.
      { unfold block_ticks. clear -Hno. induction lg as [|e lg IH]; [done|].
        rewrite filter_cons_False; [done|]. by intros [_ ?]. }
      rewrite Hz in Hl. destruct cols; [done|]. simpl in Hl. lia. }
    unfold block_ticks, acted_ticks. f_equal. apply list_filter_iff.
    intros e. by split; [intros [? _]|]. }
  rewrite <-Hticks. split.
  - intros i row Hrow. rewrite (Hrows _ _ Hrow). lia.
  - exists logps. split; [done|]. intros i row Hrow. rewrite (Hrows' _ _ Hrow). lia.
Qed.

(** C4 as the code has it. The dictionaries that the rollout returns
    hold a sequence for the agents 1 to [agent_number - 1], and for no
    other number: none for the agent whose number is [Agent_n]. *)
Theorem returned_agents_below_agent_number (ds : list tensor3) (rs : records_t)
    (out : rollout) :
  forward self net static travel_time_G up_station all_station ds rs = Ok out →
  ∀ a, (is_Some (r_tour_idx out !! a) ↔ (1 ≤ a)%nat ∧ Z.of_nat a < agent_number self)
     ∧ (is_Some (r_tour_logp out !! a) ↔ (1 ≤ a)%nat ∧ Z.of_nat a < agent_number self).
Proof.
  unfold forward, forward_log. intros H a.
  apply bind_Ok in H as ([lg out'] & H & Hout). injection Hout as ->.
  apply bind_Ok in H as (s0 & H0 & H). apply bind_Ok in H as ([lg' s1] & Hrun & H).
  simpl in H. apply bind_Ok in H as (out' & Hfin & H). injection H as -> ->.
  unfold finish in Hfin. apply bind_Ok in Hfin as (d & Hloop & Hfin).
  injection Hfin as <-. simpl.
  destruct (finish_loop _ _ _ _ Hloop a) as [Hin Hout].
  rewrite <-!elem_of_py_range.
  destruct (decide (a ∈ py_range 1 (agent_number self))) as [Ha|Ha].
  - destruct (Hin Ha) as (? & ? & ? & ? & _ & _ & _ & _ & -> & ->).
    split; split; eauto.
  - destruct (Hout Ha) as [-> ->]. simpl. rewrite !lookup_empty.
    split; split; try done; by intros [? ?].
Qed.
End Rollout.

(** * The scenario: the theorems at work, and what the code does not do *)

(** ** Action selection *)

Lemma select_action_eval_keeps_logp_witness :
  training (demo_self 3 false keep_masks) = false
  ∧ select_action (demo_self 3 false keep_masks) demo_net (demo_static 2)
      0 1 [[0; 1; 1]; [0; 1; 1]] [1; 0]
    = Ok ([1; 0], [-7; -7]).
Proof.
  split; [reflexivity|].
  exact (select_action_eval_keeps_logp (demo_self 3 false keep_masks) demo_net
           (demo_static 2) 0 1 [[0; 1; 1]; [0; 1; 1]] [1; 0] eq_refl).
Defined.

(** ** Mask refresh *)

Lemma refresh_mask_depot_fallback_witness :
  ∃ s' alive m',
    refresh_mask (demo_self 4 false close_instance_0) demo_up_station 2 demo_state
    = Ok (s', alive)
    ∧ mask s' !! 1%nat = Some m'
    ∧ length m' = 1%nat
    ∧ ∀ i row, [[0; 0; 0]] !! i = Some row →
        m' !! i = Some (if decide (row_sum row = 0)
                        then 1 :: zeros (length row - 1) else row).
Proof.
  apply (refresh_mask_depot_fallback (demo_self 4 false close_instance_0)
           demo_up_station 2 demo_state
           [[0; 1; 1]] (take 1 (demo_dyns !!! 1%nat)) [[0; 1; 1]]).
  - lia.
  - reflexivity.
  - reflexivity.
  - reflexivity.
  - repeat constructor; discriminate.
Defined.

(** ** Construction *)

(** C9 does not hold of [Agent_n]: with [Agent_n = 0] and sizes that the
    layers accept the constructor returns the object. *)
Lemma init_accepts_zero_agents :
  ∃ self,
    @__init__ unit unit strict_layers 2 2 2 0 None None keep_masks
      (λ d ptr c a tw, (c, (), tw)) (λ ds c _ _ _, (ds, c)) 1
    = Ok self
    ∧ agent_number self = 0.
Proof. eexists. split; reflexivity. Qed.

Lemma init_validation_witness :
  @__init__ unit unit strict_layers 2 0 2 3 None None keep_masks
    (λ d ptr c a tw, (c, (), tw)) (λ ds c _ _ _, (ds, c)) 1
  = Raise ValueError
  ∧ ∃ self,
      @__init__ unit unit strict_layers 2 2 2 (-1) None None keep_masks
        (λ d ptr c a tw, (c, (), tw)) (λ ds c _ _ _, (ds, c)) 1
      = Ok self
      ∧ agent_number self = -1.
Proof.
  split.
  - apply (init_validation (stop_info := unit) (graph := unit) strict_layers
             2 0 2 3 1 None None keep_masks
             (λ d ptr c a tw, (c, (), tw)) (λ ds c _ _ _, (ds, c))). lia.
  - apply (init_validation (stop_info := unit) (graph := unit) strict_layers
             2 2 2 (-1) 1 None None keep_masks
             (λ d ptr c a tw, (c, (), tw)) (λ ds c _ _ _, (ds, c))).
    + lia.
    + reflexivity.
Defined.

(** ** Cohort extraction *)

Lemma demo_state_ready (j : nat) (qj : list entry) :
  decision_list demo_state !! j = Some qj → extraction_ready j qj demo_state.
Proof.
  destruct j as [|j]; [|done]. intros [= <-]. split; [reflexivity|]. split.
  - intros e He. unfold demo_queue in He.
    repeat (apply elem_of_cons in He as [->|He];
            [eexists; split; [vm_compute; reflexivity|simpl; lia]|]).
    by apply elem_of_nil in He.
  - eexists _, _, _. split; [vm_compute; reflexivity|].
    split; [reflexivity|]. split; [reflexivity|].
    repeat constructor; eexists _, _; (split; [reflexivity|split; reflexivity]).
Qed.

Lemma cohort_is_due_at_minimum_witness :
  ∃ s' tmin,
    cohort_extraction demo_state = Ok s'
    ∧ queue_sorted demo_queue
    ∧ tmin ∈ demo_queue.*1
    ∧ (∀ e, e ∈ demo_queue → tmin ≤ e.1)
    ∧ decision_list s' !! 0%nat = Some (not_due tmin demo_queue)
    ∧ (∀ a, flag_of (decision_mask_dict s') a 0 = Some 1
            ↔ a ∈ (due tmin demo_queue).*2)
    ∧ (length demo_queue - length (not_due tmin demo_queue))%nat
      = length (due tmin demo_queue)
    ∧ (NoDup demo_queue.*2 → NoDup (due tmin demo_queue).*2).
Proof.
  assert (Hs : queue_sorted demo_queue).
  { unfold demo_queue. repeat constructor; simpl; lia. }
  destruct (cohort_is_due_at_minimum demo_state 0 demo_queue) as [Htotal Hspec].
  - reflexivity.
  - discriminate.
  - exact Hs.
  - apply (bool_decide_unpack _). vm_compute. exact I.
  - destruct (Htotal demo_state_ready) as [s' Hx].
    destruct (Hspec s' Hx) as (tmin & H).
    exists s', tmin. split; [exact Hx|]. split; [exact Hs|]. exact H.
Defined.

(** ** The rollout *)

(** Gives the log and the result of a rollout that can be computed. *)
Ltac run_rollout :=
  match goal with
  | |- ∃ lg out, ?r = Ok (lg, out) ∧ _ =>
      let v := eval vm_compute in r in
      match v with
      | Ok (?lg, ?out) => exists lg, out; split; [vm_compute; reflexivity|]
      end
  end.

(** C2 does not hold of the code: in the scenario with two agents and two
    instances, run in evaluation mode, agent 1's sequence for instance 0 has
    three entries, one per tick of the rollout, while its flag for instance
    0 was set in two of the three ticks. *)
Lemma sequence_longer_than_flagged_ticks :
  ∃ lg out,
    demo_forward_log 3 false keep_masks 2 = Ok (lg, out)
    ∧ ∃ seqs row,
        r_tour_idx out !! 1%nat = Some seqs ∧ seqs !! 0%nat = Some row
        ∧ length row = 3%nat ∧ flagged_ticks 1 0 lg = 2%nat
        ∧ length row = length lg
        ∧ length row ≠ flagged_ticks 1 0 lg.
Proof.
  run_rollout. eexists _, _. split; [vm_compute; reflexivity|].
  split; [reflexivity|]. split; [vm_compute; reflexivity|].
  split; [vm_compute; reflexivity|]. split; [vm_compute; reflexivity|].
  vm_compute. discriminate.
Qed.

Lemma tour_length_is_acted_ticks_witness :
  ∃ lg out,
    demo_forward_log 3 false keep_masks 2 = Ok (lg, out)
    ∧ ∃ seqs,
        r_tour_idx out !! 1%nat = Some seqs
        ∧ (∀ i row, seqs !! i = Some row → length row = acted_ticks 1 lg)
        ∧ ∃ logps, r_tour_logp out !! 1%nat = Some logps
            ∧ ∀ i row, logps !! i = Some row → length row = acted_ticks 1 lg.
Proof.
  run_rollout. eexists. split; [vm_compute; reflexivity|].
  eapply (tour_length_is_acted_ticks (demo_self 3 false keep_masks) demo_net
            (demo_static 2) () demo_up_station demo_all_station
            (take 2 <$> demo_dyns) demo_records).
  - vm_compute. reflexivity.
  - vm_compute. reflexivity.
Defined.

(** C3 at a fleet of fewer than ten agents. With [Agent_n = 4] (agents 1
    to 3) and a [mask_start] that retires each agent, the activity masks of
    all three agents are zero from the end of the first tick on; the loop
    does not stop for that: it runs its three ticks, the step cap.  The sum
    tested at line 393 is over the ten tensors [agent_mask1] ..
    [agent_mask10], and those of the agents outside the fleet keep their
    initial ones. *)
Theorem idle_fleet_runs_to_the_cap :
  ∃ lg out,
    demo_forward_log 4 false retire_agent 1 = Ok (lg, out)
    ∧ max_steps (demo_self 4 false retire_agent) (demo_static 1) = 3%nat
    ∧ length lg = 3%nat
    ∧ (∀ e, e ∈ lg → take 3 (agent_mask e.2) = replicate 3 [[0; 0; 0]])
    ∧ (∀ e, e ∈ lg → byte_any (mask_judge e.2) = true).
Proof.
  run_rollout. split; [reflexivity|]. split; [reflexivity|].
  split; intros e He; repeat (apply elem_of_cons in He as [->|He]; [vm_compute; reflexivity|]);
    by apply elem_of_nil in He.
Qed.

Lemma returned_agents_below_agent_number_witness :
  ∃ out,
    forward (demo_self 3 false keep_masks) demo_net (demo_static 2) ()
      demo_up_station demo_all_station (take 2 <$> demo_dyns) demo_records
    = Ok out
    ∧ ∀ a, (is_Some (r_tour_idx out !! a) ↔ (1 ≤ a)%nat ∧ Z.of_nat a < 3)
         ∧ (is_Some (r_tour_logp out !! a) ↔ (1 ≤ a)%nat ∧ Z.of_nat a < 3).
Proof.
  assert (H : ∃ out,
    forward (demo_self 3 false keep_masks) demo_net (demo_static 2) ()
      demo_up_station demo_all_station (take 2 <$> demo_dyns) demo_records
    = Ok out).
  { eexists. vm_compute. reflexivity. }
  destruct H as [out H]. exists out. split; [exact H|].
  exact (returned_agents_below_agent_number (demo_self 3 false keep_masks) demo_net
           (demo_static 2) () demo_up_station demo_all_station
           (take 2 <$> demo_dyns) demo_records out H).
Defined.

(** With [Agent_n = 3] the rollout returns sequences for the agents 1 and
    2 and none for agent 3. *)
Example no_sequence_for_agent_3 :
  (λ out, (dom (r_tour_idx out), dom (r_tour_logp out)))
    <$> (match forward (demo_self 3 false keep_masks) demo_net (demo_static 2) ()
                 demo_up_station demo_all_station (take 2 <$> demo_dyns) demo_records
         with Ok out => Some out | Raise _ => None end)
  = Some ({[1%nat; 2%nat]}, {[1%nat; 2%nat]}).
Proof. vm_compute. reflexivity. Qed.

(** ** One agent's action *)

(** Agent 2 acts while its flag for the instance is 0: agent 1's slice is
    agent 2's afterwards. *)
Lemma broadcast_peers_equal_witness :
  ∃ s' da dj,
    (1 ≤ 2 ≤ 10)%nat
    ∧ agent_block (demo_self 4 false keep_masks) demo_net (demo_static 1) ()
        demo_up_station demo_all_station 0 2 demo_state_flagged = Ok s'
    ∧ dyn s' !! (2 - 1)%nat = Some da
    ∧ dyn s' !! 0%nat = Some dj
    ∧ dims dj = dims da
    ∧ flag_of (decision_mask_dict demo_state_flagged) 2 0 = Some 0
    ∧ slice_1_4 (length demo_up_station) dj = [[[1; 1; 1]; [2; 2; 2]; [2; 2; 2]]]
    ∧ slice_1_4 (length demo_up_station) dj = slice_1_4 (length demo_up_station) da.
Proof.
  assert (H : ∃ s', agent_block (demo_self 4 false keep_masks) demo_net (demo_static 1) ()
                      demo_up_station demo_all_station 0 2 demo_state_flagged = Ok s').
  { eexists. vm_compute. reflexivity. }
  destruct H as [s' H].
  assert (Ha : ∃ da, dyn s' !! (2 - 1)%nat = Some da).
  { vm_compute in H. injection H as <-. eexists. reflexivity. }
  assert (Hj : ∃ dj, dyn s' !! 0%nat = Some dj).
  { vm_compute in H. injection H as <-. eexists. reflexivity. }
  destruct Ha as [da Ha]. destruct Hj as [dj Hj].
  assert (Hd : dims dj = dims da
               ∧ slice_1_4 (length demo_up_station) dj = [[[1; 1; 1]; [2; 2; 2]; [2; 2; 2]]]).
  { vm_compute in H. injection H as <-. vm_compute in Ha, Hj.
    injection Ha as <-. injection Hj as <-. split; reflexivity. }
  destruct Hd as [Hd Hv].
  exists s', da, dj. split; [lia|]. split; [exact H|]. split; [exact Ha|].
  split; [exact Hj|]. split; [exact Hd|]. split; [reflexivity|]. split; [exact Hv|].
  exact (broadcast_peers_equal (demo_self 4 false keep_masks) demo_net (demo_static 1) ()
           demo_up_station demo_all_station 0 2 demo_state_flagged s' 0 da dj
           ltac:(lia) H Ha Hj Hd).
Defined.

Lemma decision_pushed_unless_idle_witness :
  ∃ s',
    (1 ≤ 1 ≤ 10)%nat
    ∧ agent_block (demo_self 4 false keep_masks) demo_net (demo_static 1) ()
        demo_up_station demo_all_station 0 1 demo_state_flagged = Ok s'
    ∧ ∃ idxs ptr da,
        tour_idx s' !! 1%nat = Some (idxs ++ [ptr])
        ∧ dyn s' !! (1 - 1)%nat = Some da
        ∧ length (decision_list s') = length (decision_list demo_state_flagged)
        ∧ ∀ i q, decision_list demo_state_flagged !! i = Some q →
            ∃ p, ptr !! i = Some p
              ∧ (p = 0 → decision_list s' !! i = Some q)
              ∧ (p ≠ 0 →
                 ∃ inst row next_time,
                   da !! i = Some inst ∧ inst !! 10%nat = Some row
                   ∧ row !! 0%nat = Some next_time
                   ∧ decision_list s' !! i = Some (q ++ [(next_time, 1%nat)])).
Proof.
  assert (H : ∃ s', agent_block (demo_self 4 false keep_masks) demo_net (demo_static 1) ()
                      demo_up_station demo_all_station 0 1 demo_state_flagged = Ok s').
  { eexists. vm_compute. reflexivity. }
  destruct H as [s' H]. exists s'. split; [lia|]. split; [exact H|].
  exact (decision_pushed_unless_idle (demo_self 4 false keep_masks) demo_net
           (demo_static 1) () demo_up_station demo_all_station 0 1
           demo_state_flagged s' ltac:(lia) H).
Defined.

(** ** Cohort extraction in the rollout *)

(** C10 does not hold of the agents' current tensors. In the scenario with
    one agent and one instance the agent acts in the first tick and row 10
    of its tensor becomes [[6; 0; 0]]; the cohort extraction of the second
    tick writes [[1; 0; 0]] into row 5, row 10 of the agent's entry in the
    list [dynamic], which is what [update_od] returned in the first tick,
    before the agent acted. *)
Lemma row5_from_stale_dynamic :
  ∃ lg out,
    demo_forward_log 2 false keep_masks 1 = Ok (lg, out)
    ∧ ∃ ids s1 s1',
        lg !! 0%nat = Some (ids, s1)
        ∧ decision_list s1 !! 0%nat = Some [(6, 1%nat)]
        ∧ cohort_extraction
            (set_decision_mask_dict s1
               (reset_flags (demo_self 2 false keep_masks) (demo_static 1)
                  (decision_mask_dict s1)))
          = Ok s1'
        ∧ row_of (dyn s1) 0 0 10 = Some [6; 0; 0]
        ∧ row_of (dynamic s1) 0 0 10 = Some [1; 0; 0]
        ∧ row_of (dyn s1') 0 0 5 = Some [1; 0; 0]
        ∧ row_of (dyn s1') 0 0 5 ≠ row_of (dyn s1) 0 0 10.
Proof.
  run_rollout. eexists _, _, _. split; [reflexivity|].
  split; [reflexivity|]. split; [vm_compute; reflexivity|].
  split; [vm_compute; reflexivity|]. split; [vm_compute; reflexivity|].
  split; [vm_compute; reflexivity|]. vm_compute. discriminate.
Qed.

Lemma cohort_extraction_row5_witness :
  ∃ s' inst,
    cohort_extraction demo_state = Ok s'
    ∧ dyn demo_state !! 1%nat = Some (take 1 (demo_dyns !!! 1%nat))
    ∧ take 1 (demo_dyns !!! 1%nat) !! 0%nat = Some inst
    ∧ dynamic s' = dynamic demo_state
    ∧ (∀ hd tl, decision_list demo_state !! 0%nat = Some (hd :: tl) →
         ∃ src sinst row old row' dk',
           getitem_pred (dynamic demo_state) hd.2 = Ok src
           ∧ src !! 0%nat = Some sinst ∧ sinst !! 10%nat = Some row
           ∧ inst !! 5%nat = Some old
           ∧ expand_list (length old) row = Ok row'
           ∧ (length row = length old → row' = row)
           ∧ dyn s' !! 1%nat = Some dk'
           ∧ dk' !! 0%nat = Some (<[5%nat := row']> inst))
    ∧ (decision_list demo_state !! 0%nat = Some []
       ∨ decision_list demo_state !! 0%nat = None →
         ∃ dk', dyn s' !! 1%nat = Some dk' ∧ dk' !! 0%nat = Some inst).
Proof.
  assert (Hi : ∃ inst, take 1 (demo_dyns !!! 1%nat) !! 0%nat = Some inst).
  { eexists. reflexivity. }
  destruct Hi as [inst Hi].
  assert (Hk : dyn demo_state !! 1%nat = Some (take 1 (demo_dyns !!! 1%nat))).
  { reflexivity. }
  destruct (cohort_extraction_row5 demo_state 0 1
              (take 1 (demo_dyns !!! 1%nat)) inst Hk Hi) as [Htotal Hspec].
  destruct (Htotal demo_state_ready) as [s' Hx].
  exists s', inst. split; [exact Hx|]. split; [exact Hk|]. split; [exact Hi|].
  exact (Hspec s' Hx).
Defined.

(** * Further properties of the rollout *)

(** ** Before the first tick *)

Lemma mapM_res_raise {A B : Type} (f : A → res B) (e : exn) (l : list A) :
  (∀ x, x ∈ l → (∃ y, f x = Ok y) ∨ f x = Raise e) →
  (∃ x, x ∈ l ∧ f x = Raise e) →
  mapM_res f l = Raise e.
Proof.
  induction l as [|x l IH]; intros Hall (z & Hz & Hfz); simpl.
  - by apply elem_of_nil in Hz.
  - destruct (Hall x) as [[y Hy]| ->]; [left| |done].
    rewrite Hy. simpl. rewrite IH; [done| |].
    + intros w Hw. apply Hall. by right.
    + apply elem_of_cons in Hz as [->|Hz]; [congruence|eauto].
Qed.

Lemma mapM_res_only {A B : Type} (f : A → res B) (e : exn) (l : list A) :
  (∀ x, x ∈ l → (∃ y, f x = Ok y) ∨ f x = Raise e) →
  (∃ l', mapM_res f l = Ok l') ∨ mapM_res f l = Raise e.
Proof.
  induction l as [|x l IH]; intros Hall; simpl; [eauto|].
  destruct (Hall x) as [[y Hy]| ->]; [left| |by right].
  rewrite Hy. simpl. destruct IH as [[l' ->]| ->]; simpl; eauto.
  intros w Hw. apply Hall. by right.
Qed.

Lemma getitem_only {A : Type} (l : list A) (i : nat) :
  (∃ x, getitem l i = Ok x) ∨ getitem l i = Raise IndexError.
Proof. unfold getitem. destruct (l !! i); eauto. Qed.

Lemma sublist_StronglySorted {A : Type} (R : relation A) (l k : list A) :
  l `sublist_of` k → StronglySorted R k → StronglySorted R l.
Proof.
  induction 1 as [|x l k Hlk IH|x l k _ IH]; intros Hk; [done| |].
  - apply StronglySorted_cons in Hk as [Hx Hk]. apply StronglySorted_cons.
    split; [|by apply IH]. rewrite Forall_forall in Hx. apply Forall_forall.
    intros y Hy. apply Hx. by eapply elem_of_sublist.
  - apply StronglySorted_cons in Hk as [_ Hk]. by apply IH.
Qed.

Lemma seq_StronglySorted (j n : nat) : StronglySorted lt (seq j n).
Proof.
  revert j. induction n as [|n IH]; intros j; simpl; [constructor|].
  apply StronglySorted_cons. split; [|apply IH].
  apply Forall_forall. intros x Hx%elem_of_seq. lia.
Qed.

Section Start.
Context {stop_info graph : Type}.
Variable self : @MA_CB_RP_Major stop_info graph.
Variable net : oracle.
Variable static : static_tensor.
Variable travel_time_G : graph.
Variables up_station all_station : list Z.

Abbreviation initial_state' := (initial_state self static up_station all_station).
Abbreviation forward' :=
  (forward self net static travel_time_G up_station all_station).
Abbreviation forward_log' :=
  (forward_log self net static travel_time_G up_station all_station).

(** What an agent's entry of the first queue is. *)
Lemma initial_entry_Ok (ds : list tensor3) (ns a_idx : nat) (e : entry) :
  (d ← getitem ds (a_idx - 1);
   inst ← getitem d ns;
   row ← getitem inst 7;
   time ← getitem row 0;
   Ok (time, a_idx)) = Ok e →
  e.2 = a_idx ∧ start_time ds a_idx ns = Some e.1.
Proof.
  intros H.
  apply bind_Ok in H as (d & Hd & H). apply bind_Ok in H as (inst & Hi & H).
  apply bind_Ok in H as (row & Hr & H). apply bind_Ok in H as (time & Ht & H).
  injection H as <-. inv_items. simpl. split; [done|].
  unfold start_time, entry_at. by rewrite Hd, Hi, Hr.
Qed.

Lemma initial_entry_only (ds : list tensor3) (ns a_idx : nat) :
  (∃ e, (d ← getitem ds (a_idx - 1);
         inst ← getitem d ns;
         row ← getitem inst 7;
         time ← getitem row 0;
         Ok (time, a_idx)) = Ok e)
  ∨ (d ← getitem ds (a_idx - 1);
     inst ← getitem d ns;
     row ← getitem inst 7;
     time ← getitem row 0;
     Ok (time, a_idx)) = Raise IndexError.
Proof.
  destruct (getitem_only ds (a_idx - 1)) as [[d ->]| ->]; simpl; [|by right].
  destruct (getitem_only d ns) as [[inst ->]| ->]; simpl; [|by right].
  destruct (getitem_only inst 7) as [[row ->]| ->]; simpl; [|by right].
  destruct (getitem_only row 0) as [[time ->]| ->]; simpl; [eauto|by right].
Qed.

Lemma initial_queue_Ok (ds : list tensor3) (ns : nat) (q : list entry) :
  initial_queue self ds ns = Ok q →
  ∃ q0, q = sort_queue q0
        ∧ q0.*2 = py_range 1 (agent_number self)
        ∧ ∀ e, e ∈ q0 → start_time ds e.2 ns = Some e.1.
Proof.
  unfold initial_queue. intros H. apply bind_Ok in H as (q0 & H0 & H).
  injection H as <-. exists q0. split; [done|].
  apply mapM_res_Forall2 in H0. revert H0.
  generalize (py_range 1 (agent_number self)) as l. intros l.
  induction 1 as [|a e l q0 He _ [IH1 IH2]]; [split; [done|by intros ? ?%elem_of_nil]|].
  apply initial_entry_Ok in He as [He1 He2]. split.
  - rewrite fmap_cons. by f_equal.
  - intros e' [->|Hin]%elem_of_cons; [by rewrite He1|by apply IH2].
Qed.

Lemma initial_queue_only (ds : list tensor3) (ns : nat) :
  (∃ q, initial_queue self ds ns = Ok q)
  ∨ initial_queue self ds ns = Raise IndexError.
Proof.
  unfold initial_queue.
  destruct (mapM_res_only (λ a_idx,
      d ← getitem ds (a_idx - 1);
      inst ← getitem d ns;
      row ← getitem inst 7;
      time ← getitem row 0;
      Ok (time, a_idx)) IndexError (py_range 1 (agent_number self)))
    as [[q0 ->]| ->]; simpl; eauto.
  intros a _. apply initial_entry_only.
Qed.

Lemma initial_state_Ok (ds : list tensor3) (rs : records_t) (s0 : state) :
  initial_state' ds rs = Ok s0 →
  mapM_res (initial_queue self ds) (seq 0 (batch_size static)) = Ok (decision_list s0)
  ∧ sequence_size static ≠ 0%nat ∧ length all_station ≠ 0%nat
  ∧ dyn s0 = ds ∧ dynamic s0 = ds
  ∧ mask s0 = replicate 10 (replicate (batch_size static)
                              (mask_row0 up_station (sequence_size static)))
  ∧ agent_mask s0 = replicate 10 (replicate (batch_size static)
                                    (agent_mask_row0 (sequence_size static)))
  ∧ tour_idx s0 = foldl (λ d a_id, <[a_id := []]> d) ∅ (py_range 1 (agent_number self))
  ∧ tour_idx_dict s0
    = foldl (λ d a_id, <[a_id := replicate (batch_size static) []]> d) ∅
        (py_range 1 (agent_number self)).
Proof.
  unfold initial_state. intros H. apply bind_Ok in H as (dl & Hdl & H).
  apply bind_Ok in H as (? & HS & H). apply bind_Ok in H as (? & HA & H).
  injection H as <-. simpl. repeat split; try done.
  - intros Hz. rewrite decide_True in HS by done. discriminate.
  - intros Hz. rewrite decide_True in HA by done. discriminate.
Qed.

(** X1. Before the first tick every instance has a queue, and the queue holds
    every agent of [range(1, Agent_n)] once, at the time in row 7, column 0
    of its tensor for the instance, in ascending order of time; agents that
    start at one time are in ascending order of their numbers. *)
Theorem initial_queue_holds_every_agent (ds : list tensor3) (rs : records_t)
    (s0 : state) :
  initial_state' ds rs = Ok s0 →
  length (decision_list s0) = batch_size static
  ∧ ∀ i q, decision_list s0 !! i = Some q →
      queue_sorted q
      ∧ q.*2 ≡ₚ py_range 1 (agent_number self)
      ∧ (∀ e, e ∈ q → start_time ds e.2 i = Some e.1)
      ∧ ∀ t, StronglySorted lt (due t q).*2.
Proof.
  intros (Hdl & _)%initial_state_Ok. split.
  { apply mapM_res_length in Hdl. by rewrite length_seq in Hdl. }
  intros i q Hq. apply mapM_res_Forall2 in Hdl.
  destruct (Forall2_lookup_r _ _ _ _ _ Hdl Hq) as (ns & Hns & Hiq).
  apply lookup_seq in Hns as [-> _]. simpl in Hiq.
  apply initial_queue_Ok in Hiq as (q0 & -> & Hids & Htimes).
  split; [apply sort_queue_sorted|]. split; [|split].
  - by rewrite sort_queue_perm, Hids.
  - intros e He. apply Htimes. by rewrite <-(sort_queue_perm q0).
  - intros t. rewrite sort_queue_stable.
    eapply sublist_StronglySorted; [|apply (seq_StronglySorted 1)].
    unfold py_range in Hids. rewrite <-Hids.
    apply fmap_sublist, sublist_filter.
Qed.

(** X2. The tensors of a batch without a station column, and the demand mask
    of an empty list of stations, have no column 0 to close: [forward]
    raises [IndexError] before the first tick. *)
Theorem forward_needs_a_station (ds : list tensor3) (rs : records_t) :
  sequence_size static = 0%nat ∨ length all_station = 0%nat →
  forward self net static travel_time_G up_station all_station ds rs = Raise IndexError.
Proof.
  intros Hz. unfold forward, forward_log.
  assert (initial_state' ds rs = Raise IndexError) as ->; [|done].
  unfold initial_state.
  destruct (mapM_res_only (initial_queue self ds) IndexError
              (seq 0 (batch_size static))) as [[dl ->]| ->]; simpl; [| |done].
  { intros ns _. apply initial_queue_only. }
  destruct Hz as [Hz|Hz].
  - by destruct (decide (sequence_size static = 0%nat)).
  - destruct (decide (sequence_size static = 0%nat)); simpl; [done|].
    by destruct (decide (length all_station = 0%nat)).
Qed.
End Start.

(** ** The rollout as a whole *)

Lemma filter_length_le {A : Type} (P : A → Prop) `{∀ x, Decision (P x)} (l : list A) :
  (length (filter P l) ≤ length l)%nat.
Proof. apply sublist_length, sublist_filter. Qed.

Lemma byte_any_replicate_zero (n k : nat) : byte_any (replicate n (replicate k 0)) = false.
Proof.
  unfold byte_any. induction n as [|n IH]; simpl; [done|]. rewrite IH, orb_false_r.
  clear. induction k as [|k IH]; simpl; [done|]. by rewrite IH.
Qed.

Lemma tensor2_add_zero (n k : nat) :
  tensor2_add (replicate n (replicate k 0)) (replicate n (replicate k 0))
  = replicate n (replicate k 0).
Proof. unfold tensor2_add. by rewrite !zip_with_replicate. Qed.

Section Whole.
Context {stop_info graph : Type}.
Variable self : @MA_CB_RP_Major stop_info graph.
Variable net : oracle.
Variable static : static_tensor.
Variable travel_time_G : graph.
Variables up_station all_station : list Z.

Abbreviation initial_state'' := (initial_state self static up_station all_station).
Abbreviation tick'' := (tick self net static travel_time_G up_station all_station).
Abbreviation run'' := (run self net static travel_time_G up_station all_station).
Abbreviation forward'' :=
  (forward self net static travel_time_G up_station all_station).
Abbreviation forward_log'' :=
  (forward_log self net static travel_time_G up_station all_station).

Lemma forward_log_Ok (ds : list tensor3) (rs : records_t)
    (lg : list (list nat * state)) (out : rollout) :
  forward_log'' ds rs = Ok (lg, out) →
  ∃ s0 s1,
    initial_state'' ds rs = Ok s0
    ∧ run'' (max_steps self static) 0 s0 = Ok (lg, s1)
    ∧ finish self s1 = Ok out.
Proof.
  unfold forward_log. intros H.
  apply bind_Ok in H as (s0 & H0 & H). apply bind_Ok in H as ([lg' s1] & Hrun & H).
  simpl in H. apply bind_Ok in H as (out' & Hfin & H). injection H as -> ->. eauto.
Qed.

Lemma forward_Ok (ds : list tensor3) (rs : records_t) (out : rollout) :
  forward'' ds rs = Ok out → ∃ lg, forward_log'' ds rs = Ok (lg, out).
Proof.
  unfold forward. intros H. apply bind_Ok in H as ([lg out'] & H & Hout).
  injection Hout as ->. eauto.
Qed.

Lemma run_length (n : nat) : ∀ t s lg s',
  run'' n t s = Ok (lg, s') → (length lg ≤ n)%nat.
Proof.
  induction n as [|n IH]; intros t s lg s' H; simpl in H.
  - injection H as <- _. done.
  - apply bind_Ok in H as (r & Ht & H). destruct r as [s1|s1 ids].
    + injection H as <- _. simpl. lia.
    + apply bind_Ok in H as ([lg1 s1'] & Hrun & H). injection H as <- _.
      simpl. apply IH in Hrun. lia.
Qed.

Lemma block_ticks_acted (a : nat) (lg : list (list nat * state)) :
  (block_ticks a lg ≤ acted_ticks a lg)%nat
  ∧ ((1 ≤ a ≤ 10)%nat → block_ticks a lg = acted_ticks a lg)
  ∧ (¬ (1 ≤ a ≤ 10)%nat → block_ticks a lg = 0%nat).
Proof.
  unfold block_ticks, acted_ticks. induction lg as [|e lg (IH1 & IH2 & IH3)]; [done|].
  rewrite !filter_cons. destruct (decide (a ∈ e.1)) as [Hin|Hin].
  - destruct (decide (1 ≤ a ≤ 10)%nat) as [Hb|Hb].
    + rewrite decide_True by done. simpl. split; [lia|]. split; [intros _|done].
      by rewrite IH2.
    + rewrite decide_False by (by intros [_ ?]). simpl.
      split; [lia|]. split; [done|]. intros _. by apply IH3.
  - rewrite decide_False by (by intros [? _]). done.
Qed.

(** What the rollout has recorded for an agent of [range(1, agent_number)]
    when [finish] returns. *)
Lemma finished_columns (ds : list tensor3) (rs : records_t) (n : nat)
    (s0 s1 : state) (lg : list (list nat * state)) (out : rollout) (a : nat) :
  initial_state'' ds rs = Ok s0 →
  run'' n 0 s0 = Ok (lg, s1) →
  finish self s1 = Ok out →
  a ∈ py_range 1 (agent_number self) →
  ∃ cols seqs cols' seqs',
    tour_idx s1 !! a = Some cols ∧ cat_dim1 cols = Ok seqs
    ∧ tour_logp s1 !! a = Some cols' ∧ cat_dim1 cols' = Ok seqs'
    ∧ r_tour_idx out !! a = Some seqs ∧ r_tour_logp out !! a = Some seqs'
    ∧ length cols = acted_ticks a lg ∧ length cols' = acted_ticks a lg
    ∧ (1 ≤ a ≤ 10)%nat ∧ (1 ≤ acted_ticks a lg)%nat.
Proof.
  intros H0 Hrun Hfin Ha.
  unfold finish in Hfin. apply bind_Ok in Hfin as (d & Hloop & Hfin).
  injection Hfin as <-. simpl.
  destruct (finish_loop _ _ _ _ Hloop a) as [Hin _].
  destruct (Hin Ha) as (cols & seqs & cols' & seqs' & Hc & Hcat & Hc' & Hcat' & Hd & Hd').
  exists cols, seqs, cols', seqs'. repeat (split; [done|]).
  pose proof (run_tour_lengths _ _ _ _ _ _ _ _ _ _ _ a Hrun) as Hlen.
  rewrite (initial_state_tours _ _ _ _ _ _ _ a H0), decide_True in Hlen by done.
  unfold tour_lengths, grow in Hlen. rewrite Hc, Hc' in Hlen. simpl in Hlen.
  injection Hlen as Hl Hl'.
  destruct (block_ticks_acted a lg) as (_ & Hyes & Hno).
  assert (1 ≤ a ≤ 10)%nat as Hb.
  { destruct (decide (1 ≤ a ≤ 10)%nat) as [|Hb]; [done|]. exfalso.
    rewrite (Hno Hb) in Hl. apply cat_dim1_Ok in Hcat as [Hne _].
    destruct cols; [done|]. simpl in Hl. lia. }
  rewrite (Hyes Hb) in Hl, Hl'. apply cat_dim1_Ok in Hcat as [Hne _].
  repeat split; try lia. destruct cols; [done|]. simpl in Hl. lia.
Qed.

(** X3. [forward] returns only when every agent of [range(1, agent_number)]
    has a block of its own in the code and acted in at least one tick:
    [torch.cat] refuses the empty list of columns of an agent that never
    acted. *)
Theorem forward_returns_only_if_every_agent_acted (ds : list tensor3)
    (rs : records_t) (lg : list (list nat * state)) (out : rollout) (a : nat) :
  forward_log'' ds rs = Ok (lg, out) →
  (1 ≤ a)%nat → Z.of_nat a < agent_number self →
  (a ≤ 10)%nat ∧ (1 ≤ acted_ticks a lg)%nat.
Proof.
  intros (s0 & s1 & H0 & Hrun & Hfin)%forward_log_Ok Ha1 Ha2.
  destruct (finished_columns _ _ _ _ _ _ _ a H0 Hrun Hfin)
    as (? & ? & ? & ? & _ & _ & _ & _ & _ & _ & _ & _ & ? & ?).
  - by apply elem_of_py_range.
  - split; [lia|done].
Qed.

(** X4. The code has ten agents: with [Agent_n] above 11 [forward] raises
    whatever it is given, and on a batch that is not empty it raises
    [IndexError] at once, when the first queue reads the eleventh of the
    ten tensors. *)
Theorem forward_rejects_more_than_ten_agents (ds : list tensor3) (rs : records_t) :
  12 ≤ agent_number self →
  (∃ e, forward self net static travel_time_G up_station all_station ds rs = Raise e)
  ∧ (length ds = 10%nat → (1 ≤ batch_size static)%nat →
     forward self net static travel_time_G up_station all_station ds rs = Raise IndexError).
Proof.
  intros HN. split.
  - destruct (forward'' ds rs) as [out|e] eqn:Hf; [|eauto]. exfalso.
    apply forward_Ok in Hf as (lg & (s0 & s1 & H0 & Hrun & Hfin)%forward_log_Ok).
    destruct (finished_columns _ _ _ _ _ _ _ 11%nat H0 Hrun Hfin)
      as (? & ? & ? & ? & _ & _ & _ & _ & _ & _ & _ & _ & ? & _).
    + apply elem_of_py_range. lia.
    + lia.
  - intros Hlen HB. unfold forward, forward_log.
    assert (initial_state'' ds rs = Raise IndexError) as ->; [|done].
    unfold initial_state.
    rewrite (mapM_res_raise (initial_queue self ds) IndexError); [done| |].
    + intros ns _. apply initial_queue_only.
    + exists 0%nat. split; [apply elem_of_seq; lia|].
      unfold initial_queue.
      rewrite (mapM_res_raise _ IndexError); [done| |].
      * intros a _. apply initial_entry_only.
      * exists 11%nat. split; [apply elem_of_py_range; lia|].
        unfold getitem. simpl. rewrite lookup_ge_None_2 by lia. done.
Qed.

(** X5. The loop runs at most [max_steps] ticks, so no returned sequence is
    longer than that: the number of stations when [mask_fn] is [None],
    1000 otherwise. *)
Theorem sequences_within_step_cap (ds : list tensor3) (rs : records_t)
    (lg : list (list nat * state)) (out : rollout) :
  forward_log'' ds rs = Ok (lg, out) →
  (length lg ≤ max_steps self static)%nat
  ∧ (max_steps self static
     = if mask_fn self is None then sequence_size static else 1000%nat)
  ∧ ∀ a seqs logps i,
      r_tour_idx out !! a = Some seqs → r_tour_logp out !! a = Some logps →
      (∀ row, seqs !! i = Some row → (length row ≤ max_steps self static)%nat)
      ∧ (∀ row, logps !! i = Some row → (length row ≤ max_steps self static)%nat).
Proof.
  intros (s0 & s1 & H0 & Hrun & Hfin)%forward_log_Ok.
  pose proof (run_length _ _ _ _ _ Hrun) as Hcap.
  split; [done|]. split; [unfold max_steps; by destruct (mask_fn self)|].
  intros a seqs logps i Hseqs Hlogps.
  destruct (decide (a ∈ py_range 1 (agent_number self))) as [Ha|Ha].
  - destruct (finished_columns _ _ _ _ _ _ _ a H0 Hrun Hfin Ha)
      as (cols & seqs0 & cols' & logps0 & _ & Hcat & _ & Hcat' & Hd & Hd' & Hl & Hl' & _).
    rewrite Hseqs in Hd. injection Hd as <-.
    rewrite Hlogps in Hd'. injection Hd' as <-.
    apply cat_dim1_Ok in Hcat as [_ Hrows]. apply cat_dim1_Ok in Hcat' as [_ Hrows'].
    pose proof (filter_length_le (λ e : list nat * state, a ∈ e.1) lg) as Hle.
    unfold acted_ticks in Hl, Hl'.
    split; intros row Hrow.
    + rewrite (Hrows _ _ Hrow). lia.
    + rewrite (Hrows' _ _ Hrow). lia.
  - exfalso. unfold finish in Hfin. apply bind_Ok in Hfin as (d & Hloop & Hfin).
    injection Hfin as <-. simpl in Hseqs.
    destruct (finish_loop _ _ _ _ Hloop a) as [_ Hout].
    destruct (Hout Ha) as [Hnone _]. simpl in Hnone.
    rewrite lookup_empty in Hnone. congruence.
Qed.

(** X6. Every queue is in ascending order of time whenever a tick starts:
    before the first tick and after every tick that ran to its end. *)
Theorem queues_sorted_at_every_tick (ds : list tensor3) (rs : records_t)
    (n : nat) (s0 s1 : state) (lg : list (list nat * state)) :
  initial_state'' ds rs = Ok s0 →
  run'' n 0 s0 = Ok (lg, s1) →
  Forall (λ s, Forall queue_sorted (decision_list s)) (s0 :: lg.*2).
Proof.
  intros H0 Hrun. constructor; [by eapply initial_queues_sorted|].
  apply initial_state_invariant in H0.
  apply (run_invariant _ _ _ _ _ _ _ _ _ _ _ Hrun) in H0.
  apply Forall_fmap. eapply Forall_impl; [exact H0|]. by intros e [? _].
Qed.

(** X7. A tick that returns ends by [break] exactly when all of the ten
    tensors [agent_mask1] .. [agent_mask10], as they are when the tick
    starts, are zero everywhere (for masks of one shape with entries 0 or
    1); the break comes after the cohort extraction and [update_od], and
    before any agent acts: nothing is recorded in that tick. *)
Theorem tick_breaks_when_ten_masks_are_zero (t : nat) (s : state) (r : tick_result)
    (am : tensor2) (ams : list tensor2) :
  agent_mask s = am :: ams →
  Forall is_01 (am :: ams) → Forall (same_shape2 am) ams →
  (length ams < 255)%nat →
  tick'' t s = Ok r →
  ((∃ s', r = Break s') ↔ Forall all_zero (agent_mask s))
  ∧ ∀ s', r = Break s' → steady s' = steady s.
Proof.
  intros Hs H01 Hshape Hlen Ht. split.
  - rewrite <-(mask_judge_zero_iff s am ams) by done. by eapply tick_break_iff.
  - intros s' ->. unfold tick in Ht.
    apply bind_Ok in Ht as (s1 & H1 & Ht). apply bind_Ok in Ht as (s2 & H2 & Ht).
    apply cohort_extraction_steady in H1. apply world_update_steady in H2.
    destruct (negb (byte_any (mask_judge s2))).
    + injection Ht as <-. by rewrite H2, H1.
    + apply bind_Ok in Ht as (r' & _ & Ht). apply bind_Ok in Ht as (s3 & _ & Ht).
      discriminate.
Qed.

Lemma run_breaks_at_once (n t : nat) (s s' : state) (lg : list (list nat * state)) :
  byte_any (mask_judge s) = false →
  run'' n t s = Ok (lg, s') → lg = [].
Proof.
  intros Hz H. destruct n as [|n]; simpl in H; [by injection H as <- _|].
  apply bind_Ok in H as (r & Ht & H).
  apply tick_break_iff in Ht as [_ Hbr]. destruct (Hbr Hz) as [s1 ->].
  by injection H as <- _.
Qed.

(** X8. With one station only (the depot), or with an empty batch, the test of
    the activity masks breaks the loop in its first tick, before any agent
    has acted: [forward] raises for every fleet that is not empty. *)
Theorem forward_raises_when_first_tick_breaks (ds : list tensor3) (rs : records_t) :
  2 ≤ agent_number self →
  sequence_size static = 1%nat ∨ batch_size static = 0%nat →
  ∃ e, forward self net static travel_time_G up_station all_station ds rs = Raise e.
Proof.
  intros HN Hedge.
  destruct (forward'' ds rs) as [out|e] eqn:Hf; [|eauto]. exfalso.
  apply forward_Ok in Hf as (lg & (s0 & s1 & H0 & Hrun & Hfin)%forward_log_Ok).
  destruct (finished_columns _ _ _ _ _ _ _ 1%nat H0 Hrun Hfin)
    as (? & ? & ? & ? & _ & _ & _ & _ & _ & _ & _ & _ & _ & Hact).
  { apply elem_of_py_range. lia. }
  apply run_breaks_at_once in Hrun; [subst lg; unfold acted_ticks in Hact; simpl in Hact; lia|].
  apply initial_state_Ok in H0 as (_ & _ & _ & _ & _ & _ & Ham & _).
  unfold mask_judge. rewrite Ham.
  assert (agent_mask_row0 (sequence_size static) = replicate (sequence_size static - 1 + 1) 0
          ∨ batch_size static = 0%nat) as [Hrow|HB].
  { destruct Hedge as [->|?]; [left; reflexivity|by right]. }
  - rewrite Hrow. simpl. rewrite !tensor2_add_zero. apply byte_any_replicate_zero.
  - rewrite HB. reflexivity.
Qed.
End Whole.

(** ** Action selection in training mode *)

Lemma gather_Ok (m : tensor2) (ptr g : tensor1) :
  gather m ptr = Ok g →
  ∀ i p, ptr !! i = Some p → (i < length m)%nat →
    ∃ row x, m !! i = Some row ∧ 0 ≤ p ∧ row !! Z.to_nat p = Some x ∧ g !! i = Some x.
Proof.
  unfold gather. intros H i p Hp Hi.
  destruct (lookup_lt_is_Some_2 m i Hi) as [row Hrow].
  apply mapM_res_Forall2 in H.
  destruct (Forall2_lookup_l _ _ _ i (row, p) H) as (x & Hx & Hf).
  { apply lookup_zip_with_Some. eauto. }
  simpl in Hf. case_decide; [|done].
  destruct (row !! Z.to_nat p) as [y|] eqn:Hy; [|done].
  injection Hf as <-. eauto 10.
Qed.

Lemma byte_all1_lookup (g : tensor1) (i : nat) (x : Z) :
  byte_all1 g = true → g !! i = Some x → byte x ≠ 0.
Proof.
  unfold byte_all1. intros Hall Hx.
  rewrite forallb_forall in Hall. apply list_elem_of_lookup_2, list_elem_of_In in Hx.
  apply Hall in Hx. apply negb_true_iff, Z.eqb_neq in Hx. done.
Qed.

Lemma byte_all1_false (g : tensor1) :
  byte_all1 g = false → ∃ i x, g !! i = Some x ∧ byte x = 0.
Proof.
  unfold byte_all1. induction g as [|y g IH]; simpl; [done|].
  intros [Hy|Hg]%andb_false_iff.
  - exists 0%nat, y. split; [done|]. by apply negb_false_iff, Z.eqb_eq in Hy.
  - destruct (IH Hg) as (i & x & Hi & Hx). by exists (S i), x.
Qed.

(** The sampling loop returns the first draw from [k] on that is valid. *)
Lemma sample_valid_Ok (draw : nat → tensor1) (m : tensor2) (fuel : nat) :
  ∀ k ptr,
    sample_valid fuel draw m k = Ok ptr →
    ∃ j g,
      (j < fuel)%nat ∧ ptr = draw (k + j)%nat
      ∧ gather m ptr = Ok g ∧ byte_all1 g = true
      ∧ ∀ j', (j' < j)%nat →
          ∃ g', gather m (draw (k + j')%nat) = Ok g' ∧ byte_all1 g' = false.
Proof.
  induction fuel as [|fuel IH]; intros k ptr H; simpl in H; [discriminate|].
  apply bind_Ok in H as (g & Hg & H). destruct (byte_all1 g) eqn:Hall.
  - injection H as <-. exists 0%nat, g. rewrite Nat.add_0_r.
    split; [lia|]. repeat split; try done. intros j' ?. lia.
  - apply IH in H as (j & g1 & Hj & Hptr & Hg1 & Hall1 & Hbefore).
    exists (S j), g1. split; [lia|].
    replace (k + S j)%nat with (S k + j)%nat by lia. repeat split; try done.
    intros [|j'] Hj'.
    + rewrite Nat.add_0_r. eauto.
    + replace (k + S j')%nat with (S k + j')%nat by lia. apply Hbefore. lia.
Qed.

Section Training.
Context {stop_info graph : Type}.
Variable self : @MA_CB_RP_Major stop_info graph.
Variable net : oracle.
Variable static : static_tensor.

(** X9. In training mode, with a mask that has a row for every instance: the
    recorded indices and log-probabilities are those of the first draw in
    which every instance's index is within its mask row and has a non-zero
    byte there, both multiplied by the scheduling flags; every draw before
    it was rejected as a whole. *)
Theorem training_selection_is_first_valid_draw (t a_n : nat) (m : tensor2)
    (flags ptr logp : list Z) :
  training self = true →
  length m = batch_size static →
  select_action self net static t a_n m flags = Ok (ptr, logp) →
  ∃ k raw,
    (k < draws net)%nat
    ∧ raw = sample net t a_n k <$> seq 0 (batch_size static)
    ∧ ptr = zip_with Z.mul raw flags
    ∧ logp = zip_with Z.mul (imap (log_prob net t a_n) raw) flags
    ∧ (∀ i, (i < batch_size static)%nat →
         ∃ p row x, raw !! i = Some p ∧ m !! i = Some row ∧ 0 ≤ p
                    ∧ row !! Z.to_nat p = Some x ∧ byte x ≠ 0)
    ∧ ∀ k', (k' < k)%nat →
        ∃ i p, (sample net t a_n k' <$> seq 0 (batch_size static)) !! i = Some p
               ∧ ∀ row x, m !! i = Some row → 0 ≤ p →
                          row !! Z.to_nat p = Some x → byte x = 0.
Proof.
  intros Htr Hm. unfold select_action. rewrite Htr. intros H.
  apply bind_Ok in H as (raw & Hs & H). injection H as <- <-.
  apply sample_valid_Ok in Hs as (k & g & Hk & -> & Hg & Hall & Hbefore).
  simpl in *. exists k, (sample net t a_n k <$> seq 0 (batch_size static)).
  repeat (split; [done|]). split.
  - intros i Hi.
    destruct (lookup_lt_is_Some_2 (sample net t a_n k <$> seq 0 (batch_size static)) i)
      as [p Hp]; [by rewrite length_fmap, length_seq|].
    destruct (gather_Ok _ _ _ Hg i p Hp) as (row & x & Hrow & Hp0 & Hx & Hgx); [lia|].
    exists p, row, x. repeat split; try done. by eapply byte_all1_lookup.
  - intros k' Hk'. destruct (Hbefore k' Hk') as (g' & Hg' & Hno).
    apply byte_all1_false in Hno as (i & x & Hi & Hx0).
    apply mapM_res_Forall2 in Hg'.
    destruct (Forall2_lookup_r _ _ _ _ _ Hg' Hi) as ([row p] & Hrp & Hf).
    apply lookup_zip_with_Some in Hrp as (row' & p' & [= <- <-] & Hrow & Hp).
    exists i, p. split; [done|]. intros row0 x0 Hrow0 Hp0 Hx0'.
    rewrite Hrow in Hrow0. injection Hrow0 as <-. simpl in Hf.
    rewrite decide_True in Hf by done. rewrite Hx0' in Hf. injection Hf as ->. done.
Qed.
End Training.

(** ** More on one agent's action *)

(** The loop of [push_tour] from instance [k] on. *)
Lemma push_tour_loop (ptr : tensor1) (n : nat) :
  ∀ k (ts ts' : list (list Z)),
    foldM (λ ts ns1,
        p ← getitem ptr ns1;
        if decide (p ≠ 0) then
          tr ← getitem ts ns1;
          setitem ts ns1 (tr ++ [p])
        else Ok ts)
      ts (seq k n) = Ok ts' →
    length ts' = length ts
    ∧ ∀ i, ((i < k ∨ k + n ≤ i)%nat → ts' !! i = ts !! i)
         ∧ ((k ≤ i < k + n)%nat →
            ∃ p, ptr !! i = Some p
              ∧ (p = 0 → ts' !! i = ts !! i)
              ∧ (p ≠ 0 → ∃ tr, ts !! i = Some tr ∧ ts' !! i = Some (tr ++ [p]))).
Proof.
  induction n as [|n IH]; intros k ts ts' H; simpl in H.
  - injection H as ->. split; [done|]. intros i. split; [done|lia].
  - apply bind_Ok in H as (ts1 & Hstep & H).
    apply IH in H as [Hlen Hrest].
    apply bind_Ok in Hstep as (p & Hp & Hstep). apply getitem_Ok in Hp.
    case_decide as Hp0.
    + apply bind_Ok in Hstep as (tr & Htr & Hstep). apply getitem_Ok in Htr.
      apply setitem_Ok in Hstep as [Hlt ->].
      rewrite length_insert in Hlen. split; [done|].
      intros i. destruct (Hrest i) as [Hout Hin]. split.
      * intros Hi. rewrite Hout by lia. apply list_lookup_insert_ne. lia.
      * intros Hi. destruct (decide (i = k)) as [->|Hne].
        -- exists p. split; [done|]. split; [done|]. intros _.
           exists tr. split; [done|]. rewrite Hout by lia.
           by apply list_lookup_insert_eq.
        -- destruct Hin as (p' & Hp' & Hz & Hnz); [lia|].
           rewrite list_lookup_insert_ne in Hz, Hnz by lia. eauto.
    + injection Hstep as ->. split; [done|].
      intros i. destruct (Hrest i) as [Hout Hin]. split.
      * intros Hi. apply Hout. lia.
      * intros Hi. destruct (decide (i = k)) as [->|Hne].
        -- exists p. split; [done|]. split; [|done]. intros _. apply Hout. lia.
        -- apply Hin. lia.
Qed.

(** Row [r] of an instance after the write of a slice. *)
Lemma write_slice_row (L : nat) (di vi : list (list Z)) (r : nat) :
  length vi = length (take 3 (drop 1 di)) →
  (take 1 di ++ zip_with (λ dr vr, vr ++ drop L dr) (take 3 (drop 1 di)) vi
     ++ drop 4 di) !! r
  = if decide (1 ≤ r ≤ 3)%nat then
      match di !! r, vi !! (r - 1)%nat with
      | Some dr, Some vr => Some (vr ++ drop L dr)
      | _, _ => None
      end
    else di !! r.
Proof.
  intros Hlen.
  destruct di as [|r0 [|r1 [|r2 [|r3 rest]]]]; simpl in Hlen;
    destruct vi as [|v1 [|v2 [|v3 [|v4 vi]]]]; simpl in Hlen; try lia;
    destruct r as [|[|[|[|r]]]]; simpl; try done.
Qed.

Lemma write_slice_frame (L : nat) (dst v : tensor3) :
  dims v = dims (slice_1_4 L dst) →
  dims (write_slice_1_4 L dst v) = dims dst
  ∧ ∀ i r c, (r = 0 ∨ 4 ≤ r ∨ L ≤ c)%nat →
      entry_at (write_slice_1_4 L dst v) i r c = entry_at dst i r c.
Proof.
  unfold dims, slice_1_4, write_slice_1_4, entry_at. revert v.
  induction dst as [|di dst IH]; intros [|vi v]; simpl; try done.
  intros [= Hvi Hv]. destruct (IH v Hv) as [IH1 IH2].
  assert (length vi = length (take 3 (drop 1 di))) as Hlen.
  { apply (f_equal length) in Hvi. by rewrite !length_map in Hvi. }
  assert (∀ r dr vr, di !! r = Some dr → vi !! (r - 1)%nat = Some vr →
            (1 ≤ r ≤ 3)%nat → length vr = (length dr `min` L)%nat) as Hrow.
  { intros r dr vr Hdr Hvr Hr.
    apply (f_equal (λ l, l !! (r - 1)%nat)) in Hvi.
    rewrite !list_lookup_fmap, Hvr in Hvi. simpl in Hvi.
    rewrite lookup_take, lookup_drop in Hvi.
    rewrite decide_True in Hvi by lia.
    replace (1 + (r - 1))%nat with r in Hvi by lia.
    rewrite Hdr in Hvi. simpl in Hvi. injection Hvi as ->.
    rewrite length_take. lia. }
  split.
  - f_equal; [|done]. apply list_eq. intros r.
    rewrite !list_lookup_fmap, (write_slice_row L di vi r Hlen).
    case_decide as Hr; [|done].
    destruct (di !! r) as [dr|] eqn:Hdr; [|done].
    destruct (vi !! (r - 1)%nat) as [vr|] eqn:Hvr.
    + simpl. f_equal. rewrite length_app, length_drop, (Hrow r dr vr); [lia|done..].
    + exfalso. apply lookup_ge_None in Hvr. apply lookup_lt_Some in Hdr.
      rewrite Hlen, length_take, length_drop in Hvr. lia.
  - intros [|i] r c Hout; simpl; [|by apply IH2].
    rewrite (write_slice_row L di vi r Hlen).
    case_decide as Hr; [|done].
    destruct (di !! r) as [dr|] eqn:Hdr; [|done].
    destruct (vi !! (r - 1)%nat) as [vr|] eqn:Hvr.
    + pose proof (Hrow r dr vr Hdr Hvr Hr) as Hl.
      assert (L ≤ c)%nat as Hc by lia.
      destruct (decide (length dr ≤ L)%nat).
      * rewrite drop_ge, app_nil_r by done.
        rewrite !lookup_ge_None_2; [done|lia|lia].
      * rewrite lookup_app_r by lia. rewrite lookup_drop. f_equal. lia.
    + exfalso. apply lookup_ge_None in Hvr. apply lookup_lt_Some in Hdr.
      rewrite Hlen, length_take, length_drop in Hvr. lia.
Qed.

Section AgentMore.
Context {stop_info graph : Type}.
Variable self : @MA_CB_RP_Major stop_info graph.
Variable net : oracle.
Variable static : static_tensor.
Variable travel_time_G : graph.
Variables up_station all_station : list Z.

Abbreviation agent_block'' :=
  (agent_block self net static travel_time_G up_station all_station).

(** Everything an agent's block reads and writes. *)
Lemma agent_block_fields (t a_n : nat) (s s' : state) :
  agent_block'' t a_n s = Ok s' →
  ∃ flags m am ptr logp d d' routes routes' m' am',
    decision_mask_dict s !! a_n = Some flags
    ∧ mask s !! (a_n - 1)%nat = Some m
    ∧ agent_mask s !! (a_n - 1)%nat = Some am
    ∧ select_action self net static t a_n m flags = Ok (ptr, logp)
    ∧ dyn s !! (a_n - 1)%nat = Some d
    ∧ (update_fn self = None → d' = d)
    ∧ broadcast up_station a_n d' (<[(a_n - 1)%nat := d']> (dyn s)) = Ok (dyn s')
    ∧ push_decisions a_n ptr d' (decision_list s) = Ok (decision_list s')
    ∧ tour_idx_dict s !! a_n = Some routes
    ∧ push_tour ptr (length (decision_list s')) routes = Ok routes'
    ∧ tour_idx_dict s' = <[a_n := routes']> (tour_idx_dict s)
    ∧ (m', am') = match mask_fn self with
                  | Some f => f m d' am ptr
                  | None => (m, am)
                  end
    ∧ mask s' = <[(a_n - 1)%nat := m']> (mask s)
    ∧ agent_mask s' = <[(a_n - 1)%nat := am']> (agent_mask s)
    ∧ (∃ idxs, tour_idx s !! a_n = Some idxs
               ∧ tour_idx s' = <[a_n := idxs ++ [ptr]]> (tour_idx s))
    ∧ decision_mask_dict s' = decision_mask_dict s.
Proof.
  unfold agent_block. intros H.
  apply bind_Ok in H as (flags & Hflags & H).
  apply bind_Ok in H as (m & Hm & H).
  apply bind_Ok in H as ([ptr logp] & Hsel & H).
  apply bind_Ok in H as (d & Hd & H).
  destruct (update_tw self d ptr (records s) a_n (tw_mask s)) as [[c1 stop] tw'].
  apply bind_Ok in H as ([d' c2] & Hfn & H).
  apply bind_Ok in H as (ds & Hds & H).
  apply bind_Ok in H as (dl & Hdl & H).
  apply bind_Ok in H as (logps & Hlogps & H).
  apply bind_Ok in H as (idxs & Hidxs & H).
  apply bind_Ok in H as (tours & Htours & H).
  apply bind_Ok in H as (tours' & Htours' & H).
  apply bind_Ok in H as (am & Ham & H).
  destruct (match mask_fn self with Some f => f m d' am ptr | None => (m, am) end)
    as [m' am'] eqn:Hmf.
  injection H as <-. simpl. inv_items.
  exists flags, m, am, ptr, logp, d, d', tours, tours', m', am'.
  repeat (split; [done|]). split.
  { intros Hnone. rewrite Hnone in Hfn. by injection Hfn as <- _. }
  repeat (split; [done|]). split; [eauto|done].
Qed.

Lemma select_action_flag (t a_n : nat) (m : tensor2) (flags ptr logp : list Z)
    (i : nat) (p : Z) :
  select_action self net static t a_n m flags = Ok (ptr, logp) →
  ptr !! i = Some p → p ≠ 0 → ∃ f, flags !! i = Some f ∧ f ≠ 0.
Proof.
  unfold select_action. intros H Hp Hp0.
  destruct (training self).
  - apply bind_Ok in H as (raw & _ & H). injection H as <- _.
    apply lookup_zip_with_Some in Hp as (x & f & -> & _ & Hf).
    exists f. split; [done|]. lia.
  - injection H as <- _.
    apply lookup_zip_with_Some in Hp as (x & f & -> & _ & Hf).
    exists f. split; [done|]. lia.
Qed.

(** X10. An agent that acts while it is not scheduled in an instance (its flag
    for the instance is 0) records index 0 for the instance and leaves the
    instance's queue and its own route for the instance as they are. *)
Theorem unscheduled_instance_is_left_alone (t a_n : nat) (s s' : state) (i : nat) :
  (1 ≤ a_n ≤ 10)%nat →
  agent_block'' t a_n s = Ok s' →
  flag_of (decision_mask_dict s) a_n i = Some 0 →
  (i < length (decision_list s))%nat →
  decision_list s' !! i = decision_list s !! i
  ∧ (∃ idxs ptr, tour_idx s' !! a_n = Some (idxs ++ [ptr]) ∧ ptr !! i = Some 0)
  ∧ ∃ routes routes',
      tour_idx_dict s !! a_n = Some routes ∧ tour_idx_dict s' !! a_n = Some routes'
      ∧ routes' !! i = routes !! i.
Proof.
  intros Ha Hblock Hflag Hi.
  apply agent_block_fields in Hblock
    as (flags & m & am & ptr & logp & d & d' & routes & routes' & m' & am'
        & Hfl & _ & _ & Hsel & _ & _ & _ & Hpush & Hr & Hpt & Hr' & _ & _ & _
        & (idxs & Hidx & Hidx') & _).
  unfold flag_of in Hflag. rewrite Hfl in Hflag. simpl in Hflag.
  pose proof (push_decisions_length _ _ _ _ _ Hpush) as Hlen.
  unfold push_decisions in Hpush. apply push_decisions_loop in Hpush as [_ Hall].
  destruct (Hall i) as [_ Hin]. destruct Hin as (p & Hp & Hz & _); [simpl; lia|].
  assert (p = 0) as ->.
  { destruct (decide (p = 0)) as [|Hp0]; [done|].
    destruct (select_action_flag _ _ _ _ _ _ _ _ Hsel Hp Hp0) as (f & Hf & Hf0).
    congruence. }
  split; [by apply Hz|]. split.
  - exists idxs, ptr. by rewrite Hidx', lookup_insert_eq.
  - exists routes, routes'. split; [done|]. rewrite Hr', lookup_insert_eq.
    split; [done|]. unfold push_tour in Hpt.
    apply push_tour_loop in Hpt as [_ Hall'].
    destruct (Hall' i) as [_ Hin']. destruct Hin' as (p & Hp' & Hz' & _); [simpl; lia|].
    rewrite Hp in Hp'. injection Hp' as <-. by apply Hz'.
Qed.

(** X11. The broadcast after an agent's action writes rows 1 to 3 and the
    first [len(up_station)] columns of the other agents' tensors and
    nothing else: their shape and every entry outside that slice are as
    before.  The acting agent's own tensor is what [update_fn] returned, or
    unchanged when [update_fn] is [None]. *)
Theorem broadcast_writes_the_slice_only (t a_n : nat) (s s' : state)
    (j : nat) (dj : tensor3) :
  (1 ≤ a_n ≤ 10)%nat →
  agent_block'' t a_n s = Ok s' →
  dyn s !! j = Some dj →
  length (dyn s') = length (dyn s)
  ∧ (j ≠ (a_n - 1)%nat →
     ∃ dj', dyn s' !! j = Some dj' ∧ dims dj' = dims dj
       ∧ ∀ i r c, (r = 0 ∨ 4 ≤ r ∨ length up_station ≤ c)%nat →
           entry_at dj' i r c = entry_at dj i r c)
  ∧ (j = (a_n - 1)%nat → update_fn self = None → dyn s' !! j = Some dj).
Proof.
  intros Ha Hblock Hdj.
  apply agent_block_fields in Hblock
    as (flags & m & am & ptr & logp & d & d' & routes & routes' & m' & am'
        & _ & _ & _ & _ & Hd & Hnone & Hb & _).
  pose proof (broadcast_length _ _ _ _ _ Hb) as Hlen. rewrite length_insert in Hlen.
  split; [done|].
  destruct (lookup_lt_is_Some_2 (dyn s') j) as [y Hy].
  { rewrite Hlen. by eapply lookup_lt_Some. }
  destruct (broadcast_lookup _ _ _ _ _ _ _ Hb Hy) as [Hsame Hother]. split.
  - intros Hne. destruct (Hother Hne) as (x & Hx & Hassign).
    rewrite list_lookup_insert_ne in Hx by done. rewrite Hdj in Hx. injection Hx as <-.
    exists y. split; [done|]. unfold slice_assign in Hassign.
    apply bind_Ok in Hassign as (v & Hv & Hassign). injection Hassign as <-.
    apply write_slice_frame. by eapply expand3_shape.
  - intros -> Hfn. rewrite Hy, (Hsame eq_refl), (Hnone Hfn). congruence.
Qed.
End AgentMore.

(** ** The refresh of the masks and the agents that act *)

Lemma filter_iff_in {A : Type} (P Q : A → Prop)
    `{!∀ x, Decision (P x), !∀ x, Decision (Q x)} (l : list A) :
  (∀ x, x ∈ l → P x ↔ Q x) → filter P l = filter Q l.
Proof.
  induction l as [|a l IH]; intros Hall; [done|].
  rewrite !filter_cons, IH by (intros x Hx; apply Hall; by right).
  destruct (decide (P a)) as [Hp|Hp], (decide (Q a)) as [Hq|Hq]; try done.
  - exfalso. apply Hq, Hall; [left|done].
  - exfalso. apply Hp, Hall; [left|done].
Qed.

Lemma filter_all {A : Type} (P : A → Prop) `{!∀ x, Decision (P x)} (l : list A) :
  (∀ x, x ∈ l → P x) → filter P l = l.
Proof.
  induction l as [|a l IH]; intros Hall; [done|].
  rewrite filter_cons_True by (apply Hall; left). f_equal. apply IH.
  intros x Hx. apply Hall. by right.
Qed.

Lemma list_remove_filter `{EqDecision A} (x : A) (l : list A) :
  NoDup l → x ∈ l → list_remove x l = Ok (filter (λ y, y ≠ x) l).
Proof.
  induction l as [|y l IH]; intros Hnd Hin; [by apply elem_of_nil in Hin|].
  apply NoDup_cons in Hnd as [Hy Hnd]. simpl. case_decide as Hyx.
  - subst y. rewrite filter_cons_False by (by intros []).
    f_equal. symmetry. apply filter_all. intros z Hz ->. done.
  - apply elem_of_cons in Hin as [->|Hin]; [done|].
    rewrite IH by done. simpl. by rewrite filter_cons_True.
Qed.

Lemma row_sum_zeros (n : nat) : row_sum (zeros n) = 0.
Proof. unfold row_sum, zeros. induction n as [|n IH]; simpl; [done|]. by rewrite IH. Qed.

Lemma depot_fallback_open (m m' : tensor2) : depot_fallback m = Ok m' → rows_open m'.
Proof.
  unfold depot_fallback, rows_open. intros H. apply mapM_res_Forall2 in H.
  induction H as [|row row' m m' Hrow _ IH]; constructor; [|done].
  unfold depot_fallback_row in Hrow. case_decide as Hs.
  - destruct row as [|x tl]; [done|]. injection Hrow as <-. split; [done|].
    simpl. rewrite row_sum_zeros. lia.
  - injection Hrow as <-. split; [|done]. by intros ->.
Qed.

Section Refresh.
Context {stop_info graph : Type}.
Variable self : @MA_CB_RP_Major stop_info graph.
Variable net : oracle.
Variable static : static_tensor.
Variable travel_time_G : graph.
Variables up_station all_station : list Z.

Abbreviation refresh_mask' := (refresh_mask self up_station).
Abbreviation stays' := (stays self up_station).
Abbreviation mask_start_of' := (mask_start_of self up_station).

Lemma refresh_mask_Ok (ag_id : nat) (s s' : state) (alive : bool) :
  refresh_mask' ag_id s = Ok (s', alive) →
  alive = stays' s ag_id
  ∧ dyn s' = dyn s ∧ tw_mask s' = tw_mask s
  ∧ ((1 ≤ ag_id ≤ 10)%nat →
     ∃ r m', mask_start_of' s ag_id = Some r ∧ depot_fallback r.1 = Ok m'
             ∧ mask s' = <[(ag_id - 1)%nat := m']> (mask s)
             ∧ agent_mask s' = <[(ag_id - 1)%nat := r.2]> (agent_mask s)
             ∧ (ag_id - 1 < length (mask s))%nat
             ∧ (ag_id - 1 < length (agent_mask s))%nat)
  ∧ (¬ (1 ≤ ag_id ≤ 10)%nat → s' = s).
Proof.
  unfold refresh_mask, stays, mask_start_of. case_decide as Hid; intros H.
  - apply bind_Ok in H as (m & Hm & H). apply bind_Ok in H as (d & Hd & H).
    apply bind_Ok in H as (am & Ham & H). apply bind_Ok in H as (m' & Hm' & H).
    injection H as <- <-. inv_items. rewrite Hm, Hd, Ham. simpl.
    repeat (split; [done|]). split; [|done]. intros _.
    eexists _, m'. repeat (split; [done|]).
    split; by eapply lookup_lt_Some.
  - injection H as <- <-. repeat (split; [done|]). done.
Qed.

(** The refresh loop over [l], a part of [range(1, agent_number)] whose
    agents are still as in the state [s] the loop started from. *)
Lemma refresh_all_loop (s : state) (l : list nat) : ∀ (s1 : state) (ids1 : list nat) s' ids,
  foldM (λ (acc : state * list nat) ag_id,
      r ← refresh_mask' ag_id acc.1;
      ids ← (if (r.2 : bool) then Ok acc.2 else list_remove ag_id acc.2);
      Ok (r.1, ids))
    (s1, ids1) l = Ok (s', ids) →
  NoDup l → (∀ a, a ∈ l → (1 ≤ a)%nat) →
  NoDup ids1 → (∀ a, a ∈ l → a ∈ ids1) →
  dyn s1 = dyn s → tw_mask s1 = tw_mask s →
  (∀ a, a ∈ l → mask s1 !! (a - 1)%nat = mask s !! (a - 1)%nat
                ∧ agent_mask s1 !! (a - 1)%nat = agent_mask s !! (a - 1)%nat) →
  ids = filter (λ a, a ∉ l ∨ stays' s a = true) ids1
  ∧ ∀ a, a ∈ l → (1 ≤ a ≤ 10)%nat →
      ∃ r m', mask_start_of' s a = Some r ∧ depot_fallback r.1 = Ok m'
              ∧ mask s' !! (a - 1)%nat = Some m'
              ∧ agent_mask s' !! (a - 1)%nat = Some r.2.
Proof.
  induction l as [|x l IH]; intros s1 ids1 s' ids H Hnd Hpos Hnd1 Hin Hdyn Htw Hsame;
    simpl in H.
  - injection H as <- <-. split; [|by intros ? ?%elem_of_nil].
    symmetry. apply filter_all. intros a _. left. apply not_elem_of_nil.
  - apply bind_Ok in H as ([s2 ids2] & Hstep & H).
    apply bind_Ok in Hstep as ([s2' alive] & Hr & Hstep). simpl in Hstep.
    apply bind_Ok in Hstep as (ids2' & Hrm & Hstep). injection Hstep as -> ->.
    apply NoDup_cons in Hnd as [Hx Hnd].
    apply refresh_mask_Ok in Hr as (Halive & Hdyn2 & Htw2 & Hin10 & Hout10).
    assert (mask_start_of' s1 x = mask_start_of' s x) as Hms.
    { unfold mask_start_of. destruct (Hsame x) as [-> ->]; [left|].
      by rewrite Hdyn, Htw. }
    assert (stays' s1 x = stays' s x) as Hst.
    { unfold stays. by rewrite Hms. }
    rewrite Hst in Halive.
    assert (∀ a, a ∈ l → mask s2 !! (a - 1)%nat = mask s !! (a - 1)%nat
                         ∧ agent_mask s2 !! (a - 1)%nat = agent_mask s !! (a - 1)%nat)
      as Hsame2.
    { intros a Ha. destruct (Hsame a) as [<- <-]; [by right|].
      destruct (decide (1 ≤ x ≤ 10)%nat) as [Hb|Hb].
      - destruct (Hin10 Hb) as (r & m' & _ & _ & -> & -> & _).
        assert (a ≠ x) by (by intros ->).
        assert (1 ≤ a)%nat by (apply Hpos; by right).
        rewrite !list_lookup_insert_ne by lia. done.
      - by rewrite (Hout10 Hb). }
    assert (NoDup ids2 ∧ (∀ a, a ∈ l → a ∈ ids2)
            ∧ ids2 = filter (λ a, a ≠ x ∨ stays' s x = true) ids1) as (Hnd2 & Hin2 & Hids2).
    { destruct alive.
      - injection Hrm as <-. split; [done|]. split; [intros a Ha; apply Hin; by right|].
        symmetry. apply filter_all. intros a _. by right.
      - rewrite list_remove_filter in Hrm; [|done|apply Hin; left].
        injection Hrm as <-. split; [by apply NoDup_filter|]. split.
        + intros a Ha. apply list_elem_of_filter. split; [by intros ->|].
          apply Hin. by right.
        + apply list_filter_iff. intros a. split; [by left|].
          intros [?|?]; [done|congruence]. }
    destruct (IH _ _ _ _ H Hnd) as [IHids IHmask]; try done.
    { intros a Ha. apply Hpos. by right. }
    { congruence. } { congruence. }
    split.
    + rewrite IHids, Hids2, list_filter_filter. apply list_filter_iff. intros a.
      rewrite not_elem_of_cons. destruct (decide (a = x)) as [->|Hne].
      * split; [intros [_ [Hxx|Hsx]]; [by destruct Hxx|by right]|].
        intros [[? _]|?]; [done|]. split; by right.
      * split; [intros [[?|?] _]; [left; by split|by right]|].
        intros [[_ ?]|?]; (split; [|by left]); [by left|by right].
    + intros a [->|Ha]%elem_of_cons Hb; [|by apply IHmask].
      destruct (Hin10 Hb) as (r & m' & Hr & Hm' & Hmask & Hamask & Hl1 & Hl2).
      rewrite Hms in Hr. exists r, m'. repeat (split; [done|]).
      assert (mask s' !! (x - 1)%nat = mask s2 !! (x - 1)%nat
              ∧ agent_mask s' !! (x - 1)%nat = agent_mask s2 !! (x - 1)%nat) as [-> ->].
      { clear -H Hx Hpos. revert s2 ids2 H.
        induction l as [|y l IH]; intros s2 ids2 H; simpl in H.
        - by injection H as <- _.
        - apply bind_Ok in H as ([s3 ids3] & Hstep & H).
          apply bind_Ok in Hstep as ([s3' alive] & Hr & Hstep). simpl in Hstep.
          apply bind_Ok in Hstep as (ids3' & _ & Hstep). injection Hstep as -> ->.
          apply not_elem_of_cons in Hx as [Hxy Hx].
          destruct (IH Hx) with (s2 := s3) (ids2 := ids3) as [-> ->]; [|done|].
          { intros a Ha. apply Hpos. apply elem_of_cons in Ha as [->|Ha];
              [left|right; right; done]. }
          apply refresh_mask_Ok in Hr as (_ & _ & _ & Hin & Hout).
          destruct (decide (1 ≤ y ≤ 10)%nat) as [Hb|Hb].
          + destruct (Hin Hb) as (r & m' & _ & _ & -> & -> & _).
            assert (1 ≤ x)%nat by (apply Hpos; left).
            rewrite !list_lookup_insert_ne by lia. done.
          + by rewrite (Hout Hb). }
      rewrite Hmask, Hamask. split; by apply list_lookup_insert_eq.
Qed.

(** X12. When the refresh at the head of a tick returns, the agents left
    to act are, in ascending order, those of [range(1, agent_number)] for
    which the mask returned by [mask_start] has a non-zero byte (and those
    without a block of their own, which do nothing); every agent's masks
    are then what [mask_start] returned for the state the tick had before
    the refresh, the candidate mask after the depot fallback. *)
Theorem acting_agents_are_kept_by_mask_start (s s' : state) (ids : list nat) :
  refresh_all self up_station s = Ok (s', ids) →
  ids = filter (λ a, stays' s a = true) (py_range 1 (agent_number self))
  ∧ StronglySorted lt ids
  ∧ ∀ a, a ∈ py_range 1 (agent_number self) → (1 ≤ a ≤ 10)%nat →
      ∃ r m', mask_start_of' s a = Some r ∧ depot_fallback r.1 = Ok m'
              ∧ mask s' !! (a - 1)%nat = Some m'
              ∧ agent_mask s' !! (a - 1)%nat = Some r.2.
Proof.
  unfold refresh_all. intros H.
  apply (refresh_all_loop s) in H as [Hids Hmask]; try done.
  - assert (ids = filter (λ a, stays' s a = true) (py_range 1 (agent_number self)))
      as Hids'.
    { rewrite Hids. apply filter_iff_in. intros a Ha. split; [|by right].
      by intros [?|?]. }
    split; [done|]. split; [|done]. rewrite Hids'.
    eapply sublist_StronglySorted; [apply sublist_filter|apply seq_StronglySorted].
  - apply NoDup_seq.
  - intros a Ha%elem_of_py_range. lia.
  - apply NoDup_seq.
Qed.
End Refresh.

(** ** What the rollout keeps from tick to tick *)

Lemma foldM_invariant {A St : Type} (f : St → A → res St) (P : St → Prop) :
  (∀ s x s', f s x = Ok s' → P s → P s') →
  ∀ l s s', foldM f s l = Ok s' → P s → P s'.
Proof.
  intros Hf. induction l as [|x l IH]; intros s s' H Hs; simpl in H.
  - by injection H as <-.
  - apply bind_Ok in H as (s1 & H1 & H). eapply IH; [done|]. by eapply Hf.
Qed.

Lemma foldl_insert_lookup {V : Type} (v : V) (l : list nat) (a : nat) :
  ∀ d : gmap nat V,
    foldl (λ d a_id, <[a_id := v]> d) d l !! a
    = if decide (a ∈ l) then Some v else d !! a.
Proof.
  induction l as [|y l IH]; intros d; simpl; [done|].
  rewrite IH. destruct (decide (a = y)) as [->|Hne].
  - rewrite lookup_insert_eq. rewrite (decide_True (P := y ∈ y :: l)) by left.
    by case_decide.
  - rewrite lookup_insert_ne by done.
    destruct (decide (a ∈ l)) as [Hin|Hin], (decide (a ∈ y :: l)) as [Hin'|Hin'];
      try done.
    + exfalso. apply Hin'. by right.
    + exfalso. apply elem_of_cons in Hin' as [?|?]; done.
Qed.

Lemma due_not_due_disjoint (t : Z) (q : list entry) (a : nat) :
  NoDup q.*2 → a ∈ (due t q).*2 → a ∉ (not_due t q).*2.
Proof.
  intros Hnd Hin Hnot.
  pose proof (filter_app_complement (λ e : entry, e.1 = t) q) as Hp.
  apply (fmap_Permutation snd) in Hp. rewrite fmap_app in Hp.
  rewrite <-Hp in Hnd. apply NoDup_app in Hnd as (_ & Hdis & _).
  by apply (Hdis a).
Qed.

Lemma extract_instance_length ns0 q s s' :
  extract_instance ns0 q s = Ok s' →
  length (decision_list s') = length (decision_list s).
Proof.
  assert (∀ e s s', flag_and_remove ns0 e s = Ok s' →
            length (decision_list s') = length (decision_list s)) as Hfr.
  { intros e s0 s0' (fl & q0 & q0' & _ & _ & _ & _ & ->)%flag_and_remove_Ok. simpl.
    by rewrite length_insert. }
  unfold extract_instance. destruct q as [|hd tl]; intros H.
  - by injection H as ->.
  - apply bind_Ok in H as (s1 & H1 & H).
    apply bind_Ok in H as (src & _ & H). apply bind_Ok in H as (inst & _ & H).
    apply bind_Ok in H as (row & _ & H). apply bind_Ok in H as (ds & _ & H).
    apply (foldM_preserve _ (λ s, length (decision_list s))) in H.
    + rewrite H. simpl. by apply Hfr in H1.
    + intros s0 x s0' Hx. case_decide; [by eapply Hfr|]. by injection Hx as ->.
Qed.

Lemma cohort_extraction_length s s' :
  cohort_extraction s = Ok s' →
  length (decision_list s') = length (decision_list s).
Proof.
  unfold cohort_extraction. apply (foldM_preserve _ (λ s, length (decision_list s))).
  intros s0 x s0'. apply extract_instance_length.
Qed.

(** What the cohort extraction leaves of a queue and whom it flags, for an
    instance in which no agent was flagged before. *)
Lemma cohort_extraction_queue (s s' : state) (i : nat) (q : list entry) :
  cohort_extraction s = Ok s' →
  decision_list s !! i = Some q →
  (∀ a, ¬ flagged (decision_mask_dict s) a i) →
  ∃ q', decision_list s' !! i = Some q' ∧ q' `sublist_of` q
        ∧ ∀ a, flagged (decision_mask_dict s') a i →
            a ∈ q.*2 ∧ (NoDup q.*2 → a ∉ q'.*2).
Proof.
  intros Hx Hq Hclear.
  destruct (cohort_extraction_at _ _ _ _ Hx Hq) as (sa & sb & Ha & Hstep & Hb).
  destruct q as [|hd tl].
  - simpl in Hstep. injection Hstep as <-. exists [].
    rewrite (view_queue _ _ _ Hb), (view_queue _ _ _ Ha). split; [done|].
    split; [done|]. intros a (x & Hfx & Hx0). exfalso. apply (Hclear a).
    exists x. split; [|done].
    by rewrite <-(view_flag_of _ _ _ a Ha), <-(view_flag_of _ _ _ a Hb).
  - apply extract_instance_Ok in Hstep as (Hdl & Hfl & _ & _ & _).
    2:{ by rewrite (view_queue _ _ _ Ha). }
    exists (not_due hd.1 (hd :: tl)). split; [|split].
    + rewrite (view_queue _ _ _ Hb), Hdl. apply list_lookup_insert_eq.
      eapply lookup_lt_Some. by rewrite (view_queue _ _ _ Ha).
    + apply sublist_filter.
    + intros a (x & Hfx & Hx0).
      rewrite (view_flag_of _ _ _ a Hb) in Hfx. unfold flag_of in Hfx.
      rewrite Hfl in Hfx.
      destruct (decide (a ∈ (due hd.1 (hd :: tl)).*2)) as [Hin|Hnin].
      * split.
        -- eapply elem_of_sublist; [exact Hin|]. apply fmap_sublist, sublist_filter.
        -- intros Hnd. by apply due_not_due_disjoint.
      * exfalso. apply (Hclear a). exists x. split; [|done].
        rewrite <-(view_flag_of _ _ _ a Ha). unfold flag_of.
        destruct (decision_mask_dict sa !! a); done.
Qed.

Section Invariants.
Context {stop_info graph : Type}.
Variable self : @MA_CB_RP_Major stop_info graph.
Variable net : oracle.
Variable static : static_tensor.
Variable travel_time_G : graph.
Variables up_station all_station : list Z.

Abbreviation agent_turn_ :=
  (agent_turn self net static travel_time_G up_station all_station).
Abbreviation tick_ := (tick self net static travel_time_G up_station all_station).
Abbreviation run_ := (run self net static travel_time_G up_station all_station).
Abbreviation initial_state_ := (initial_state self static up_station all_station).

Lemma world_update_queues s s' :
  world_update self static up_station s = Ok s' →
  decision_list s' = decision_list s ∧ decision_mask_dict s' = decision_mask_dict s.
Proof.
  unfold world_update. intros H. apply bind_Ok in H as (ds & _ & H).
  by injection H as <-.
Qed.

Lemma refresh_tail s s' (l : list nat) :
  foldM (λ s' ag_id, r ← refresh_mask self up_station ag_id s'; Ok r.1) s l = Ok s' →
  ∃ ms ams, s' = set_agent_mask (set_mask s ms) ams.
Proof.
  revert s. induction l as [|x l IH]; intros s H; simpl in H.
  - injection H as <-. exists (mask s), (agent_mask s). by destruct s.
  - apply bind_Ok in H as (s1 & H1 & H). apply bind_Ok in H1 as ([s1' alive] & Hr & H1).
    injection H1 as <-. apply refresh_mask_frame in Hr as (ms & ams & ->).
    apply IH in H as (ms' & ams' & ->). eauto.
Qed.

Lemma agent_turn_length (t x : nat) (s s' : state) :
  agent_turn_ t s x = Ok s' →
  length (decision_list s') = length (decision_list s).
Proof.
  unfold agent_turn. intros H. apply bind_Ok in H as (s1 & H1 & H).
  apply refresh_tail in H as (ms & ams & ->). simpl.
  case_decide as Hb; [|by injection H1 as <-].
  apply agent_block_fields in H1
    as (? & ? & ? & ? & ? & ? & ? & ? & ? & ? & ?
        & _ & _ & _ & _ & _ & _ & _ & Hpush & _).
  by apply push_decisions_length in Hpush.
Qed.

(** What an agent's turn does to the queue of an instance. *)
Lemma agent_turn_queue (t x : nat) (s s' : state) (i : nat) (q : list entry) :
  agent_turn_ t s x = Ok s' →
  decision_list s !! i = Some q →
  decision_mask_dict s' = decision_mask_dict s
  ∧ length (decision_list s') = length (decision_list s)
  ∧ (decision_list s' !! i = Some q
     ∨ ∃ time, decision_list s' !! i = Some (q ++ [(time, x)])
               ∧ flagged (decision_mask_dict s) x i).
Proof.
  unfold agent_turn. intros H Hq. apply bind_Ok in H as (s1 & H1 & H).
  apply refresh_tail in H as (ms & ams & ->). simpl.
  case_decide as Hb; [|injection H1 as <-; by eauto].
  apply agent_block_fields in H1
    as (flags & m & am & ptr & logp & d & d' & routes & routes' & m' & am'
        & Hfl & _ & _ & Hsel & _ & _ & _ & Hpush & _ & _ & _ & _ & _ & _ & _ & Hdmd).
  split; [done|].
  pose proof (push_decisions_length _ _ _ _ _ Hpush) as Hlen. split; [done|].
  unfold push_decisions in Hpush. apply push_decisions_loop in Hpush as [_ Hall].
  destruct (Hall i) as [_ Hin]. destruct Hin as (p & Hp & Hz & Hnz).
  { apply lookup_lt_Some in Hq. simpl. lia. }
  destruct (decide (p = 0)) as [Hp0|Hp0].
  - left. rewrite Hz by done. done.
  - right. destruct (Hnz Hp0) as (inst & row & time & q0 & _ & _ & _ & Hq0 & Hq').
    rewrite Hq in Hq0. injection Hq0 as <-. exists time. split; [done|].
    destruct (select_action_flag _ _ _ _ _ _ _ _ _ _ _ Hsel Hp Hp0) as (f & Hf & Hf0).
    exists f. split; [|done]. unfold flag_of. by rewrite Hfl.
Qed.

(** The agents of [l] take their turns: an instance's queue keeps its
    agents distinct when the agents of [l] that are scheduled in the
    instance are not in the queue. *)
Lemma agent_turns_once (t : nat) (Agent_n : Z) (i : nat) (l : list nat) :
  ∀ (s s' : state) (q : list entry),
    foldM (agent_turn_ t) s l = Ok s' →
    NoDup l → (∀ a, a ∈ l → a ∈ py_range 1 Agent_n) →
    decision_list s !! i = Some q →
    NoDup q.*2 → (∀ a, a ∈ q.*2 → a ∈ py_range 1 Agent_n) →
    (∀ a, a ∈ l → flagged (decision_mask_dict s) a i → a ∉ q.*2) →
    ∃ q', decision_list s' !! i = Some q'
          ∧ NoDup q'.*2 ∧ ∀ a, a ∈ q'.*2 → a ∈ py_range 1 Agent_n.
Proof.
  induction l as [|x l IH]; intros s s' q H Hnd Hrange Hq Hq1 Hq2 Hfl; simpl in H.
  - injection H as <-. eauto.
  - apply bind_Ok in H as (s1 & H1 & H). apply NoDup_cons in Hnd as [Hx Hnd].
    destruct (agent_turn_queue _ _ _ _ _ _ H1 Hq) as (Hdmd & _ & [Hsame|(time & Hpush & Hfx)]).
    + eapply (IH s1 s' q); try done.
      * intros a Ha. apply Hrange. by right.
      * intros a Ha. rewrite Hdmd. apply Hfl. by right.
    + eapply (IH s1 s' (q ++ [(time, x)])); try done.
      * intros a Ha. apply Hrange. by right.
      * rewrite fmap_app. apply NoDup_app. split; [done|]. split.
        -- intros a Ha ->%list_elem_of_singleton. by apply (Hfl x); [left| |].
        -- apply NoDup_singleton.
      * intros a. rewrite fmap_app.
        intros [Ha| ->%list_elem_of_singleton]%elem_of_app; [by apply Hq2|].
        apply Hrange. left.
      * intros a Ha. rewrite Hdmd, fmap_app. intros Hfa.
        intros [Hin| ->%list_elem_of_singleton]%elem_of_app; [|done].
        by apply (Hfl a); [right| |].
Qed.

Lemma reset_flags_clear (s : state) (a i : nat) :
  tick_invariant (agent_number self) s →
  ¬ flagged (reset_flags self static (decision_mask_dict s)) a i.
Proof.
  intros [_ Hkeys] (x & Hx & Hx0). unfold flag_of in Hx.
  rewrite reset_flags_lookup in Hx. case_decide as Ha.
  - simpl in Hx. apply lookup_replicate in Hx as [-> _]. done.
  - destruct (decision_mask_dict s !! a) eqn:Hd; [|done].
    apply Ha, Hkeys. eauto.
Qed.

Lemma tick_agents_once (t : nat) (s s' : state) (ids : list nat) :
  tick_ t s = Ok (Next s' ids) →
  tick_invariant (agent_number self) s →
  agents_once (agent_number self) s → agents_once (agent_number self) s'.
Proof.
  intros H Hinv Honce. unfold agents_once in *. rewrite Forall_forall in Honce.
  unfold tick in H. apply bind_Ok in H as (s1 & H1 & H).
  apply bind_Ok in H as (s2 & H2 & H).
  destruct (negb (byte_any (mask_judge s2))); [discriminate|].
  apply bind_Ok in H as ([s2' ids'] & Hr & H). simpl in H.
  apply bind_Ok in H as (s3 & H3 & H). injection H as <- <-.
  apply refresh_all_frame in Hr as [(ms & ams & ->) Hsub].
  apply world_update_queues in H2 as [Hdl2 Hdmd2].
  apply Forall_forall. intros q3 Hq3. simpl in Hq3.
  apply list_elem_of_fmap in Hq3 as (q & -> & Hq).
  apply list_elem_of_lookup in Hq as [i Hq].
  assert (length (decision_list s3) = length (decision_list s)) as Hlen.
  { apply (foldM_preserve _ (λ s, length (decision_list s))) in H3.
    - rewrite H3. simpl. rewrite Hdl2. by apply cohort_extraction_length in H1.
    - intros s0 x s0'. apply agent_turn_length. }
  destruct (lookup_lt_is_Some_2 (decision_list s) i) as [q0 Hq0].
  { rewrite <-Hlen. by eapply lookup_lt_Some. }
  destruct (Honce q0) as [Hnd0 Hrange0]; [by eapply list_elem_of_lookup_2|].
  destruct (cohort_extraction_queue _ _ i q0 H1) as (q1 & Hq1 & Hsub1 & Hfl1); [done| |].
  { intros a. by apply reset_flags_clear. }
  destruct (agent_turns_once t (agent_number self) i ids'
              (set_agent_mask (set_mask s2 ms) ams) s3 q1 H3)
    as (q3 & Hq3 & Hnd3 & Hrange3).
  - eapply sublist_NoDup; [apply NoDup_seq|exact Hsub].
  - intros a Ha. by eapply elem_of_sublist.
  - simpl. by rewrite Hdl2.
  - eapply sublist_NoDup; [exact Hnd0|]. by apply fmap_sublist.
  - intros a Ha. apply Hrange0. eapply elem_of_sublist; [exact Ha|].
    by apply fmap_sublist.
  - simpl. rewrite Hdmd2. intros a _ Hfa. destruct (Hfl1 a Hfa) as [_ Hout].
    by apply Hout.
  - rewrite Hq in Hq3. injection Hq3 as <-.
    pose proof (sort_queue_perm q) as Hp. apply (fmap_Permutation snd) in Hp.
    split; [by rewrite Hp|]. intros a Ha. apply Hrange3. by rewrite <-Hp.
Qed.

Lemma run_agents_once (n : nat) : ∀ t s lg s',
  run_ n t s = Ok (lg, s') →
  tick_invariant (agent_number self) s →
  agents_once (agent_number self) s →
  Forall (λ e, agents_once (agent_number self) e.2) lg.
Proof.
  induction n as [|n IH]; intros t s lg s' H Hinv Honce; simpl in H.
  - injection H as <- _. constructor.
  - apply bind_Ok in H as (r & Ht & H). destruct r as [s1|s1 ids].
    + injection H as <- _. constructor.
    + apply bind_Ok in H as ([lg1 s1'] & Hrun & H). injection H as <- _.
      constructor; [by eapply tick_agents_once|].
      eapply IH; [done| |].
      * by eapply tick_invariant_next.
      * by eapply tick_agents_once.
Qed.

Lemma initial_state_agents_once (ds : list tensor3) (rs : records_t) (s0 : state) :
  initial_state_ ds rs = Ok s0 → agents_once (agent_number self) s0.
Proof.
  intros (Hdl & _)%initial_state_Ok. apply mapM_res_Forall2 in Hdl.
  apply Forall_forall. intros q Hq. apply list_elem_of_lookup in Hq as [i Hq].
  destruct (Forall2_lookup_r _ _ _ _ _ Hdl Hq) as (ns & _ & Hiq).
  apply initial_queue_Ok in Hiq as (q0 & -> & Hids & _).
  pose proof (sort_queue_perm q0) as Hp. apply (fmap_Permutation snd) in Hp.
  rewrite Hids in Hp. split.
  - rewrite Hp. apply NoDup_seq.
  - intros a Ha. by rewrite <-Hp.
Qed.

(** X13. Whenever a tick starts, no agent is queued twice in an instance and
    every queued agent is one of [range(1, agent_number)]: a queue never
    holds more than [agent_number - 1] entries. *)
Theorem agents_queued_at_most_once (ds : list tensor3) (rs : records_t)
    (n : nat) (s0 s1 : state) (lg : list (list nat * state)) :
  initial_state_ ds rs = Ok s0 →
  run_ n 0 s0 = Ok (lg, s1) →
  Forall (λ s, agents_once (agent_number self) s
               ∧ Forall (λ q : list entry,
                     (length q ≤ Z.to_nat (agent_number self) - 1)%nat)
                   (decision_list s))
    (s0 :: lg.*2).
Proof.
  intros H0 Hrun.
  assert (agents_once (agent_number self) s0) as Honce0.
  { by eapply initial_state_agents_once. }
  assert (Forall (agents_once (agent_number self)) (s0 :: lg.*2)) as Hall.
  { constructor; [done|]. apply Forall_fmap.
    eapply run_agents_once; [done| |done]. by eapply initial_state_invariant. }
  eapply Forall_impl; [exact Hall|]. intros s Hs. split; [done|].
  unfold agents_once in Hs. eapply Forall_impl; [exact Hs|].
  intros q [Hnd Hrange]. simpl.
  assert (q.*2 ⊆+ py_range 1 (agent_number self)) as Hsub.
  { by apply NoDup_submseteq. }
  apply submseteq_length in Hsub. rewrite length_fmap in Hsub.
  unfold py_range in Hsub. rewrite length_seq in Hsub. lia.
Qed.
End Invariants.

(** ** Routes, open masks and the order of ties *)

Lemma entries_of_snoc (i : nat) (cols : list tensor1) (ptr : tensor1) (p : Z) :
  ptr !! i = Some p → entries_of i (cols ++ [ptr]) = entries_of i cols ++ [p].
Proof. intros Hp. unfold entries_of. rewrite omap_app. simpl. by rewrite Hp. Qed.

Section Routes.
Context {stop_info graph : Type}.
Variable self : @MA_CB_RP_Major stop_info graph.
Variable net : oracle.
Variable static : static_tensor.
Variable travel_time_G : graph.
Variables up_station all_station : list Z.

Abbreviation agent_turn__ :=
  (agent_turn self net static travel_time_G up_station all_station).
Abbreviation tick__ := (tick self net static travel_time_G up_station all_station).
Abbreviation run__ := (run self net static travel_time_G up_station all_station).
Abbreviation initial_state__ := (initial_state self static up_station all_station).

Lemma routes_follow_steady (s s' : state) :
  steady s' = steady s →
  length (decision_list s') = length (decision_list s) →
  routes_follow s → routes_follow s'.
Proof.
  unfold steady, routes_follow. intros [= Hi _ _ _ _ Hd] Hlen H a cols routes i.
  rewrite Hi, Hd, Hlen. apply H.
Qed.

Lemma agent_block_routes (t a_n : nat) (s s' : state) :
  agent_block self net static travel_time_G up_station all_station t a_n s = Ok s' →
  routes_follow s → routes_follow s'.
Proof.
  intros Hblock Hinv.
  apply agent_block_fields in Hblock
    as (flags & m & am & ptr & logp & d & d' & routes & routes' & m' & am'
        & _ & _ & _ & _ & _ & _ & _ & Hpush & Hr & Hpt & Hr' & _ & _ & _
        & (idxs & Hidx & Hidx') & _).
  pose proof (push_decisions_length _ _ _ _ _ Hpush) as Hlen.
  intros a cols rts i. rewrite Hidx', Hr', Hlen.
  destruct (decide (a = a_n)) as [->|Hne].
  - rewrite !lookup_insert_eq. intros [= <-] [= <-] Hi.
    unfold push_tour in Hpt. apply push_tour_loop in Hpt as [_ Hall].
    destruct (Hall i) as [_ Hin]. destruct Hin as (p & Hp & Hz & Hnz); [simpl; lia|].
    rewrite (entries_of_snoc _ _ _ _ Hp), filter_app.
    pose proof (Hinv a_n idxs routes i Hidx Hr Hi) as Hold.
    destruct (decide (p = 0)) as [Hp0|Hp0].
    + rewrite Hz, Hold by done. rewrite filter_cons_False by (by intros []).
      by rewrite filter_nil, app_nil_r.
    + destruct (Hnz Hp0) as (tr & Htr & ->). rewrite Hold in Htr.
      injection Htr as <-. by rewrite filter_cons_True.
  - rewrite !lookup_insert_ne by done. apply Hinv.
Qed.

Lemma agent_turn_routes (t x : nat) (s s' : state) :
  agent_turn__ t s x = Ok s' → routes_follow s → routes_follow s'.
Proof.
  unfold agent_turn. intros H Hinv. apply bind_Ok in H as (s1 & H1 & H).
  apply refresh_tail in H as (ms & ams & ->).
  assert (routes_follow s1) as H1'.
  { case_decide; [by eapply agent_block_routes|by injection H1 as <-]. }
  exact H1'.
Qed.

Lemma tick_routes (t : nat) (s : state) (r : tick_result) :
  tick__ t s = Ok r → routes_follow s →
  routes_follow (match r with Break s' => s' | Next s' _ => s' end).
Proof.
  unfold tick. intros H Hinv.
  apply bind_Ok in H as (s1 & H1 & H). apply bind_Ok in H as (s2 & H2 & H).
  assert (routes_follow s2) as Hinv2.
  { apply (routes_follow_steady s1).
    - by apply world_update_steady in H2.
    - apply world_update_queues in H2 as [-> _]. done.
    - apply (routes_follow_steady
               (set_decision_mask_dict s (reset_flags self static (decision_mask_dict s)))).
      + by apply cohort_extraction_steady in H1.
      + by apply cohort_extraction_length in H1.
      + exact Hinv. }
  destruct (negb (byte_any (mask_judge s2))); [by injection H as <-|].
  apply bind_Ok in H as ([s2' ids] & Hr & H). simpl in H.
  apply bind_Ok in H as (s3 & H3 & H). injection H as <-.
  apply refresh_all_frame in Hr as [(ms & ams & ->) _].
  apply (foldM_invariant _ routes_follow) in H3.
  - intros a cols routes i. simpl. rewrite length_fmap. apply H3.
  - intros s0 x s0'. apply agent_turn_routes.
  - exact Hinv2.
Qed.

Lemma run_routes (n : nat) : ∀ t s lg s',
  run__ n t s = Ok (lg, s') → routes_follow s →
  routes_follow s' ∧ Forall (λ e, routes_follow e.2) lg.
Proof.
  induction n as [|n IH]; intros t s lg s' H Hinv; simpl in H.
  - injection H as <- <-. split; [done|constructor].
  - apply bind_Ok in H as (r & Ht & H). apply tick_routes in Ht; [|done].
    destruct r as [s1|s1 ids].
    + injection H as <- <-. split; [done|constructor].
    + apply bind_Ok in H as ([lg1 s1'] & Hrun & H). injection H as <- <-.
      destruct (IH _ _ _ _ Hrun Ht) as [? ?]. split; [done|by constructor].
Qed.

Lemma initial_state_routes (ds : list tensor3) (rs : records_t) (s0 : state) :
  initial_state__ ds rs = Ok s0 → routes_follow s0.
Proof.
  intros (Hdl & _ & _ & _ & _ & _ & _ & Hidx & Hdict)%initial_state_Ok.
  apply mapM_res_length in Hdl. rewrite length_seq in Hdl.
  intros a cols routes i. rewrite Hidx, Hdict, Hdl, !foldl_insert_lookup.
  case_decide; [|by rewrite lookup_empty].
  intros [= <-] [= <-] Hi. by rewrite lookup_replicate_2.
Qed.

Lemma tick_queue_count (t : nat) (s : state) (r : tick_result) :
  tick__ t s = Ok r →
  length (decision_list (match r with Break s' => s' | Next s' _ => s' end))
  = length (decision_list s).
Proof.
  unfold tick. intros H.
  apply bind_Ok in H as (s1 & H1 & H). apply bind_Ok in H as (s2 & H2 & H).
  apply cohort_extraction_length in H1. simpl in H1.
  apply world_update_queues in H2 as [H2 _].
  destruct (negb (byte_any (mask_judge s2))); [injection H as <-; congruence|].
  apply bind_Ok in H as ([s2' ids] & Hr & H). simpl in H.
  apply bind_Ok in H as (s3 & H3 & H). injection H as <-.
  apply refresh_all_frame in Hr as [(ms & ams & ->) _].
  apply (foldM_preserve _ (λ s, length (decision_list s))) in H3.
  - simpl in *. rewrite length_fmap. congruence.
  - intros s0 x s0'. apply agent_turn_length.
Qed.

Lemma run_queue_count (n : nat) : ∀ t s lg s',
  run__ n t s = Ok (lg, s') →
  length (decision_list s') = length (decision_list s).
Proof.
  induction n as [|n IH]; intros t s lg s' H; simpl in H.
  - by injection H as <- <-.
  - apply bind_Ok in H as (r & Ht & H). apply tick_queue_count in Ht.
    destruct r as [s1|s1 ids].
    + by injection H as <- <-.
    + apply bind_Ok in H as ([lg1 s1'] & Hrun & H). injection H as <- <-.
      rewrite (IH _ _ _ _ Hrun). done.
Qed.

Lemma cat_dim1_row (cols : list tensor1) (seqs : tensor2) (i : nat) (row : tensor1) :
  cat_dim1 cols = Ok seqs → seqs !! i = Some row → row = entries_of i cols.
Proof.
  unfold cat_dim1. destruct cols as [|c cols]; [done|]. intros H Hrow.
  apply mapM_res_Forall2 in H.
  destruct (Forall2_lookup_r _ _ _ _ _ H Hrow) as (k & Hk & Hf).
  apply lookup_seq in Hk as [-> _]. cbv beta in Hf. rewrite Nat.add_0_l in Hf.
  apply mapM_res_Forall2 in Hf. unfold entries_of.
  revert Hf. generalize (c :: cols) as l. intros l. clear.
  induction 1 as [|col x l row Hx _ IH]; [done|].
  apply getitem_Ok in Hx. simpl. by rewrite Hx, IH.
Qed.

(** X14. The route that [update_fn] is handed for an agent and an instance
    ([tour_idx_dict[a][i]]) is at every tick the sequence of the non-zero
    indices recorded for the instance so far, in order: index 0, recorded
    where the agent was not scheduled or chose the depot, is left out.  At
    the end it is the returned row of indices without its zeros. *)
Theorem route_is_the_nonzero_indices (ds : list tensor3) (rs : records_t)
    (n : nat) (s0 s1 : state) (lg : list (list nat * state)) :
  initial_state__ ds rs = Ok s0 →
  run__ n 0 s0 = Ok (lg, s1) →
  Forall routes_follow (s0 :: s1 :: lg.*2)
  ∧ ∀ out a seqs routes i row,
      finish self s1 = Ok out →
      r_tour_idx out !! a = Some seqs → tour_idx_dict s1 !! a = Some routes →
      seqs !! i = Some row → (i < batch_size static)%nat →
      routes !! i = Some (filter (λ p, p ≠ 0) row).
Proof.
  intros H0 Hrun. pose proof (initial_state_routes _ _ _ H0) as Hr0.
  destruct (run_routes _ _ _ _ _ Hrun Hr0) as [H1 Hlg]. split.
  { constructor; [done|]. constructor; [done|]. by apply Forall_fmap. }
  intros out a seqs routes i row Hfin Hseqs Hroutes Hrow Hi.
  unfold finish in Hfin. apply bind_Ok in Hfin as (d & Hloop & Hfin).
  injection Hfin as <-. simpl in Hseqs.
  destruct (finish_loop _ _ _ _ Hloop a) as [Hin Hout].
  destruct (decide (a ∈ py_range 1 (agent_number self))) as [Ha|Ha].
  2:{ destruct (Hout Ha) as [Hnone _]. simpl in Hnone.
      rewrite lookup_empty in Hnone. congruence. }
  destruct (Hin Ha) as (cols & seqs0 & _ & _ & Hc & Hcat & _ & _ & Hd & _).
  rewrite Hseqs in Hd. injection Hd as <-.
  rewrite (cat_dim1_row _ _ _ _ Hcat Hrow).
  apply (H1 a cols routes i Hc Hroutes).
  rewrite (run_queue_count _ _ _ _ _ Hrun).
  apply initial_state_Ok in H0 as (Hdl & _). apply mapM_res_length in Hdl.
  rewrite length_seq in Hdl. lia.
Qed.

(** X15. The sort at the end of a tick orders a queue by time and by nothing
    else: it keeps the entries, and entries scheduled at one time stay in
    the order in which they were queued. *)
Theorem sort_keeps_ties_in_queue_order (s : state) (i : nat) (q : list entry) :
  decision_list s !! i = Some q →
  ∃ q', decision_list (sort_all s) !! i = Some q'
        ∧ queue_sorted q' ∧ q' ≡ₚ q ∧ ∀ t, due t q' = due t q.
Proof.
  intros Hq. exists (sort_queue q). split; [|split; [|split]].
  - unfold sort_all. simpl. by rewrite list_lookup_fmap, Hq.
  - apply sort_queue_sorted.
  - apply sort_queue_perm.
  - intros t. apply sort_queue_stable.
Qed.

(** *** The mask an agent chooses from *)

Lemma refresh_mask_open (ag_id a : nat) (s s' : state) (alive : bool) :
  refresh_mask self up_station ag_id s = Ok (s', alive) →
  (1 ≤ a)%nat →
  (∃ m, mask s !! (a - 1)%nat = Some m ∧ rows_open m) →
  ∃ m, mask s' !! (a - 1)%nat = Some m ∧ rows_open m.
Proof.
  intros (_ & _ & _ & Hin & Hout)%refresh_mask_Ok Ha (m & Hm & Hopen).
  destruct (decide (1 ≤ ag_id ≤ 10)%nat) as [Hb|Hb]; [|rewrite (Hout Hb); eauto].
  destruct (Hin Hb) as (r & m' & _ & Hfb & -> & _ & Hlt & _).
  destruct (decide (a = ag_id)) as [->|Hne].
  - exists m'. split; [by apply list_lookup_insert_eq|by eapply depot_fallback_open].
  - exists m. split; [|done]. rewrite list_lookup_insert_ne by lia. done.
Qed.

Lemma agent_turn_open (t x a : nat) (s s' : state) :
  agent_turn__ t s x = Ok s' → a ≠ x → (1 ≤ a)%nat →
  (∃ m, mask s !! (a - 1)%nat = Some m ∧ rows_open m) →
  ∃ m, mask s' !! (a - 1)%nat = Some m ∧ rows_open m.
Proof.
  unfold agent_turn. intros H Hne Ha Hopen. apply bind_Ok in H as (s1 & H1 & H).
  eapply (foldM_invariant _ (λ s, ∃ m, mask s !! (a - 1)%nat = Some m ∧ rows_open m));
    [|exact H|].
  - intros s0 y s0' Hy. apply bind_Ok in Hy as ([s0'' alive] & Hr & Hy).
    injection Hy as <-. by eapply refresh_mask_open.
  - case_decide as Hb; [|by injection H1 as <-].
    apply agent_block_fields in H1
      as (? & ? & ? & ? & ? & ? & ? & ? & ? & m' & ?
          & _ & _ & _ & _ & _ & _ & _ & _ & _ & _ & _ & _ & -> & _).
    destruct Hopen as (m & Hm & Hopen). exists m. split; [|done].
    rewrite list_lookup_insert_ne by lia. done.
Qed.

Lemma agent_turns_open (t a : nat) (pre : list nat) : ∀ s s',
  foldM (agent_turn__ t) s pre = Ok s' → a ∉ pre → (1 ≤ a)%nat →
  (∃ m, mask s !! (a - 1)%nat = Some m ∧ rows_open m) →
  ∃ m, mask s' !! (a - 1)%nat = Some m ∧ rows_open m.
Proof.
  induction pre as [|x pre IH]; intros s s' H Hpa Ha Hopen; simpl in H.
  - by injection H as <-.
  - apply bind_Ok in H as (s1 & H1 & H).
    apply not_elem_of_cons in Hpa as [Hax Hpa].
    eapply IH; [exact H|done|done|]. by eapply agent_turn_open.
Qed.

(** X16. When an agent's turn comes, every row of the mask it chooses from has
    a first entry and a non-zero sum: the mask is the one left by the last
    refresh with its depot fallback, whatever [mask_fn] did to the masks
    of the agents that acted before. *)
Theorem acting_agent_chooses_from_open_rows (t : nat) (s s1 sa : state)
    (ids pre post : list nat) (a : nat) :
  refresh_all self up_station s = Ok (s1, ids) →
  ids = pre ++ a :: post →
  foldM (agent_turn__ t) s1 pre = Ok sa →
  (1 ≤ a ≤ 10)%nat →
  ∃ m, mask sa !! (a - 1)%nat = Some m ∧ rows_open m.
Proof.
  intros Hr Hids Hpre Hb.
  pose proof (refresh_all_frame _ _ _ _ _ Hr) as [_ Hsub].
  unfold refresh_all in Hr.
  apply (refresh_all_loop self up_station s) in Hr as [_ Hmask]; try done.
  2:{ apply NoDup_seq. }
  2:{ intros x Hx%elem_of_py_range. lia. }
  2:{ apply NoDup_seq. }
  assert (NoDup ids) as Hnd by (eapply sublist_NoDup; [apply NoDup_seq|exact Hsub]).
  assert (a ∈ py_range 1 (agent_number self)) as Ha.
  { eapply elem_of_sublist; [|exact Hsub]. rewrite Hids.
    apply elem_of_app. right. left. }
  assert (a ∉ pre) as Hpa.
  { rewrite Hids in Hnd. apply NoDup_app in Hnd as (_ & Hdis & _).
    intros Hin. apply (Hdis a Hin). left. }
  destruct (Hmask a Ha Hb) as (r & m' & _ & Hfb & Hm' & _).
  eapply agent_turns_open; [exact Hpre|done|lia|].
  exists m'. split; [done|by eapply depot_fallback_open].
Qed.
End Routes.

(** ** [update_od] and the well-shaped state *)

Lemma mapM_getitem_seq {A : Type} (l : list A) (n : nat) : ∀ k,
  mapM_res (getitem l) (seq k n)
  = if decide (k + n ≤ length l ∨ n = 0)%nat then Ok (take n (drop k l))
    else Raise IndexError.
Proof.
  induction n as [|n IH]; intros k; simpl.
  - rewrite decide_True by (by right). done.
  - rewrite IH. unfold getitem. destruct (l !! k) as [x|] eqn:Hx; simpl.
    + apply lookup_lt_Some in Hx as Hlt.
      repeat case_decide; try (exfalso; lia); try reflexivity;
        rewrite (drop_S _ _ _ Hx); reflexivity.
    + apply lookup_ge_None in Hx.
      repeat case_decide; try (exfalso; lia); reflexivity.
Qed.

Section World.
Context {stop_info graph : Type}.
Variable self : @MA_CB_RP_Major stop_info graph.
Variable net : oracle.
Variable static : static_tensor.
Variable travel_time_G : graph.
Variables up_station all_station : list Z.

(** X17. [update_od] has to return at least ten tensors: with fewer the tick
    raises [IndexError]; with ten or more the first ten become
    [dynamic1] .. [dynamic10], and the list as a whole stays in [dynamic],
    where the next cohort extraction reads it. *)
Theorem update_od_must_return_ten_tensors (s : state) :
  ((length (update_od self (dyn s) (records s) static up_station (tw_mask s)).1 < 10)%nat →
   world_update self static up_station s = Raise IndexError)
  ∧ ((10 ≤ length (update_od self (dyn s) (records s) static up_station (tw_mask s)).1)%nat →
     ∃ s', world_update self static up_station s = Ok s'
           ∧ dyn s' = take 10 (update_od self (dyn s) (records s) static up_station
                                 (tw_mask s)).1
           ∧ dynamic s' = (update_od self (dyn s) (records s) static up_station
                             (tw_mask s)).1
           ∧ records s' = (update_od self (dyn s) (records s) static up_station
                             (tw_mask s)).2
           ∧ decision_list s' = decision_list s ∧ steady s' = steady s).
Proof.
  unfold world_update. rewrite mapM_getitem_seq. split; intros Hlen.
  - rewrite decide_False by lia. done.
  - rewrite decide_True by lia. simpl. eexists. split; [done|]. by rewrite drop_0.
Qed.

End World.

(** * The further properties in the scenario *)

(** Gives the value of a computation that returns. *)
Ltac give_Ok :=
  match goal with
  | |- ∃ x, ?r = Ok x ∧ _ =>
      let v := eval vm_compute in r in
      match v with
      | Ok ?x => exists x; split; [vm_compute; reflexivity|]
      end
  end.

(** ** Before the first tick *)

Lemma initial_queue_holds_every_agent_witness :
  ∃ s0,
    demo_initial_state 3 2 = Ok s0
    ∧ length (decision_list s0) = 2%nat
    ∧ ∀ i q, decision_list s0 !! i = Some q →
        queue_sorted q
        ∧ q.*2 ≡ₚ py_range 1 3
        ∧ (∀ e, e ∈ q → start_time ((take 2) <$> demo_dyns) e.2 i = Some e.1)
        ∧ ∀ t, StronglySorted lt (due t q).*2.
Proof.
  give_Ok.
  apply (initial_queue_holds_every_agent (demo_self 3 false keep_masks)
           (demo_static 2) demo_up_station demo_all_station
           ((take 2) <$> demo_dyns) demo_records).
  vm_compute. reflexivity.
Defined.

Lemma forward_needs_a_station_witness :
  forward (demo_self 3 false keep_masks) demo_net demo_static_empty ()
    demo_up_station demo_all_station ((take 1) <$> demo_dyns) demo_records
  = Raise IndexError.
Proof.
  apply forward_needs_a_station. left. reflexivity.
Defined.

(** ** The rollout as a whole *)

Lemma forward_returns_only_if_every_agent_acted_witness :
  ∃ lg out,
    demo_forward_log 3 false keep_masks 2 = Ok (lg, out)
    ∧ (2 ≤ 10)%nat ∧ (1 ≤ acted_ticks 2 lg)%nat.
Proof.
  run_rollout.
  eapply (forward_returns_only_if_every_agent_acted (demo_self 3 false keep_masks)
           demo_net (demo_static 2) () demo_up_station demo_all_station
           ((take 2) <$> demo_dyns) demo_records _ _ 2%nat).
  - vm_compute. reflexivity.
  - lia.
  - simpl. lia.
Defined.

Lemma forward_rejects_more_than_ten_agents_witness :
  (∃ e, forward (demo_self 12 false keep_masks) demo_net (demo_static 1) ()
          demo_up_station demo_all_station ((take 1) <$> demo_dyns) demo_records
        = Raise e)
  ∧ forward (demo_self 12 false keep_masks) demo_net (demo_static 1) ()
      demo_up_station demo_all_station ((take 1) <$> demo_dyns) demo_records
    = Raise IndexError.
Proof.
  destruct (forward_rejects_more_than_ten_agents (demo_self 12 false keep_masks)
              demo_net (demo_static 1) () demo_up_station demo_all_station
              ((take 1) <$> demo_dyns) demo_records) as [H1 H2].
  - simpl. lia.
  - split; [exact H1|]. apply H2; [reflexivity|simpl; lia].
Defined.

Lemma sequences_within_step_cap_witness :
  ∃ lg out,
    demo_forward_log 3 false keep_masks 2 = Ok (lg, out)
    ∧ (length lg ≤ 3)%nat
    ∧ (max_steps (demo_self 3 false keep_masks) (demo_static 2) = 3%nat)
    ∧ ∀ a seqs logps i,
        r_tour_idx out !! a = Some seqs → r_tour_logp out !! a = Some logps →
        (∀ row, seqs !! i = Some row → (length row ≤ 3)%nat)
        ∧ (∀ row, logps !! i = Some row → (length row ≤ 3)%nat).
Proof.
  run_rollout.
  apply (sequences_within_step_cap (demo_self 3 false keep_masks)
           demo_net (demo_static 2) () demo_up_station demo_all_station
           ((take 2) <$> demo_dyns) demo_records).
  vm_compute. reflexivity.
Defined.

Lemma queues_sorted_at_every_tick_witness :
  ∃ s0,
    demo_initial_state 3 2 = Ok s0
    ∧ ∃ lg s1,
        demo_run 3 2 3 s0 = Ok (lg, s1)
        ∧ Forall (λ s, Forall queue_sorted (decision_list s)) (s0 :: lg.*2).
Proof.
  give_Ok. run_rollout.
  eapply (queues_sorted_at_every_tick (demo_self 3 false keep_masks)
            demo_net (demo_static 2) () demo_up_station demo_all_station
            ((take 2) <$> demo_dyns) demo_records 3);
    vm_compute; reflexivity.
Defined.

Lemma tick_breaks_when_ten_masks_are_zero_witness :
  ∃ r,
    tick (demo_self 4 false keep_masks) demo_net (demo_static 1) ()
      demo_up_station demo_all_station 0 demo_state_idle = Ok r
    ∧ ((∃ s', r = Break s') ↔ Forall all_zero (agent_mask demo_state_idle))
    ∧ ∀ s', r = Break s' → steady s' = steady demo_state_idle.
Proof.
  give_Ok.
  eapply (tick_breaks_when_ten_masks_are_zero (demo_self 4 false keep_masks)
           demo_net (demo_static 1) () demo_up_station demo_all_station
           0 demo_state_idle _ [[0; 0; 0]] (replicate 9 [[0; 0; 0]])).
  - reflexivity.
  - repeat constructor.
  - repeat constructor.
  - simpl. lia.
  - vm_compute. reflexivity.
Defined.

Lemma forward_raises_when_first_tick_breaks_witness :
  ∃ e, forward (demo_self 3 false keep_masks) demo_net (demo_static 0) ()
         demo_up_station demo_all_station ((take 0) <$> demo_dyns) demo_records
       = Raise e.
Proof.
  apply forward_raises_when_first_tick_breaks.
  - simpl. lia.
  - right. reflexivity.
Defined.

(** ** Action selection and one agent's action *)

Lemma training_selection_is_first_valid_draw_witness :
  ∃ ptr logp,
    select_action (demo_self 3 true keep_masks) demo_net_retry (demo_static 1)
      0 1 [[0; 1; 1]] [1] = Ok (ptr, logp)
    ∧ ∃ k raw,
        (k < 3)%nat
        ∧ raw = sample demo_net_retry 0 1 k <$> seq 0 1
        ∧ ptr = zip_with Z.mul raw [1]
        ∧ logp = zip_with Z.mul (imap (log_prob demo_net_retry 0 1) raw) [1]
        ∧ (∀ i, (i < 1)%nat →
             ∃ p row x, raw !! i = Some p ∧ [[0; 1; 1]] !! i = Some row ∧ 0 ≤ p
                        ∧ row !! Z.to_nat p = Some x ∧ byte x ≠ 0)
        ∧ ∀ k', (k' < k)%nat →
            ∃ i p, (sample demo_net_retry 0 1 k' <$> seq 0 1) !! i = Some p
                   ∧ ∀ row x, [[0; 1; 1]] !! i = Some row → 0 ≤ p →
                              row !! Z.to_nat p = Some x → byte x = 0.
Proof.
  eexists _, _. split; [vm_compute; reflexivity|].
  apply (training_selection_is_first_valid_draw (demo_self 3 true keep_masks)
           demo_net_retry (demo_static 1) 0 1 [[0; 1; 1]] [1]).
  - reflexivity.
  - reflexivity.
  - vm_compute. reflexivity.
Defined.

Lemma unscheduled_instance_is_left_alone_witness :
  ∃ s',
    agent_block (demo_self 4 false keep_masks) demo_net (demo_static 1) ()
      demo_up_station demo_all_station 0 2 demo_state_flagged = Ok s'
    ∧ decision_list s' !! 0%nat = decision_list demo_state_flagged !! 0%nat
    ∧ (∃ idxs ptr, tour_idx s' !! 2%nat = Some (idxs ++ [ptr]) ∧ ptr !! 0%nat = Some 0)
    ∧ ∃ routes routes',
        tour_idx_dict demo_state_flagged !! 2%nat = Some routes
        ∧ tour_idx_dict s' !! 2%nat = Some routes'
        ∧ routes' !! 0%nat = routes !! 0%nat.
Proof.
  give_Ok.
  apply (unscheduled_instance_is_left_alone (demo_self 4 false keep_masks)
           demo_net (demo_static 1) () demo_up_station demo_all_station
           0 2 demo_state_flagged).
  - lia.
  - vm_compute. reflexivity.
  - vm_compute. reflexivity.
  - simpl. lia.
Defined.

Lemma broadcast_writes_the_slice_only_witness :
  ∃ s',
    agent_block (demo_self 4 false keep_masks) demo_net (demo_static 1) ()
      demo_up_station demo_all_station 0 1 demo_state_flagged = Ok s'
    ∧ ∃ dj,
        dyn demo_state_flagged !! 1%nat = Some dj
        ∧ length (dyn s') = length (dyn demo_state_flagged)
        ∧ (1%nat ≠ (1 - 1)%nat →
           ∃ dj', dyn s' !! 1%nat = Some dj' ∧ dims dj' = dims dj
             ∧ ∀ i r c, (r = 0 ∨ 4 ≤ r ∨ length demo_up_station ≤ c)%nat →
                 entry_at dj' i r c = entry_at dj i r c)
        ∧ (1%nat = (1 - 1)%nat →
           update_fn (demo_self 4 false keep_masks) = None →
           dyn s' !! 1%nat = Some dj).
Proof.
  give_Ok. eexists. split; [vm_compute; reflexivity|].
  apply (broadcast_writes_the_slice_only (demo_self 4 false keep_masks)
           demo_net (demo_static 1) () demo_up_station demo_all_station
           0 1 demo_state_flagged).
  - lia.
  - vm_compute. reflexivity.
  - vm_compute. reflexivity.
Defined.

(** ** The refresh and the invariants *)

Lemma acting_agents_are_kept_by_mask_start_witness :
  ∃ s' ids,
    refresh_all (demo_self 4 false keep_masks) demo_up_station demo_state_closed_2
    = Ok (s', ids)
    ∧ ids = [1%nat; 3%nat]
    ∧ ids = filter (λ a, stays (demo_self 4 false keep_masks) demo_up_station
                           demo_state_closed_2 a = true) (py_range 1 4)
    ∧ StronglySorted lt ids
    ∧ ∀ a, a ∈ py_range 1 4 → (1 ≤ a ≤ 10)%nat →
        ∃ r m',
          mask_start_of (demo_self 4 false keep_masks) demo_up_station
            demo_state_closed_2 a = Some r
          ∧ depot_fallback r.1 = Ok m'
          ∧ mask s' !! (a - 1)%nat = Some m'
          ∧ agent_mask s' !! (a - 1)%nat = Some r.2.
Proof.
  eexists _, _. split; [vm_compute; reflexivity|]. split; [reflexivity|].
  apply (acting_agents_are_kept_by_mask_start (demo_self 4 false keep_masks)
           demo_up_station demo_state_closed_2).
  vm_compute. reflexivity.
Defined.

Lemma agents_queued_at_most_once_witness :
  ∃ s0,
    demo_initial_state 3 2 = Ok s0
    ∧ ∃ lg s1,
        demo_run 3 2 3 s0 = Ok (lg, s1)
        ∧ Forall (λ s, agents_once 3 s
                       ∧ Forall (λ q : list entry, (length q ≤ 2)%nat)
                           (decision_list s))
            (s0 :: lg.*2).
Proof.
  give_Ok. run_rollout.
  eapply (agents_queued_at_most_once (demo_self 3 false keep_masks)
            demo_net (demo_static 2) () demo_up_station demo_all_station
            ((take 2) <$> demo_dyns) demo_records 3);
    vm_compute; reflexivity.
Defined.

Lemma route_is_the_nonzero_indices_witness :
  ∃ s0,
    demo_initial_state 3 2 = Ok s0
    ∧ ∃ lg s1,
        demo_run 3 2 3 s0 = Ok (lg, s1)
        ∧ Forall routes_follow (s0 :: s1 :: lg.*2)
        ∧ ∀ out a seqs routes i row,
            finish (demo_self 3 false keep_masks) s1 = Ok out →
            r_tour_idx out !! a = Some seqs → tour_idx_dict s1 !! a = Some routes →
            seqs !! i = Some row → (i < 2)%nat →
            routes !! i = Some (filter (λ p, p ≠ 0) row).
Proof.
  give_Ok. run_rollout.
  eapply (route_is_the_nonzero_indices (demo_self 3 false keep_masks)
            demo_net (demo_static 2) () demo_up_station demo_all_station
            ((take 2) <$> demo_dyns) demo_records 3);
    vm_compute; reflexivity.
Defined.

Lemma sort_keeps_ties_in_queue_order_witness :
  ∃ q', decision_list (sort_all demo_state) !! 0%nat = Some q'
        ∧ queue_sorted q' ∧ q' ≡ₚ demo_queue ∧ ∀ t, due t q' = due t demo_queue.
Proof.
  apply (sort_keeps_ties_in_queue_order demo_state 0 demo_queue). reflexivity.
Defined.

Lemma acting_agent_chooses_from_open_rows_witness :
  ∃ s1 ids,
    refresh_all (demo_self 4 false keep_masks) demo_up_station demo_state_closed_2
    = Ok (s1, ids)
    ∧ ids = [1%nat] ++ 3%nat :: []
    ∧ ∃ sa,
        foldM (agent_turn (demo_self 4 false keep_masks) demo_net (demo_static 1) ()
                 demo_up_station demo_all_station 0) s1 [1%nat] = Ok sa
        ∧ ∃ m, mask sa !! (3 - 1)%nat = Some m ∧ rows_open m.
Proof.
  eexists _, _. split; [vm_compute; reflexivity|]. split; [reflexivity|].
  give_Ok.
  eapply (acting_agent_chooses_from_open_rows (demo_self 4 false keep_masks)
            demo_net (demo_static 1) () demo_up_station demo_all_station
            0 demo_state_closed_2 _ _ _ [1%nat] [] 3%nat).
  - vm_compute. reflexivity.
  - reflexivity.
  - vm_compute. reflexivity.
  - lia.
Defined.

(** ** [update_od] and the well-shaped state *)

Lemma update_od_must_return_ten_tensors_witness :
  ∃ s',
    world_update (demo_self 4 false keep_masks) (demo_static 1) demo_up_station
      demo_state = Ok s'
    ∧ dyn s' = take 10 (dyn demo_state)
    ∧ dynamic s' = dyn demo_state
    ∧ records s' = records demo_state
    ∧ decision_list s' = decision_list demo_state
    ∧ steady s' = steady demo_state.
Proof.
  apply (update_od_must_return_ten_tensors (demo_self 4 false keep_masks)
           (demo_static 1) demo_up_station demo_state).
  simpl. lia.
Defined.

